(** * A boundary-tag allocator with an explicit free list (mm.c)

    Shallow embedding of [src/malloclab-handout/mm.c].  The heap is a
    word-granular store addressed by byte address; every [size_t] and every
    pointer is a [Z] reduced modulo [2^64].  The allocator's two globals
    ([list_head], [initial_mapped]) and the page provider live in one
    explicit state record that every function threads through. *)

From stdpp Require Import base gmap list.
From Stdlib Require Import ZArith Lia.

Local Open Scope Z_scope.

(** ** Machine words *)

Abbreviation W64 := 18446744073709551616 (only parsing).

(** [size_t] arithmetic and pointer arithmetic wrap at 64 bits. *)
Definition wrap (z : Z) : Z := z mod W64.

(** ** Constants of mm.c *)

Definition ALIGNMENT : Z := 16.
Definition WSIZE : Z := 8.
Definition DSIZE : Z := 16.
Definition CHUNKSIZE : Z := Z.shiftl 1 12.
Definition PAGE_OVERHEAD : Z := 32.
Definition THRESHOLD : Z := 4096 * 60.
(** [sizeof(block_header) + sizeof(block_footer)] *)
Definition OVERHEAD : Z := 16.

(** [~(n)] on an [int], converted to [size_t] by the enclosing [&]. *)
Definition mask_not (n : Z) : Z := wrap (Z.lnot n).

(** [ALIGN(size)] *)
Definition ALIGN (size : Z) : Z :=
  Z.land (wrap (size + (ALIGNMENT - 1))) (mask_not (ALIGNMENT - 1)).

(** [MAX(a,b)] *)
Definition MAX (a b : Z) : Z := if b <? a then a else b.

(** [PACK(size, alloc)] *)
Definition PACK (size alloc : Z) : Z := Z.lor size alloc.

(** The two fields of a boundary tag, as [GET_SIZE] and [GET_ALLOC]
    extract them from the word they are given. *)
Definition tag_size (w : Z) : Z := Z.land w (mask_not 15).
Definition tag_alloc (w : Z) : Z := Z.land w 1.

(** ** The page provider and the allocator state *)

(** Calls made to the page provider, most recent first. *)
Inductive call :=
  | CallMap (size addr : Z)
  | CallUnmap (addr size : Z).

Record state := mkState {
  mem : gmap Z Z;              (* contents of memory, one 8-byte word per key *)
  mapped : list (Z * Z);       (* regions [(base, size)] currently mapped *)
  list_head : Z;               (* struct list_node* list_head; 0 is NULL *)
  initial_mapped : Z;          (* size_t initial_mapped *)
  pagesz : Z;                  (* what mem_pagesize() reports *)
  supply : list Z;             (* addresses the provider hands out next *)
  calls : list call            (* provider calls so far *)
}.

Definition set_mem (s : state) (m : gmap Z Z) : state :=
  mkState m (mapped s) (list_head s) (initial_mapped s) (pagesz s) (supply s) (calls s).
Definition set_list_head (s : state) (h : Z) : state :=
  mkState (mem s) (mapped s) h (initial_mapped s) (pagesz s) (supply s) (calls s).
Definition set_initial_mapped (s : state) (v : Z) : state :=
  mkState (mem s) (mapped s) (list_head s) v (pagesz s) (supply s) (calls s).

(** A run of the code either returns a value and a new state, touches
    memory it may not touch (or breaks the provider's contract), or uses up
    the steps it was given. *)
Inductive result (A : Type) :=
  | Ok (a : A) (s : state)
  | Fault
  | Timeout.
Arguments Ok {A} a s.
Arguments Fault {A}.
Arguments Timeout {A}.

Definition M (A : Type) : Type := state -> result A.

Definition ret {A} (a : A) : M A := fun s => Ok a s.
Definition bind {A B} (c : M A) (k : A -> M B) : M B :=
  fun s => match c s with
           | Ok a s' => k a s'
           | Fault => Fault
           | Timeout => Timeout
           end.

Notation "'do' x <- c ; k" := (bind c (fun x => k))
  (at level 10, x name, c at level 100, k at level 200).
Notation "c ;; k" := (bind c (fun _ => k))
  (at level 100, k at level 200, right associativity).

(** An 8-byte access at [p] is allowed when [p] is word aligned and the
    word lies inside one mapped region.  The store holds one word per
    address, so an access that is not word aligned has no meaning in it:
    such an access is refused, and wherever a theorem concludes that an
    access faults, the address is aligned and no mapped region holds it. *)
Definition in_region (p : Z) (r : Z * Z) : bool :=
  (r.1 <=? p) && (p + 8 <=? r.1 + r.2).
Definition valid (s : state) (p : Z) : bool :=
  (p mod 8 =? 0) && existsb (in_region p) (mapped s).

(** [GET(p)] *)
Definition GET (p : Z) : M Z :=
  fun s => if valid s p then Ok (mem s !!! p) s else Fault.
(** [PUT(p, val)] *)
Definition PUT (p val : Z) : M unit :=
  fun s => if valid s p then Ok tt (set_mem s (<[p := val]> (mem s))) else Fault.

Definition get_list_head : M Z := fun s => Ok (list_head s) s.
Definition put_list_head (h : Z) : M unit := fun s => Ok tt (set_list_head s h).
Definition get_initial_mapped : M Z := fun s => Ok (initial_mapped s) s.
Definition put_initial_mapped (v : Z) : M unit := fun s => Ok tt (set_initial_mapped s v).

(** Modelled from the spec: the page provider (memlib.h / memlib.c is not
    part of the sources).  [page_size()] reports the provider's granularity. *)
Definition mem_pagesize : M Z := fun s => Ok (pagesz s) s.

(** Modelled from the spec: [map(size)] returns a region of exactly [size]
    bytes, or the null sentinel on exhaustion.  The addresses it will hand
    out are scripted in [supply]; a [0] entry, or an empty script, is a
    refusal. *)
Definition mem_map (size : Z) : M Z :=
  fun s =>
    match supply s with
    | a :: rest =>
        Ok a (mkState (mem s)
                      (if a =? 0 then mapped s else (a, size) :: mapped s)
                      (list_head s) (initial_mapped s) (pagesz s) rest
                      (CallMap size a :: calls s))
    | [] =>
        Ok 0 (mkState (mem s) (mapped s) (list_head s) (initial_mapped s)
                      (pagesz s) [] (CallMap size 0 :: calls s))
    end.

Definition region_eqb (r1 r2 : Z * Z) : bool :=
  (r1.1 =? r2.1) && (r1.2 =? r2.2).

Fixpoint remove_region (r : Z * Z) (l : list (Z * Z)) : list (Z * Z) :=
  match l with
  | [] => []
  | x :: l' => if region_eqb r x then l' else x :: remove_region r l'
  end.

(** Modelled from the spec: [unmap(address, size)] releases a previously
    mapped region; address and size must match a prior [map] call's region.
    A call that matches no mapped region breaks that contract. *)
Definition mem_unmap (addr size : Z) : M unit :=
  fun s =>
    if existsb (region_eqb (addr, size)) (mapped s)
    then Ok tt (mkState (mem s) (remove_region (addr, size) (mapped s))
                        (list_head s) (initial_mapped s) (pagesz s) (supply s)
                        (CallUnmap addr size :: calls s))
    else Fault.

(** [PAGE_ALIGN(size)] *)
Definition PAGE_ALIGN (size : Z) : M Z :=
  do p1 <- mem_pagesize;
  do p2 <- mem_pagesize;
  ret (Z.land (wrap (size + wrap (p1 - 1))) (wrap (Z.lnot (wrap (p2 - 1))))).

(** [PAGE_ALIGN] as a function of the page size. *)
Definition page_align (p x : Z) : Z :=
  Z.land (wrap (x + wrap (p - 1))) (wrap (Z.lnot (wrap (p - 1)))).

(** What [extend_size] computes from the page size [p], the tracker [im]
    and the needed size [s]: the size it settles on, and from it the new
    tracker and the size requested. *)
Definition chunk_choice (p im s : Z) : Z :=
  let initial_size := page_align p (wrap (wrap (im * 2) + PAGE_OVERHEAD)) in
  let page_size := page_align p (wrap (s + PAGE_OVERHEAD)) in
  if initial_size <? page_size then page_size
  else if initial_size <=? THRESHOLD then initial_size
  else im.
Definition extend_request (p im s : Z) : Z :=
  page_align p (wrap (chunk_choice p im s + PAGE_OVERHEAD)).

(** ** Block navigation macros *)

Definition HDRP (bp : Z) : Z := wrap (bp - 8).
Definition GET_SIZE (p : Z) : M Z := do w <- GET p; ret (tag_size w).
Definition GET_ALLOC (p : Z) : M Z := do w <- GET p; ret (tag_alloc w).
Definition FTRP (bp : Z) : M Z :=
  do sz <- GET_SIZE (HDRP bp); ret (wrap (wrap (bp + sz) - OVERHEAD)).
Definition NEXT_BLKP (bp : Z) : M Z :=
  do sz <- GET_SIZE (HDRP bp); ret (wrap (bp + sz)).
Definition PREV_BLKP (bp : Z) : M Z :=
  do sz <- GET_SIZE (wrap (bp - OVERHEAD)); ret (wrap (bp - sz)).

(** Fields of [struct list_node] placed at [bp]: [prev] at offset 0 and
    [next] at offset 8. *)
Definition prev_field (bp : Z) : Z := bp.
Definition next_field (bp : Z) : Z := wrap (bp + 8).

(** ** The free list *)

Definition add_node (bp : Z) : M unit :=
  do h <- get_list_head;
  PUT (next_field bp) h ;;
  do h' <- get_list_head;
  (if h' =? 0 then ret tt else PUT (prev_field h') bp) ;;
  PUT (prev_field bp) 0 ;;
  put_list_head bp.

Definition delete_node (bp : Z) : M unit :=
  do pv <- GET (prev_field bp);
  if pv =? 0 then
    do nx <- GET (next_field bp);
    if nx =? 0 then put_list_head 0
    else
      do nx1 <- GET (next_field bp);
      put_list_head nx1 ;;
      do nx2 <- GET (next_field bp);
      PUT (prev_field nx2) 0
  else
    do nx <- GET (next_field bp);
    if nx =? 0 then
      do pv1 <- GET (prev_field bp);
      PUT (next_field pv1) 0
    else
      do pv1 <- GET (prev_field bp);
      do nx1 <- GET (next_field bp);
      PUT (next_field pv1) nx1 ;;
      do nx2 <- GET (next_field bp);
      do pv2 <- GET (prev_field bp);
      PUT (prev_field nx2) pv2.

(** The [while] loop of [find_fit], given [fuel] iterations. *)
Fixpoint find_fit_from (fuel : nat) (current asize : Z) : M Z :=
  match fuel with
  | O => fun _ => Timeout
  | S fuel' =>
      if current =? 0 then ret 0
      else
        do sz <- GET_SIZE (HDRP current);
        if asize <=? sz then ret current
        else
          do nx <- GET (next_field current);
          find_fit_from fuel' nx asize
  end.

Definition find_fit (fuel : nat) (asize : Z) : M Z :=
  do h <- get_list_head; find_fit_from fuel h asize.

(** ** Splitting *)

Definition set_allocated (bp size : Z) : M unit :=
  do initial_size <- GET_SIZE (HDRP bp);
  let difference := wrap (initial_size - size) in
  delete_node bp ;;
  if PAGE_OVERHEAD <? difference then
    PUT (HDRP bp) (PACK size 1) ;;
    do f <- FTRP bp;
    PUT f (PACK size 1) ;;
    do n1 <- NEXT_BLKP bp;
    PUT (HDRP n1) (PACK difference 0) ;;
    do n2 <- NEXT_BLKP bp;
    do f2 <- FTRP n2;
    PUT f2 (PACK difference 0) ;;
    do n3 <- NEXT_BLKP bp;
    add_node n3
  else
    PUT (HDRP bp) (PACK initial_size 1) ;;
    do f <- FTRP bp;
    PUT f (PACK initial_size 1).

(** ** Growing the pool *)

(** The first half of [extend]: the size to hand to [mem_map], with the
    update of [initial_mapped] on the way. *)
Definition extend_size (s : Z) : M Z :=
  do im0 <- get_initial_mapped;
  do initial_size <- PAGE_ALIGN (wrap (wrap (im0 * 2) + PAGE_OVERHEAD));
  do page_size <- PAGE_ALIGN (wrap (s + PAGE_OVERHEAD));
  do size <-
    (if initial_size <? page_size then
       put_initial_mapped page_size ;; ret page_size
     else if initial_size <=? THRESHOLD then
       put_initial_mapped initial_size ;; ret initial_size
     else get_initial_mapped);
  PAGE_ALIGN (wrap (size + PAGE_OVERHEAD)).

Definition extend (s : Z) : M Z :=
  do size <- extend_size s;
  do bp <- mem_map size;
  PUT bp 0 ;;
  let bp := wrap (bp + 8) in
  PUT bp (PACK 16 1) ;;
  let bp := wrap (bp + 8) in
  PUT bp (PACK 16 1) ;;
  let bp := wrap (bp + 8) in
  PUT bp (PACK (wrap (size - PAGE_OVERHEAD)) 0) ;;
  let bp := wrap (bp + 8) in
  do f <- FTRP bp;
  PUT f (PACK (wrap (size - PAGE_OVERHEAD)) 0) ;;
  do f' <- FTRP bp;
  PUT (wrap (f' + 8)) (PACK 0 1) ;;
  add_node bp ;;
  ret bp.

(** ** Coalescing *)

Definition coalesce (bp : Z) : M Z :=
  do pb <- PREV_BLKP bp;
  do prev_alloc <- GET_ALLOC (HDRP pb);
  do nb <- NEXT_BLKP bp;
  do next_alloc <- GET_ALLOC (HDRP nb);
  do size <- GET_SIZE (HDRP bp);
  if negb (prev_alloc =? 0) && negb (next_alloc =? 0) then
    add_node bp ;; ret bp
  else if negb (prev_alloc =? 0) && (next_alloc =? 0) then
    do nb1 <- NEXT_BLKP bp;
    do nsz <- GET_SIZE (HDRP nb1);
    let size := wrap (size + nsz) in
    do nb2 <- NEXT_BLKP bp;
    delete_node nb2 ;;
    PUT (HDRP bp) (PACK size 0) ;;
    do f <- FTRP bp;
    PUT f (PACK size 0) ;;
    add_node bp ;;
    ret bp
  else if (prev_alloc =? 0) && negb (next_alloc =? 0) then
    do pb1 <- PREV_BLKP bp;
    do psz <- GET_SIZE (HDRP pb1);
    let size := wrap (size + psz) in
    do pb2 <- PREV_BLKP bp;
    PUT (HDRP pb2) (PACK size 0) ;;
    do f <- FTRP bp;
    PUT f (PACK size 0) ;;
    do pb3 <- PREV_BLKP bp;
    ret pb3
  else
    do nb1 <- NEXT_BLKP bp;
    do nsz <- GET_SIZE (HDRP nb1);
    do pb1 <- PREV_BLKP bp;
    do psz <- GET_SIZE (HDRP pb1);
    let size := wrap (size + wrap (nsz + psz)) in
    do nb2 <- NEXT_BLKP bp;
    delete_node nb2 ;;
    do pb2 <- PREV_BLKP bp;
    PUT (HDRP pb2) (PACK size 0) ;;
    do nb3 <- NEXT_BLKP bp;
    do f <- FTRP nb3;
    PUT f (PACK size 0) ;;
    do pb3 <- PREV_BLKP bp;
    ret pb3.

(** ** The public operations *)

Definition mm_init : M Z :=
  put_list_head 0 ;; ret 0.

Definition mm_malloc (fuel : nat) (size : Z) : M Z :=
  let full_size := ALIGN (wrap (size + OVERHEAD)) in
  do free_block <- find_fit fuel full_size;
  if negb (free_block =? 0) then
    set_allocated free_block full_size ;; ret free_block
  else
    do free_block <- extend full_size;
    if negb (free_block =? 0) then
      do free_block <- get_list_head;
      set_allocated free_block full_size ;; ret free_block
    else ret free_block.

Definition mm_free (ptr : Z) : M unit :=
  do size <- GET_SIZE (HDRP ptr);
  PUT (HDRP ptr) (PACK size 0) ;;
  do f <- FTRP ptr;
  PUT f (PACK size 0) ;;
  do pointer <- coalesce ptr;
  do a <- GET_SIZE (wrap (pointer - 24));
  if a =? OVERHEAD then
    do f1 <- FTRP pointer;
    do b <- GET_SIZE (wrap (f1 + 8));
    if b =? 0 then
      do c <- GET_SIZE (HDRP pointer);
      if 4096 * 10 <=? c then
        delete_node pointer ;;
        do c1 <- GET_SIZE (HDRP pointer);
        let map_size := wrap (c1 + PAGE_OVERHEAD) in
        mem_unmap (wrap (pointer - PAGE_OVERHEAD)) map_size
      else ret tt
    else ret tt
  else ret tt.

(** ** Concrete states used in examples *)

(** The process image before any call: both globals are zero-initialised,
    nothing is mapped, pages are 4096 bytes, and the provider will hand out
    the addresses in [sup]. *)
Definition boot (sup : list Z) : state :=
  mkState ∅ [] 0 0 4096 sup [].

Definition state_of {A} (r : result A) (dflt : state) : state :=
  match r with Ok _ s => s | _ => dflt end.

(** * Vocabulary of the specifications *)

(** The bytes [lo, hi) lie inside one mapped region. *)
Definition covered (s : state) (lo hi : Z) : Prop :=
  Exists (fun r => r.1 <= lo /\ hi <= r.1 + r.2) (mapped s).

(** What one operation leaves alone: everything but the list head and the
    words of memory singled out by [P]. *)
Definition frame (P : Z -> Prop) (s s' : state) : Prop :=
  mapped s' = mapped s /\ initial_mapped s' = initial_mapped s /\
  pagesz s' = pagesz s /\ supply s' = supply s /\ calls s' = calls s /\
  forall a, ~ P a -> mem s' !!! a = mem s !!! a.

(** [dlseg m pv h l nxt]: starting at [h], whose [prev] is [pv], the [next]
    pointers run through exactly the nodes [l] and end on [nxt]; every
    [prev] pointer names the node before. *)
Fixpoint dlseg (m : gmap Z Z) (pv h : Z) (l : list Z) (nxt : Z) : Prop :=
  match l with
  | [] => h = nxt
  | n :: l' => h = n /\ m !!! n = pv /\ dlseg m n (m !!! (n + 8)) l' nxt
  end.

(** The two link words of a node are addressable. *)
Definition node_ok (s : state) (n : Z) : Prop :=
  0 < n /\ n + 16 <= W64 /\ n mod 16 = 0 /\ covered s n (n + 16).

(** [dlist s l]: the free list of [s] is the null-terminated doubly-linked
    list of the distinct nodes [l], in order from [list_head]. *)
Definition dlist (s : state) (l : list Z) : Prop :=
  dlseg (mem s) 0 (list_head s) l 0 /\ Forall (node_ok s) l /\ NoDup l.

(** The link words of the nodes of [l]. *)
Definition touches (l : list Z) (a : Z) : Prop :=
  Exists (fun n => a = n \/ a = n + 8) l.

(** The property of claim C10, spelled out on the words of memory. *)
Definition links_ok (s : state) (l : list Z) : Prop :=
  (list_head s <> 0 -> mem s !!! list_head s = 0) /\
  Forall (fun n =>
            (mem s !!! (n + 8) <> 0 -> mem s !!! (mem s !!! (n + 8)) = n) /\
            (mem s !!! n <> 0 -> mem s !!! (mem s !!! n + 8) = n)) l.

Definition last0 (pv : Z) (l : list Z) : Z := default pv (last l).

(** Header and footer of the block at [bp] both read [(sz, a)]. *)
Definition tagged (s : state) (bp sz a : Z) : Prop :=
  mem s !!! (bp - 8) = PACK sz a /\ mem s !!! (bp + sz - 16) = PACK sz a.

(** A free block [(bp, sz)] of the data model: aligned, at least the
    minimum block size, wholly mapped, with matching free tags. *)
Definition block_ok (s : state) (b : Z * Z) : Prop :=
  0 < b.1 /\ b.1 mod 16 = 0 /\ b.2 mod 16 = 0 /\ 32 <= b.2 /\
  b.1 + b.2 < W64 /\
  covered s (b.1 - 8) (b.1 + b.2 - 8) /\ tagged s b.1 b.2 0.

(** Two blocks do not overlap. *)
Definition apart (b1 b2 : Z * Z) : Prop :=
  b1.1 + b1.2 <= b2.1 \/ b2.1 + b2.2 <= b1.1.

Fixpoint separated (L : list (Z * Z)) : Prop :=
  match L with
  | [] => True
  | b :: L' => Forall (apart b) L' /\ separated L'
  end.

(** [free_list s L]: the free list of [s] links exactly the free blocks
    [L], head first; each is a well-formed free block and no two overlap. *)
Definition free_list (s : state) (L : list (Z * Z)) : Prop :=
  dlseg (mem s) 0 (list_head s) (L.*1) 0 /\
  Forall (block_ok s) L /\ separated L.

(** The link words of the blocks of [L]. *)
Definition links (L : list (Z * Z)) (a : Z) : Prop :=
  Exists (fun b => b.1 <= a < b.1 + 16) L.

Fixpoint first_fit (L : list (Z * Z)) (asize : Z) : option (Z * Z) :=
  match L with
  | [] => None
  | b :: L' => if asize <=? b.2 then Some b else first_fit L' asize
  end.

(** Dropping the block at address [x] from a list of blocks, and changing
    its recorded size in place. *)
Definition remove_block (x : Z) (L : list (Z * Z)) : list (Z * Z) :=
  filter (fun b => b.1 <> x) L.
Definition resize_block (x v : Z) (L : list (Z * Z)) : list (Z * Z) :=
  fmap (fun b => if b.1 =? x then (x, v) else b) L.

(** The situation [coalesce] is called in: the block [(bp, sz)] has just
    been tagged free and is not on the free list; the block before it has
    tags [(psz, pa)], the header after it reads [(nsz, na)]; the three lie
    in one mapped chunk, and a neighbour tagged free is on the free list. *)
Definition releasable (s : state) (L : list (Z * Z))
    (bp sz psz pa nsz na : Z) : Prop :=
  bp mod 16 = 0 /\ sz mod 16 = 0 /\ 32 <= sz /\
  psz mod 16 = 0 /\ 16 <= psz /\ nsz mod 16 = 0 /\ 0 <= nsz /\
  (pa = 0 \/ pa = 1) /\ (na = 0 \/ na = 1) /\
  8 < bp - psz /\ bp + sz + nsz < W64 /\
  covered s (bp - psz - 8) (bp + sz + nsz) /\
  tagged s bp sz 0 /\ tagged s (bp - psz) psz pa /\
  mem s !!! (bp + sz - 8) = PACK nsz na /\
  Forall (apart (bp, sz)) L /\
  (pa = 0 -> (bp - psz, psz) ∈ L) /\ (na = 0 -> (bp + sz, nsz) ∈ L).

(** What [coalesce] is specified to return and to leave on the free list,
    by the allocation state of the two neighbours. *)
Definition coalesced (L : list (Z * Z)) (bp sz psz pa nsz na : Z)
    : Z * list (Z * Z) :=
  match pa =? 0, na =? 0 with
  | false, false => (bp, (bp, sz) :: L)
  | false, true => (bp, (bp, sz + nsz) :: remove_block (bp + sz) L)
  | true, false => (bp - psz, resize_block (bp - psz) (psz + sz) L)
  | true, true =>
      (bp - psz,
       resize_block (bp - psz) (psz + sz + nsz) (remove_block (bp + sz) L))
  end.

(** The block [coalesce] ends up with: the released block together with
    each neighbour that was free. *)
Definition merged (bp sz psz pa nsz na : Z) : Z * Z :=
  (bp - (if pa =? 0 then psz else 0),
   sz + (if pa =? 0 then psz else 0) + (if na =? 0 then nsz else 0)).

(** The situation [mm_free] is called in: as [releasable], with the block
    [(bp, sz)] still tagged allocated. *)
Definition live (s : state) (L : list (Z * Z))
    (bp sz psz pa nsz na : Z) : Prop :=
  bp mod 16 = 0 /\ sz mod 16 = 0 /\ 32 <= sz /\
  psz mod 16 = 0 /\ 16 <= psz /\ nsz mod 16 = 0 /\ 0 <= nsz /\
  (pa = 0 \/ pa = 1) /\ (na = 0 \/ na = 1) /\
  8 < bp - psz /\ bp + sz + nsz < W64 /\
  covered s (bp - psz - 8) (bp + sz + nsz) /\
  tagged s bp sz 1 /\ tagged s (bp - psz) psz pa /\
  mem s !!! (bp + sz - 8) = PACK nsz na /\
  Forall (apart (bp, sz)) L /\
  (pa = 0 -> (bp - psz, psz) ∈ L) /\ (na = 0 -> (bp + sz, nsz) ∈ L).

(** The first two stores of [mm_free]. *)
Definition retagged (s : state) (bp sz : Z) : state :=
  set_mem s (<[bp + sz - 16 := PACK sz 0]> (<[bp - 8 := PACK sz 0]> (mem s))).

(** What [mm_free] probes once it holds the coalesced block [(r, total)]. *)
Definition sole_probe (s : state) (r total : Z) : bool :=
  (tag_size (mem s !!! (r - 24)) =? OVERHEAD) &&
  (tag_size (mem s !!! (r + total - 8)) =? 0) &&
  (4096 * 10 <=? total).

(** No mapped region meets [a, a + size). *)
Definition fresh (s : state) (a size : Z) : Prop :=
  Forall (fun r => a + size <= r.1 \/ r.1 + r.2 <= a) (mapped s).

(** The page provider is able to grant the chunk [extend n] would ask for:
    it hands out a fresh, aligned, non-null region, and the size asked for
    holds a block of [n] bytes besides the 32 bytes of chunk overhead. *)
Definition grantable (s : state) (n : Z) : Prop :=
  match supply s with
  | a :: _ =>
      let req := extend_request (pagesz s) (initial_mapped s) n in
      0 < a /\ a mod 16 = 0 /\ a + req < W64 /\ fresh s a req /\
      req mod 16 = 0 /\ 64 <= req /\ n + 32 <= req
  | [] => False
  end.

(** Rounding [x] up to a multiple of [p], as plain arithmetic. *)
Definition round_up (p x : Z) : Z := (x + p - 1) / p * p.

(** A computation that neither calls the provider nor touches the growth
    tracker. *)
Definition quiet {A} (c : M A) : Prop :=
  forall s a s', c s = Ok a s' ->
    calls s' = calls s /\ initial_mapped s' = initial_mapped s.

(** A computation that leaves the provider, the tracker and the mapping
    alone, whatever it does to memory and the list head. *)
Definition steady {A} (c : M A) : Prop :=
  forall s a s', c s = Ok a s' -> frame (fun _ => True) s s'.

Definition base0 : Z := 1048576.

(** A heap whose first chunk has just been mapped: 8192 bytes at [base0]
    holding one free block. *)
Definition heap1 : state := state_of (extend 32 (boot [base0])) (boot []).

(** [heap1] after [mm_init]: the chunk stays mapped and the free list is
    empty. *)
Definition heap0 : state := state_of (mm_init heap1) heap1.

(** [heap1] after 100 bytes were allocated and the first two stores of
    [mm_free] retagged that block free: the state [coalesce] starts from. *)
Definition heap2 : state :=
  state_of ((do a <- mm_malloc 2 100;
             PUT (HDRP a) (PACK 128 0) ;;
             do f <- FTRP a; PUT f (PACK 128 0)) heap1) heap1.

(** [heap1] after 100 bytes were allocated: a live block of 128 bytes ahead
    of what is left of the free block. *)
Definition heap3 : state := state_of (mm_malloc 2 100 heap1) heap1.

(** A first allocation of 100000 bytes on a fresh heap: one chunk of 26
    pages, a live block of 100016 bytes and the free remainder. *)
Definition heap4 : state := state_of (mm_malloc 2 100000 (boot [base0])) (boot []).

(** [heap3] after 50 more bytes were allocated: two live blocks ahead of
    the free remainder. *)
Definition heap5 : state := state_of (mm_malloc 2 50 heap3) heap3.


(** [heap5] after its first block was released: a free block of 128 bytes
    ahead of the large one on the free list. *)
Definition heap7 : state := state_of (mm_free (base0 + 32) heap5) heap5.

(** [init], a zero-byte allocation, a one-byte allocation, and the release
    of the first. *)
Definition zero_then_one : M (Z * Z) :=
  mm_init ;;
  do a <- mm_malloc 4 0;
  do b <- mm_malloc 4 1;
  mm_free a ;;
  ret (a, b).

(** [init], two allocations filling most of one chunk, the release of the
    first, and a zero-byte allocation carved from its start. *)
Definition zero_at_chunk_start : M (Z * Z * Z) :=
  mm_init ;;
  do y <- mm_malloc 4 100000;
  do z <- mm_malloc 4 6000;
  mm_free y ;;
  do a <- mm_malloc 4 0;
  ret (y, z, a).

(** [init] and three allocations, of 100000, 100000 and 300000 bytes. *)
Definition three_allocations : M (Z * Z * Z) :=
  mm_init ;;
  do a <- mm_malloc 4 100000;
  do b <- mm_malloc 4 100000;
  do c <- mm_malloc 4 300000;
  ret (a, b, c).

(** A provider that hands out three regions next to one another: the
    first at [base0], the second right above it, the third right below. *)
Definition adjacent_supply : list Z :=
  [base0; base0 + 106496; base0 - 212992].

(** The growth policy in the words of the specification: the candidate is
    [max(2 * tracker, needed) + overhead] rounded up to a page; at or below
    60 pages it is used; otherwise the needed size alone (with overhead,
    page-rounded) is used when it exceeds the tracker, else the tracker. *)
Definition spec_chunk_size (p tracker needed : Z) : Z :=
  let candidate := round_up p (Z.max (2 * tracker) needed + PAGE_OVERHEAD) in
  if candidate <=? 60 * p then candidate
  else
    let alone := round_up p (needed + PAGE_OVERHEAD) in
    if tracker <? alone then alone else tracker.

(** * Verification *)

Ltac Zify.zify_post_hook ::= Z.div_mod_to_equations.

(** ** Word arithmetic *)

Lemma wrap_small z : 0 <= z < W64 -> wrap z = z.
Proof. unfold wrap. lia. Qed.

Lemma wrap_range z : 0 <= wrap z < W64.
Proof. unfold wrap. lia. Qed.

Lemma wrap_land z : wrap z = Z.land z (Z.ones 64).
Proof. unfold wrap. rewrite Z.land_ones by lia. reflexivity. Qed.

(** Masking with the complement of [2^k - 1] clears the low [k] bits. *)
Lemma land_mask k y :
  0 <= k <= 64 -> 0 <= y < W64 ->
  Z.land y (wrap (Z.lnot (2 ^ k - 1))) = y - y mod 2 ^ k.
Proof.
  intros Hk Hy.
  replace (2 ^ k - 1) with (Z.ones k) by (rewrite Z.ones_equiv; lia).
  rewrite (wrap_land (Z.lnot _)), (Z.land_comm (Z.lnot _)), Z.land_assoc.
  rewrite <- (wrap_land y), (wrap_small y) by lia.
  rewrite <- Z.ldiff_land, Z.ldiff_ones_r by lia.
  rewrite Z.shiftr_div_pow2, Z.shiftl_mul_pow2 by lia.
  pose proof (Z.pow_pos_nonneg 2 k).
  rewrite (Z.mod_eq y (2 ^ k)) by lia. ring.
Qed.

Lemma tag_size_eq w : 0 <= w < W64 -> tag_size w = w - w mod 16.
Proof. intros Hw. unfold tag_size, mask_not. apply (land_mask 4); lia. Qed.

Lemma tag_alloc_eq w : tag_alloc w = w mod 2.
Proof. unfold tag_alloc. apply (Z.land_ones w 1). lia. Qed.

Lemma PACK_free sz : PACK sz 0 = sz.
Proof. apply Z.lor_0_r. Qed.

Lemma PACK_used sz : sz mod 2 = 0 -> PACK sz 1 = sz + 1.
Proof.
  intros Hs. unfold PACK. symmetry. apply Z.add_nocarry_lor.
  change (tag_alloc sz = 0). rewrite tag_alloc_eq. exact Hs.
Qed.

Lemma PACK_eq sz a : sz mod 16 = 0 -> a = 0 \/ a = 1 -> PACK sz a = sz + a.
Proof.
  intros Hs [-> | ->]; [rewrite PACK_free | rewrite PACK_used]; lia.
Qed.

Lemma tag_size_PACK sz a :
  0 <= sz < W64 -> sz mod 16 = 0 -> a = 0 \/ a = 1 -> tag_size (PACK sz a) = sz.
Proof.
  intros Hr Hs Ha. rewrite PACK_eq, tag_size_eq by lia. lia.
Qed.

Lemma tag_alloc_PACK sz a :
  sz mod 16 = 0 -> a = 0 \/ a = 1 -> tag_alloc (PACK sz a) = a.
Proof.
  intros Hs Ha. rewrite PACK_eq, tag_alloc_eq by lia. lia.
Qed.

Lemma tag_size_range w : 0 <= tag_size w < W64 /\ tag_size w mod 16 = 0.
Proof.
  unfold tag_size, mask_not. set (mk := wrap (Z.lnot 15)).
  assert (H64 : Z.land (Z.land w mk) (Z.ones 64) = Z.land w mk).
  { rewrite <- Z.land_assoc. reflexivity. }
  assert (H16 : Z.land (Z.land w mk) (Z.ones 4) = 0).
  { rewrite <- Z.land_assoc. change (Z.land mk (Z.ones 4)) with 0.
    apply Z.land_0_r. }
  rewrite Z.land_ones in H64, H16 by lia.
  change (2 ^ 64) with W64 in H64. change (2 ^ 4) with 16 in H16. lia.
Qed.

Lemma ALIGN_eq x :
  ALIGN x = wrap (x + 15) - wrap (x + 15) mod 16.
Proof.
  unfold ALIGN, ALIGNMENT, mask_not. simpl (16 - 1).
  apply (land_mask 4); [lia | apply wrap_range].
Qed.

Lemma page_align_eq k x :
  0 <= k < 64 ->
  page_align (2 ^ k) x = wrap (x + (2 ^ k - 1)) - wrap (x + (2 ^ k - 1)) mod 2 ^ k.
Proof.
  intros Hk. unfold page_align.
  assert (0 < 2 ^ k < W64).
  { split; [apply Z.pow_pos_nonneg; lia |].
    change W64 with (2 ^ 64). apply Z.pow_lt_mono_r; lia. }
  rewrite (wrap_small (2 ^ k - 1)) by lia.
  apply land_mask; [lia | apply wrap_range].
Qed.

(** ** Running the primitives *)

Lemma covered_valid s lo hi p :
  covered s lo hi -> lo <= p -> p + 8 <= hi -> p mod 8 = 0 -> valid s p = true.
Proof.
  intros Hc Hlo Hhi Hal. unfold valid.
  apply andb_true_iff. split; [lia |].
  apply existsb_exists. apply Exists_exists in Hc as (r & Hin & H1 & H2).
  exists r. split; [by apply list_elem_of_In |].
  unfold in_region. apply andb_true_iff. lia.
Qed.

Lemma covered_mono s lo hi lo' hi' :
  covered s lo hi -> lo <= lo' -> hi' <= hi -> covered s lo' hi'.
Proof.
  unfold covered. intros Hc H1 H2. eapply Exists_impl; [exact Hc |].
  simpl. intros r ?. lia.
Qed.

Lemma run_GET {B} p (k : Z -> M B) s :
  valid s p = true -> bind (GET p) k s = k (mem s !!! p) s.
Proof. intros Hv. unfold bind, GET. rewrite Hv. reflexivity. Qed.

Lemma run_PUT {B} p v (k : unit -> M B) s :
  valid s p = true ->
  bind (PUT p v) k s = k tt (set_mem s (<[p := v]> (mem s))).
Proof. intros Hv. unfold bind, PUT. rewrite Hv. reflexivity. Qed.

Lemma end_PUT p v s :
  valid s p = true -> PUT p v s = Ok tt (set_mem s (<[p := v]> (mem s))).
Proof. intros Hv. unfold PUT. rewrite Hv. reflexivity. Qed.

Lemma run_GET_SIZE {B} p (k : Z -> M B) s :
  valid s p = true -> bind (GET_SIZE p) k s = k (tag_size (mem s !!! p)) s.
Proof. intros Hv. unfold GET_SIZE, bind, GET, ret. rewrite Hv. reflexivity. Qed.

Lemma run_GET_ALLOC {B} p (k : Z -> M B) s :
  valid s p = true -> bind (GET_ALLOC p) k s = k (tag_alloc (mem s !!! p)) s.
Proof. intros Hv. unfold GET_ALLOC, bind, GET, ret. rewrite Hv. reflexivity. Qed.

Lemma frame_refl P s : frame P s s.
Proof. by repeat split. Qed.

Lemma frame_trans (P Q R : Z -> Prop) s1 s2 s3 :
  frame P s1 s2 -> frame Q s2 s3 ->
  (forall a, P a -> R a) -> (forall a, Q a -> R a) ->
  frame R s1 s3.
Proof.
  intros (?&?&?&?&?&Hm1) (?&?&?&?&?&Hm2) HP HQ.
  repeat split; try congruence.
  intros a Ha. rewrite Hm2, Hm1; naive_solver.
Qed.

Lemma frame_covered P s s' lo hi :
  frame P s s' -> covered s lo hi -> covered s' lo hi.
Proof. intros (Hm&_) Hc. unfold covered. by rewrite Hm. Qed.

(** ** The free list as a doubly-linked list *)

Lemma last0_snoc pv l x : last0 pv (l ++ [x]) = x.
Proof. unfold last0. by rewrite last_snoc. Qed.

Lemma last0_cons pv x l : last0 pv (x :: l) = last0 x l.
Proof.
  unfold last0. destruct l as [| y l]; [done |].
  rewrite last_cons. by destruct (last (y :: l)) eqn:E.
Qed.

Lemma dlseg_app m pv h l1 l2 nxt :
  dlseg m pv h (l1 ++ l2) nxt <->
  exists mid, dlseg m pv h l1 mid /\ dlseg m (last0 pv l1) mid l2 nxt.
Proof.
  revert pv h. induction l1 as [| x l1 IH]; intros pv h; simpl.
  - split; [intros H; exists h; by split | intros (mid & -> & H); exact H].
  - rewrite last0_cons. split.
    + intros (-> & Hp & H). apply IH in H as (mid & H1 & H2).
      exists mid. by repeat split.
    + intros (mid & (-> & Hp & H1) & H2). repeat split; [done |].
      apply IH. by exists mid.
Qed.

Lemma dlseg_frame m m' pv h l nxt :
  (forall a, touches l a -> m' !!! a = m !!! a) ->
  dlseg m pv h l nxt -> dlseg m' pv h l nxt.
Proof.
  revert pv h. induction l as [| x l IH]; intros pv h Hf; simpl; [done |].
  intros (-> & Hp & H). split; [done |].
  rewrite !Hf by (apply Exists_cons; lia). split; [done |].
  apply IH; [| done]. intros a Ha. apply Hf. by apply Exists_cons_tl.
Qed.

Lemma touches_spec l a :
  touches l a <-> exists n, n ∈ l /\ (a = n \/ a = n + 8).
Proof. unfold touches. by rewrite Exists_exists. Qed.

Lemma touches_app l1 l2 a : touches (l1 ++ l2) a <-> touches l1 a \/ touches l2 a.
Proof. unfold touches. apply Exists_app. Qed.

(** Link words of distinct aligned nodes never coincide. *)
Lemma touches_other s l x a :
  Forall (node_ok s) l -> x ∉ l -> x mod 16 = 0 ->
  a = x \/ a = x + 8 -> ~ touches l a.
Proof.
  intros Hok Hx Hal Ha Ht. apply touches_spec in Ht as (n & Hn & Hn').
  assert (n mod 16 = 0).
  { rewrite Forall_forall in Hok. by destruct (Hok n Hn) as (_&_&?&_). }
  assert (n <> x) by (intros ->; done). lia.
Qed.

Lemma dlist_links_ok s l : dlist s l -> links_ok s l.
Proof.
  intros (Hd & Hok & Hnd). split.
  { intros Hh. destruct l as [| x l]; simpl in Hd; [done |].
    destruct Hd as (-> & Hp & _). exact Hp. }
  assert (Hgen : forall pv h, dlseg (mem s) pv h l 0 -> (pv <> 0 -> mem s !!! (pv + 8) = h) ->
    Forall (fun n =>
            (mem s !!! (n + 8) <> 0 -> mem s !!! (mem s !!! (n + 8)) = n) /\
            (mem s !!! n <> 0 -> mem s !!! (mem s !!! n + 8) = n)) l).
  { clear Hd Hnd. induction l as [| x l IH]; intros pv h Hd Hpv; [constructor |].
    simpl in Hd. destruct Hd as (-> & Hp & Hd).
    apply Forall_cons in Hok as (Hx & Hok).
    constructor.
    - split.
      + intros Hn. destruct l as [| y l]; simpl in Hd; [done |].
        destruct Hd as (Hy & Hq & _). rewrite Hy. exact Hq.
      + rewrite Hp. exact Hpv.
    - apply (IH Hok x (mem s !!! (x + 8))); [exact Hd | done]. }
  apply (Hgen 0 (list_head s)); [exact Hd | done].
Qed.

Lemma run_get_list_head {B} (k : Z -> M B) s :
  bind get_list_head k s = k (list_head s) s.
Proof. reflexivity. Qed.

Lemma node_ok_valid s n :
  node_ok s n -> valid s n = true /\ valid s (n + 8) = true.
Proof.
  intros (H0 & H1 & H2 & Hc).
  split; eapply covered_valid; eauto; lia.
Qed.

Lemma node_ok_frame P s s' n : frame P s s' -> node_ok s n -> node_ok s' n.
Proof.
  intros Hf (?&?&?&?). repeat split; try done. by eapply frame_covered.
Qed.

Lemma node_ok_same s s' n : mapped s' = mapped s -> node_ok s n -> node_ok s' n.
Proof.
  intros Hm (?&?&?&Hc). repeat split; try done. unfold covered. by rewrite Hm.
Qed.

Ltac mem_simpl :=
  repeat first
    [ rewrite lookup_total_insert_eq
    | rewrite lookup_total_insert_ne by lia ].

(** *** Insertion at the head *)

Lemma add_node_links s l bp :
  dlist s l -> node_ok s bp -> bp ∉ l ->
  exists s',
    add_node bp s = Ok tt s' /\ dlist s' (bp :: l) /\ list_head s' = bp /\
    frame (fun a => a = bp \/ a = bp + 8 \/ (list_head s <> 0 /\ a = list_head s)) s s'.
Proof.
  intros (Hd & Hok & Hnd) Hbp Hfresh.
  pose proof (node_ok_valid _ _ Hbp) as [Hv0 Hv8].
  destruct Hbp as (Hpos & Hmax & Hal & Hcov).
  unfold add_node, next_field, prev_field.
  rewrite run_get_list_head, wrap_small by lia.
  rewrite run_PUT by exact Hv8. rewrite run_get_list_head. simpl list_head.
  assert (Hrest : forall m' : gmap Z Z,
            (forall a, a <> bp -> a <> bp + 8 -> a <> list_head s -> m' !!! a = mem s !!! a) ->
            forall y, dlseg (mem s) y (mem s !!! (y + 8)) (tail l) 0 ->
                      head l = Some y ->
                      dlseg m' y (mem s !!! (y + 8)) (tail l) 0).
  { intros m' Hm' y Hy Hhd. eapply dlseg_frame; [| exact Hy].
    intros a Ha. apply Hm'.
    - intros ->. destruct l as [| x l']; [done |]. simpl in *.
      eapply (touches_other s l' bp); [| | exact Hal | | exact Ha].
      + by apply Forall_cons in Hok as [_ ?].
      + rewrite not_elem_of_cons in Hfresh. tauto.
      + lia.
    - intros ->. destruct l as [| x l']; [done |]. simpl in *.
      eapply (touches_other s l' bp); [| | exact Hal | | exact Ha].
      + by apply Forall_cons in Hok as [_ ?].
      + rewrite not_elem_of_cons in Hfresh. tauto.
      + lia.
    - intros ->. destruct l as [| x l']; [done |]. simpl in *.
      destruct Hd as (Hx & _). rewrite Hx in Ha.
      apply Forall_cons in Hok as [Hx' Hok'].
      eapply (touches_other s l' x); [exact Hok' | | | | exact Ha].
      + apply NoDup_cons in Hnd. tauto.
      + by destruct Hx' as (_&_&?&_).
      + lia. }
  destruct (Z.eqb_spec (list_head s) 0) as [Hh | Hh].
  - unfold bind at 1, ret. rewrite run_PUT by exact Hv0.
    eexists. split; [reflexivity |]. simpl.
    assert (l = []) as ->.
    { destruct l as [| x l']; [done |]. simpl in Hd. destruct Hd as (Hx & _).
      apply Forall_cons in Hok as [(?&_) _]. lia. }
    split; [| split; [done |]].
    + split; [| split].
      * simpl. mem_simpl. repeat split. exact Hh.
      * repeat constructor; try done.
      * apply NoDup_singleton.
    + repeat split; try done. simpl. intros a Ha. by mem_simpl.
  - destruct l as [| x l']; [simpl in Hd; done |].
    simpl in Hd. destruct Hd as (Hx & Hp & Hd).
    apply Forall_cons in Hok as [Hx' Hok'].
    pose proof (node_ok_valid _ _ Hx') as [Hvx _].
    assert (x <> bp) by (intros ->; apply Hfresh; left).
    assert (x mod 16 = 0) by (by destruct Hx' as (_&_&?&_)).
    rewrite Hx in *.
    rewrite run_PUT by exact Hvx.
    rewrite run_PUT by exact Hv0.
    eexists. split; [reflexivity |]. simpl.
    split; [| split; [done |]].
    + split; [| split].
      * simpl. mem_simpl. do 4 (split; [done |]).
        apply (Hrest _ (fun a H1 H2 H3 =>
                 eq_trans (lookup_total_insert_ne _ _ _ _ (not_eq_sym H1))
                  (eq_trans (lookup_total_insert_ne _ _ _ _ (not_eq_sym H3))
                            (lookup_total_insert_ne _ _ _ _ (not_eq_sym H2)))) x);
          [exact Hd | done].
      * constructor; [by repeat split |].
        constructor; [exact Hx' | exact Hok'].
      * apply NoDup_cons. split; [exact Hfresh | exact Hnd].
    + repeat split; try done. simpl. intros a Ha. by mem_simpl.
Qed.

(** *** Removal *)

Lemma run_put_list_head {B} h (k : unit -> M B) s :
  bind (put_list_head h) k s = k tt (set_list_head s h).
Proof. reflexivity. Qed.

Lemma delete_node_links s l1 n l2 :
  dlist s (l1 ++ n :: l2) ->
  exists s',
    delete_node n s = Ok tt s' /\ dlist s' (l1 ++ l2) /\
    frame (touches (l1 ++ l2)) s s'.
Proof.
  intros (Hd & Hok & Hnd).
  apply dlseg_app in Hd as (mid & Hd1 & Hd2). simpl in Hd2.
  destruct Hd2 as (-> & Hpn & Hd2).
  apply Forall_app in Hok as [Hok1 Hok2].
  apply Forall_cons in Hok2 as [Hn Hok2].
  apply NoDup_app in Hnd as (Hnd1 & Hn12 & Hnd2).
  apply NoDup_cons in Hnd2 as [Hn2 Hnd2].
  assert (Hn1 : n ∉ l1) by (intros Hin; apply (Hn12 n Hin); left).
  pose proof (node_ok_valid _ _ Hn) as [Hv0 Hv8].
  assert (Haln : n mod 16 = 0) by (by destruct Hn as (_&_&?&_)).
  assert (Hmaxn : 0 < n /\ n + 16 <= W64) by (destruct Hn as (?&?&_); lia).
  assert (Hal : forall y, y ∈ l1 ++ l2 -> y mod 16 = 0 /\ y <> n /\ 0 < y /\ y + 16 <= W64).
  { intros y Hy. apply elem_of_app in Hy as [Hy | Hy].
    - rewrite Forall_forall in Hok1. destruct (Hok1 y Hy) as (?&?&?&_).
      repeat split; try done. by intros ->.
    - rewrite Forall_forall in Hok2. destruct (Hok2 y Hy) as (?&?&?&_).
      repeat split; try done. by intros ->. }
  assert (Hnd' : NoDup (l1 ++ l2)).
  { apply NoDup_app. repeat split; try done.
    intros y Hy1 Hy2. apply (Hn12 y Hy1). by right. }
  assert (Hok' : forall s', mapped s' = mapped s -> Forall (node_ok s') (l1 ++ l2)).
  { intros s' Hm. apply Forall_app. split;
      (eapply Forall_impl; [eassumption |]); intros y Hy; by eapply node_ok_same. }
  unfold delete_node, prev_field, next_field.
  rewrite !(wrap_small (n + 8)) by lia.
  rewrite run_GET by exact Hv0. rewrite Hpn.
  destruct l1 as [| p l1' _] using rev_ind.
  - (* the node is the head *)
    simpl in Hd1. simpl. unfold last0. simpl.
    rewrite run_GET by exact Hv8.
    destruct l2 as [| y l2'].
    + simpl in Hd2. rewrite Hd2. simpl.
      eexists. split; [reflexivity |]. split; [| by repeat split].
      split; [done |]. split; [constructor | constructor].
    + simpl in Hd2. destruct Hd2 as (Hy & Hpy & Hd2).
      destruct (Hal y) as (Haly & Hyn & Hy0 & Hymax); [left |].
      rewrite Hy. destruct (Z.eqb_spec y 0) as [? | _]; [lia |].
      rewrite run_GET by exact Hv8. rewrite run_put_list_head.
      rewrite run_GET by exact Hv8. simpl. rewrite Hy.
      apply Forall_cons in Hok2 as [Hoky Hok2].
      pose proof (node_ok_valid _ _ Hoky) as [Hvy _].
      rewrite end_PUT by exact Hvy.
      eexists. split; [reflexivity |]. simpl. split.
      * split; [| split; [by apply (Hok' _) | done]].
        simpl. mem_simpl. do 2 (split; [done |]).
        eapply dlseg_frame; [| exact Hd2].
        intros a Ha. apply lookup_total_insert_ne. intros <-.
        apply NoDup_cons in Hnd2 as [Hyl _].
        exact (touches_other s l2' y _ Hok2 Hyl Haly (or_introl eq_refl) Ha).
      * repeat split; try done. simpl. intros a Ha.
        apply lookup_total_insert_ne. intros <-. apply Ha.
        apply Exists_cons_hd. by left.
  - (* the node has a predecessor [p] *)
    rewrite last0_snoc in *.
    apply dlseg_app in Hd1 as (mid & Hd1 & Hd1'). simpl in Hd1'.
    destruct Hd1' as (-> & Hpp & Hpn').
    destruct (Hal p) as (Halp & Hpne & Hp0 & Hpmax).
    { apply elem_of_app. left. apply elem_of_app. right. left. }
    apply Forall_app in Hok1 as [Hok1 Hokp].
    apply Forall_cons in Hokp as [Hokp _].
    pose proof (node_ok_valid _ _ Hokp) as [Hvp0 Hvp8].
    apply NoDup_app in Hnd1 as (Hnd1 & Hp1 & _).
    assert (Hpl1 : p ∉ l1') by (intros Hin; apply (Hp1 p Hin); left).
    destruct (Z.eqb_spec p 0) as [? | _]; [lia |].
    rewrite run_GET by exact Hv8.
    assert (Hfr1 : forall v,
               dlseg (<[p + 8 := v]> (mem s)) 0 (list_head s) l1' p).
    { intros v. eapply dlseg_frame; [| exact Hd1].
      intros a Ha. apply lookup_total_insert_ne. intros <-.
      exact (touches_other s l1' p _ Hok1 Hpl1 Halp (or_intror eq_refl) Ha). }
    destruct l2 as [| y l2'].
    + simpl in Hd2. rewrite Hd2. simpl.
      rewrite run_GET by exact Hv0. rewrite Hpn.
      rewrite wrap_small by lia. rewrite end_PUT by exact Hvp8.
      eexists. split; [reflexivity |]. rewrite app_nil_r. split.
      * split; [| split].
        { simpl. apply dlseg_app. exists p. split; [by apply Hfr1 |].
          simpl. mem_simpl. by rewrite Hpp. }
        { pose proof (Hok' (set_mem s (<[p + 8 := 0]> (mem s))) eq_refl) as Hk.
          by rewrite app_nil_r in Hk. }
        { by rewrite app_nil_r in Hnd'. }
      * repeat split; try done. simpl. intros a Ha.
        apply lookup_total_insert_ne. intros <-. apply Ha.
        apply touches_app. right. apply Exists_cons_hd. by right.
    + simpl in Hd2. destruct Hd2 as (Hy & Hpy & Hd2).
      destruct (Hal y) as (Haly & Hyn & Hy0 & Hymax).
      { apply elem_of_app. right. left. }
      rewrite Hy. destruct (Z.eqb_spec y 0) as [? | _]; [lia |].
      rewrite run_GET by exact Hv0. rewrite run_GET by exact Hv8.
      rewrite Hpn, Hy, wrap_small by lia.
      rewrite run_PUT by exact Hvp8.
      apply Forall_cons in Hok2 as [Hoky Hok2].
      pose proof (node_ok_valid _ _ Hoky) as [Hvy _].
      assert (Hyp : y <> p).
      { intros ->. apply (Hn12 p); [apply elem_of_app; right; left |].
        right. left. }
      rewrite run_GET by exact Hv8. rewrite run_GET by exact Hv0.
      simpl. mem_simpl. rewrite Hpn, Hy.
      rewrite end_PUT by exact Hvy.
      eexists. split; [reflexivity |]. simpl. split.
      * split; [| split; [by apply (Hok' _) | done]].
        simpl. rewrite <- app_assoc. apply dlseg_app. exists p. split.
        { eapply dlseg_frame; [| apply (Hfr1 y)].
          intros a Ha. apply lookup_total_insert_ne. intros <-.
          refine (touches_other s l1' y _ Hok1 _ Haly (or_introl eq_refl) Ha).
          intros Hin. apply (Hn12 y); [apply elem_of_app; by left |].
          right. left. }
        simpl. mem_simpl. rewrite Hpp.
        do 4 (split; [done |]).
        eapply dlseg_frame; [| exact Hd2].
        apply NoDup_cons in Hnd2 as [Hyl _].
        intros a Ha. rewrite !lookup_total_insert_ne; [done | |].
        { intros <-.
          refine (touches_other s l2' p _ Hok2 _ Halp (or_intror eq_refl) Ha).
          intros Hin. apply (Hn12 p); [apply elem_of_app; right; left |].
          right. by right. }
        { intros <-.
          refine (touches_other s l2' y _ Hok2 Hyl Haly (or_introl eq_refl) Ha). }
      * repeat split; try done. simpl. intros a Ha.
        rewrite !lookup_total_insert_ne; [done | |].
        { intros <-. apply Ha. apply touches_app. left.
          apply touches_app. right. apply Exists_cons_hd. by right. }
        { intros <-. apply Ha. apply touches_app. right.
          apply Exists_cons_hd. by left. }
Qed.

(** ** Blocks and the free list as a set of free blocks *)

Lemma apart_sym b1 b2 : apart b1 b2 -> apart b2 b1.
Proof. unfold apart. lia. Qed.

Lemma separated_app L1 L2 :
  separated (L1 ++ L2) <->
  separated L1 /\ separated L2 /\ Forall (fun b => Forall (apart b) L2) L1.
Proof.
  induction L1 as [| b L1 IH]; simpl.
  - split; [intros ?; by repeat split | tauto].
  - rewrite Forall_app, IH, Forall_cons. tauto.
Qed.

Lemma separated_remove L1 b L2 :
  separated (L1 ++ b :: L2) ->
  separated (L1 ++ L2) /\ Forall (apart b) (L1 ++ L2).
Proof.
  rewrite !separated_app. simpl. intros (H1 & (Hb & H2) & H12).
  split; [repeat split; try done |].
  - eapply Forall_impl; [exact H12 |]. simpl. intros x Hx.
    by apply Forall_cons in Hx as [_ ?].
  - apply Forall_app. split; [| done].
    eapply Forall_impl; [exact H12 |]. simpl. intros x Hx.
    apply Forall_cons in Hx as [? _]. by apply apart_sym.
Qed.

Lemma separated_insert L1 b L2 :
  separated (L1 ++ L2) -> Forall (apart b) (L1 ++ L2) ->
  separated (L1 ++ b :: L2).
Proof.
  rewrite !separated_app, Forall_app. simpl. intros (H1 & H2 & H12) (Hb1 & Hb2).
  repeat split; try done.
  rewrite Forall_forall in H12, Hb1. apply Forall_forall. intros x Hx.
  constructor; [apply apart_sym; by apply Hb1 | by apply H12].
Qed.

Lemma separated_elem L b b' :
  separated L -> b ∈ L -> b' ∈ L -> b = b' \/ apart b b'.
Proof.
  induction L as [| x L IH]; simpl; [by intros _ ?%elem_of_nil |].
  intros (Hx & Hs) Hb Hb'. rewrite Forall_forall in Hx.
  apply elem_of_cons in Hb as [-> | Hb]; apply elem_of_cons in Hb' as [-> | Hb'].
  - by left.
  - right. by apply Hx.
  - right. apply apart_sym. by apply Hx.
  - by apply IH.
Qed.

Lemma block_ok_node s b : block_ok s b -> node_ok s b.1.
Proof.
  intros (?&?&?&?&?&Hc&_). repeat split; try lia.
  eapply covered_mono; [exact Hc | lia | lia].
Qed.

Lemma separated_NoDup s L :
  Forall (block_ok s) L -> separated L -> NoDup (L.*1).
Proof.
  induction L as [| b L IH]; simpl; [intros; constructor |].
  intros Hok (Hb & Hs). apply Forall_cons in Hok as [Hbk Hok].
  apply NoDup_cons. split; [| by apply IH].
  intros Hin. apply list_elem_of_fmap in Hin as (b' & Heq & Hin).
  rewrite Forall_forall in Hb, Hok.
  specialize (Hb b' Hin). specialize (Hok b' Hin).
  destruct Hbk as (?&?&?&?&?&_), Hok as (?&?&?&?&?&_).
  unfold apart in Hb. lia.
Qed.

Lemma free_list_dlist s L : free_list s L -> dlist s (L.*1).
Proof.
  intros (Hd & Hok & Hs). split; [done |]. split.
  - apply Forall_fmap. eapply Forall_impl; [exact Hok |].
    intros b Hb. by apply block_ok_node.
  - by eapply separated_NoDup.
Qed.

Lemma touches_links L a : touches (L.*1) a -> links L a.
Proof.
  unfold touches, links. rewrite !Exists_exists.
  intros (n & Hn & Ha). apply list_elem_of_fmap in Hn as (b & -> & Hb).
  exists b. split; [done | lia].
Qed.

Lemma links_app L1 L2 a : links (L1 ++ L2) a <-> links L1 a \/ links L2 a.
Proof. unfold links. apply Exists_app. Qed.

(** The link words of free blocks lie inside those blocks. *)
Lemma links_apart s L b a :
  Forall (block_ok s) L -> Forall (apart b) L ->
  b.1 - 8 <= a < b.1 + b.2 - 8 -> ~ links L a.
Proof.
  intros Hok Hap Ha Hl. apply Exists_exists in Hl as (b' & Hin & Hb').
  rewrite Forall_forall in Hok, Hap.
  specialize (Hok b' Hin). specialize (Hap b' Hin).
  destruct Hok as (?&?&?&?&?&_). unfold apart in Hap. lia.
Qed.

(** ... and never on a boundary tag of a free block. *)
Lemma links_tags s L b :
  Forall (block_ok s) L -> separated L -> b ∈ L ->
  ~ links L (b.1 - 8) /\ ~ links L (b.1 + b.2 - 16).
Proof.
  intros Hok Hs Hb.
  assert (forall a, a = b.1 - 8 \/ a = b.1 + b.2 - 16 -> ~ links L a) as Hgen.
  { intros a Ha Hl. apply Exists_exists in Hl as (b' & Hin & Hb').
    rewrite Forall_forall in Hok.
    pose proof (Hok b Hb) as (?&?&?&?&?&_).
    pose proof (Hok b' Hin) as (?&?&?&?&?&_).
    destruct (separated_elem L b b' Hs Hb Hin) as [<- | Hap]; [lia |].
    unfold apart in Hap. lia. }
  split; apply Hgen; lia.
Qed.

Lemma block_ok_frame P s s' b :
  frame P s s' -> ~ P (b.1 - 8) -> ~ P (b.1 + b.2 - 16) ->
  block_ok s b -> block_ok s' b.
Proof.
  intros Hf H1 H2 (?&?&?&?&?&Hc&Ht1&Ht2).
  repeat split; try done; [by eapply frame_covered | |];
    destruct Hf as (_&_&_&_&_&Hm); rewrite Hm; done.
Qed.

Lemma blocks_frame P s s' L :
  Forall (block_ok s) L -> separated L -> frame P s s' ->
  (forall a, P a -> links L a) -> Forall (block_ok s') L.
Proof.
  intros Hok Hs Hf HP. apply Forall_forall. intros b Hb.
  destruct (links_tags s L b Hok Hs Hb) as [H1 H2].
  eapply block_ok_frame; [exact Hf | | |].
  - intros HPa. apply H1. by apply HP.
  - intros HPa. apply H2. by apply HP.
  - rewrite Forall_forall in Hok. by apply Hok.
Qed.

Lemma delete_node_spec s L1 b L2 :
  free_list s (L1 ++ b :: L2) ->
  exists s',
    delete_node b.1 s = Ok tt s' /\ free_list s' (L1 ++ L2) /\
    frame (links (L1 ++ L2)) s s'.
Proof.
  intros Hfl. pose proof (free_list_dlist _ _ Hfl) as Hdl.
  destruct Hfl as (_ & Hok & Hs).
  rewrite fmap_app, fmap_cons in Hdl.
  destruct (delete_node_links _ _ _ _ Hdl) as (s' & Hrun & Hdl' & Hf).
  exists s'. split; [done |].
  apply separated_remove in Hs as [Hs Hap].
  assert (Hok' : Forall (block_ok s) (L1 ++ L2)).
  { apply Forall_app in Hok as [? Hok]. apply Forall_cons in Hok as [_ ?].
    by apply Forall_app. }
  assert (Hf' : frame (links (L1 ++ L2)) s s').
  { eapply frame_trans; [exact Hf | apply frame_refl | |].
    - intros a Ha. apply touches_links. by rewrite fmap_app.
    - done. }
  split; [| done]. split; [| split; [| done]].
  - destruct Hdl' as (Hd & _). by rewrite fmap_app.
  - eapply blocks_frame; eauto.
Qed.

Lemma add_node_spec s L b :
  free_list s L -> block_ok s b -> Forall (apart b) L ->
  exists s',
    add_node b.1 s = Ok tt s' /\ free_list s' (b :: L) /\
    frame (links (b :: L)) s s'.
Proof.
  intros Hfl Hb Hap. pose proof (free_list_dlist _ _ Hfl) as Hdl.
  destruct Hfl as (Hd & Hok & Hs).
  assert (Hfresh : b.1 ∉ L.*1).
  { intros Hin. apply list_elem_of_fmap in Hin as (b' & Heq & Hin).
    rewrite Forall_forall in Hap, Hok.
    specialize (Hap b' Hin). specialize (Hok b' Hin).
    destruct Hb as (?&?&?&?&?&_), Hok as (?&?&?&?&?&_).
    unfold apart in Hap. lia. }
  destruct (add_node_links _ _ _ Hdl (block_ok_node _ _ Hb) Hfresh)
    as (s' & Hrun & Hdl' & Hh & Hf).
  exists s'. split; [done |].
  assert (Hf' : frame (links (b :: L)) s s').
  { eapply frame_trans; [exact Hf | apply frame_refl | | done].
    intros a [-> | [-> | [Hne ->]]].
    - apply Exists_cons_hd. lia.
    - apply Exists_cons_hd. lia.
    - apply Exists_cons_tl. destruct L as [| x L]; simpl in Hd; [done |].
      destruct Hd as (-> & _). apply Exists_cons_hd. lia. }
  split; [| done]. split; [| split].
  - by destruct Hdl' as (? & _).
  - eapply blocks_frame; [| | exact Hf' | done].
    + by constructor.
    + by split.
  - by split.
Qed.

(** ** First fit *)

Ltac st :=
  cbn [mem mapped list_head initial_mapped pagesz supply calls
       set_mem set_list_head set_initial_mapped fst snd].

Ltac unwrap :=
  repeat match goal with
         | |- context [wrap ?z] => rewrite (wrap_small z) by lia
         end.

Ltac valid_tac :=
  match goal with
  | H : covered _ _ _ |- valid _ _ = true =>
      apply (covered_valid _ _ _ _ H); lia
  end.

Lemma first_fit_elem L asize b :
  first_fit L asize = Some b ->
  exists L1 L2, L = L1 ++ b :: L2 /\ asize <= b.2 /\
                Forall (fun b' => b'.2 < asize) L1.
Proof.
  induction L as [| x L IH]; simpl; [done |].
  destruct (Z.leb_spec asize x.2) as [Hle | Hlt].
  - intros [= ->]. exists [], L. by repeat split.
  - intros Hf. destruct (IH Hf) as (L1 & L2 & -> & Hb & Hall).
    exists (x :: L1), L2. repeat split; [done |]. by constructor.
Qed.

Lemma first_fit_none L asize :
  first_fit L asize = None -> Forall (fun b' => b'.2 < asize) L.
Proof.
  induction L as [| x L IH]; simpl; [constructor |].
  destruct (Z.leb_spec asize x.2) as [Hle | Hlt]; [done |].
  intros Hf. constructor; [done | by apply IH].
Qed.

Lemma find_fit_from_spec s L asize : forall fuel pv h,
  dlseg (mem s) pv h (L.*1) 0 -> Forall (block_ok s) L ->
  (length L < fuel)%nat ->
  find_fit_from fuel h asize s =
    Ok (from_option fst 0 (first_fit L asize)) s.
Proof.
  induction L as [| b L IH]; intros fuel pv h Hd Hok Hfuel;
    (destruct fuel as [| fuel]; [simpl in Hfuel; lia |]); simpl in *.
  - subst h. reflexivity.
  - destruct Hd as (-> & Hp & Hd).
    apply Forall_cons in Hok as [Hb Hok].
    destruct Hb as (H0 & Hal & Hsal & Hmin & Hmax & Hc & Ht1 & Ht2).
    destruct (Z.eqb_spec b.1 0) as [? | _]; [lia |].
    unfold HDRP, next_field. unwrap.
    rewrite run_GET_SIZE by valid_tac. rewrite Ht1, PACK_free.
    rewrite tag_size_eq by lia. replace (b.2 - b.2 mod 16) with b.2 by lia.
    destruct (Z.leb_spec asize b.2) as [Hle | Hlt]; [reflexivity |].
    rewrite run_GET by valid_tac.
    apply (IH fuel b.1); [done | done | lia].
Qed.

Lemma find_fit_spec s L asize fuel :
  free_list s L -> (length L < fuel)%nat ->
  find_fit fuel asize s = Ok (from_option fst 0 (first_fit L asize)) s.
Proof.
  intros (Hd & Hok & _) Hfuel. unfold find_fit. rewrite run_get_list_head.
  by eapply find_fit_from_spec.
Qed.

(** ** Splitting a free block *)

Lemma frame_free_list P s s' L :
  free_list s L -> frame P s s' -> list_head s' = list_head s ->
  (forall a, P a -> ~ links L a) ->
  (forall b, b ∈ L -> ~ P (b.1 - 8) /\ ~ P (b.1 + b.2 - 16)) ->
  free_list s' L.
Proof.
  intros (Hd & Hok & Hs) Hf Hh HP Htags.
  pose proof Hf as (_&_&_&_&_&Hm).
  split; [| split; [| done]].
  - rewrite Hh. eapply dlseg_frame; [| exact Hd].
    intros a Ha. apply Hm. intros HPa. apply (HP a HPa).
    by apply touches_links.
  - apply Forall_forall. intros b Hb. destruct (Htags b Hb).
    eapply block_ok_frame; eauto. rewrite Forall_forall in Hok. by apply Hok.
Qed.

Lemma put_frame s p v :
  frame (fun a => a = p) s (set_mem s (<[p := v]> (mem s))).
Proof.
  repeat split; try done. st. intros a Ha. by apply lookup_total_insert_ne.
Qed.

Lemma HDRP_eq bp : 8 <= bp < W64 -> HDRP bp = bp - 8.
Proof. intros. unfold HDRP. by rewrite wrap_small by lia. Qed.

Lemma run_FTRP {B} bp (k : Z -> M B) s :
  8 <= bp < W64 -> valid s (bp - 8) = true ->
  bind (FTRP bp) k s =
    k (wrap (wrap (bp + tag_size (mem s !!! (bp - 8))) - 16)) s.
Proof.
  intros Hr Hv. unfold FTRP, OVERHEAD. rewrite HDRP_eq by done.
  unfold bind at 1. by rewrite run_GET_SIZE.
Qed.

Lemma run_NEXT_BLKP {B} bp (k : Z -> M B) s :
  8 <= bp < W64 -> valid s (bp - 8) = true ->
  bind (NEXT_BLKP bp) k s = k (wrap (bp + tag_size (mem s !!! (bp - 8)))) s.
Proof.
  intros Hr Hv. unfold NEXT_BLKP. rewrite HDRP_eq by done.
  unfold bind at 1. by rewrite run_GET_SIZE.
Qed.

Lemma run_PREV_BLKP {B} bp (k : Z -> M B) s :
  16 <= bp < W64 -> valid s (bp - 16) = true ->
  bind (PREV_BLKP bp) k s = k (wrap (bp - tag_size (mem s !!! (bp - 16)))) s.
Proof.
  intros Hr Hv. unfold PREV_BLKP, OVERHEAD. rewrite (wrap_small (bp - 16)) by lia.
  unfold bind at 1. by rewrite run_GET_SIZE.
Qed.

Lemma tag_size_aligned x : 0 <= x < W64 -> x mod 16 = 0 -> tag_size x = x.
Proof. intros. rewrite tag_size_eq by lia. lia. Qed.

Lemma tag_alloc_aligned x : x mod 16 = 0 -> tag_alloc x = 0.
Proof. intros. rewrite tag_alloc_eq. lia. Qed.

Lemma set_mem_set_mem s m1 m2 : set_mem (set_mem s m1) m2 = set_mem s m2.
Proof. reflexivity. Qed.

Ltac side := first [ lia | valid_tac ].

Ltac tags_simpl :=
  repeat first
    [ rewrite tag_size_PACK by lia
    | rewrite tag_alloc_PACK by lia
    | rewrite PACK_free
    | rewrite tag_size_aligned by lia
    | rewrite tag_alloc_aligned by lia ].

Ltac mem_hyps :=
  repeat match goal with
         | H : mem ?s !!! ?a = _ |- context [mem ?s !!! ?a] => rewrite H
         end.

Ltac norm :=
  repeat (progress (st; mem_simpl; mem_hyps; tags_simpl; unfold HDRP; unwrap;
                    rewrite ?set_mem_set_mem)).

Ltac step :=
  first
    [ rewrite run_FTRP by side
    | rewrite run_NEXT_BLKP by side
    | rewrite run_PREV_BLKP by side
    | rewrite run_GET_SIZE by side
    | rewrite run_GET_ALLOC by side
    | rewrite run_PUT by side
    | rewrite run_GET by side
    | rewrite end_PUT by side ];
  norm.

(** [set_allocated] on a block of the free list that is large enough. *)
Lemma set_allocated_spec s L1 L2 bp bsz n :
  free_list s (L1 ++ (bp, bsz) :: L2) ->
  n mod 16 = 0 -> 16 <= n <= bsz ->
  exists s',
    set_allocated bp n s = Ok tt s' /\
    frame (fun a => bp - 8 <= a < bp + bsz - 8 \/ links (L1 ++ L2) a) s s' /\
    if 32 <? bsz - n
    then tagged s' bp n 1 /\
         free_list s' ((bp + n, bsz - n) :: L1 ++ L2) /\ 32 < bsz - n
    else tagged s' bp bsz 1 /\ free_list s' (L1 ++ L2).
Proof.
  intros Hfl Hn Hrange.
  assert (Hb : block_ok s (bp, bsz)).
  { destruct Hfl as (_ & Hok & _). apply Forall_app in Hok as [_ Hok].
    by apply Forall_cons in Hok as [? _]. }
  destruct Hb as (H0 & Hal & Hsal & Hmin & Hmax & Hc & Ht1 & Ht2).
  simpl in H0, Hal, Hsal, Hmin, Hmax, Hc, Ht1, Ht2.
  destruct (delete_node_spec _ _ _ _ Hfl) as (s1 & Hdel & Hfl1 & Hf1).
  simpl in Hdel.
  assert (Hap : Forall (apart (bp, bsz)) (L1 ++ L2)).
  { destruct Hfl as (_ & _ & Hs). by apply separated_remove in Hs as [_ ?]. }
  assert (Hok1 : Forall (block_ok s1) (L1 ++ L2)) by (by destruct Hfl1 as (_&?&_)).
  assert (Hin : forall a, bp - 8 <= a < bp + bsz - 8 -> ~ links (L1 ++ L2) a).
  { intros a Ha. eapply (links_apart s1 _ (bp, bsz)); eauto. }
  pose proof (frame_covered _ _ _ _ _ Hf1 Hc) as Hc1.
  unfold set_allocated, HDRP. unwrap.
  rewrite run_GET_SIZE by valid_tac. rewrite Ht1, PACK_free.
  rewrite tag_size_eq by lia. replace (bsz - bsz mod 16) with bsz by lia.
  unfold bind at 1. rewrite Hdel. unwrap. unfold PAGE_OVERHEAD.
  destruct (Z.ltb_spec 32 (bsz - n)) as [Hsplit | Hwhole].
  - (* split *)
    step.
    do 8 step.
    match goal with |- context [add_node _ ?S] => set (s5 := S) end.
    assert (Hf5 : frame (fun a => bp - 8 <= a < bp + bsz - 8) s1 s5).
    { repeat split; try done. subst s5. st. intros a Ha. by mem_simpl. }
    assert (Hfl5 : free_list s5 (L1 ++ L2)).
    { eapply frame_free_list; [exact Hfl1 | exact Hf5 | done | exact Hin |].
      intros b Hb. rewrite Forall_forall in Hap, Hok1.
      specialize (Hap b Hb). specialize (Hok1 b Hb).
      destruct Hok1 as (?&?&?&?&?&_). unfold apart in Hap. simpl in Hap. lia. }
    assert (Hb5 : block_ok s5 (bp + n, bsz - n)).
    { repeat split; simpl; try lia.
      - eapply covered_mono; [exact Hc1 | lia | lia].
      - mem_simpl. by rewrite PACK_free.
      - mem_simpl. by rewrite PACK_free. }
    assert (Hap5 : Forall (apart (bp + n, bsz - n)) (L1 ++ L2)).
    { eapply Forall_impl; [exact Hap |]. unfold apart. simpl. intros b. lia. }
    destruct (add_node_spec _ _ _ Hfl5 Hb5 Hap5) as (s6 & Hadd & Hfl6 & Hf6).
    simpl in Hadd. rewrite Hadd. exists s6. split; [done |].
    split.
    { assert (Hf16 : frame (fun a => bp - 8 <= a < bp + bsz - 8 \/
                                      links (L1 ++ L2) a) s1 s6).
      { eapply (frame_trans _ _ _ _ _ _ Hf5 Hf6).
        - intros a Ha. by left.
        - intros a Ha. apply Exists_cons in Ha as [Ha | Ha];
            [left; simpl in Ha; lia | by right]. }
      eapply (frame_trans _ _ _ _ _ _ Hf1 Hf16); [intros a Ha; by right | done]. }
    assert (Hnl : forall a, a = bp - 8 \/ a = bp + n - 16 ->
                     ~ links ((bp + n, bsz - n) :: L1 ++ L2) a).
    { intros a Ha Hl. apply Exists_cons in Hl as [Hl | Hl]; [simpl in Hl; lia |].
      apply (Hin a); [lia | done]. }
    destruct Hf6 as (_&_&_&_&_&Hm6).
    split; [| by split].
    split; rewrite Hm6 by (apply Hnl; lia); subst s5; st; by mem_simpl.
  - (* the whole block *)
    do 3 step.
    eexists. split; [reflexivity |].
    match goal with |- frame _ _ ?S /\ _ => set (s3 := S) end.
    assert (Hf3 : frame (fun a => bp - 8 <= a < bp + bsz - 8) s1 s3).
    { repeat split; try done. subst s3. st. intros a Ha. by mem_simpl. }
    split.
    { eapply (frame_trans _ _ _ _ _ _ Hf1 Hf3); intros a Ha; [by right | by left]. }
    split.
    { split; subst s3; st; by mem_simpl. }
    eapply frame_free_list; [exact Hfl1 | exact Hf3 | done | exact Hin |].
    intros b Hb. rewrite Forall_forall in Hap, Hok1.
    specialize (Hap b Hb). specialize (Hok1 b Hb).
    destruct Hok1 as (?&?&?&?&?&_). unfold apart in Hap. simpl in Hap. lia.
Qed.

(** ** Coalescing *)

Lemma remove_block_other x L :
  x ∉ L.*1 -> remove_block x L = L.
Proof.
  induction L as [| b L IH]; [done |]. rewrite fmap_cons, not_elem_of_cons.
  intros [Hb HL]. unfold remove_block in *. rewrite filter_cons_True by done.
  by rewrite IH.
Qed.

Lemma remove_block_at x v L1 L2 :
  x ∉ L1.*1 -> x ∉ L2.*1 ->
  remove_block x (L1 ++ (x, v) :: L2) = L1 ++ L2.
Proof.
  intros H1 H2. unfold remove_block.
  rewrite filter_app, filter_cons_False by (simpl; tauto).
  fold (remove_block x L1) (remove_block x L2).
  by rewrite !remove_block_other.
Qed.

Lemma resize_block_other x v L :
  x ∉ L.*1 -> resize_block x v L = L.
Proof.
  induction L as [| b L IH]; [done |]. rewrite fmap_cons, not_elem_of_cons.
  intros [Hb HL]. unfold resize_block in *. rewrite fmap_cons, IH by done.
  destruct (Z.eqb_spec b.1 x); [done | reflexivity].
Qed.

Lemma resize_block_at x v v' L1 L2 :
  x ∉ L1.*1 -> x ∉ L2.*1 ->
  resize_block x v' (L1 ++ (x, v) :: L2) = L1 ++ (x, v') :: L2.
Proof.
  intros H1 H2. unfold resize_block. rewrite fmap_app, fmap_cons. simpl.
  fold (resize_block x v' L1) (resize_block x v' L2).
  rewrite !resize_block_other, Z.eqb_refl by done. reflexivity.
Qed.

Lemma free_list_split s L b :
  free_list s L -> b ∈ L ->
  exists L1 L2, L = L1 ++ b :: L2 /\ (b.1 ∉ L1.*1) /\ (b.1 ∉ L2.*1).
Proof.
  intros (_ & Hok & Hs) Hb.
  apply list_elem_of_split in Hb as (L1 & L2 & ->).
  exists L1, L2. split; [done |].
  pose proof (separated_NoDup _ _ Hok Hs) as Hnd.
  rewrite fmap_app, fmap_cons in Hnd.
  apply NoDup_app in Hnd as (_ & H12 & Hnd).
  apply NoDup_cons in Hnd as [H2 _]. split; [| done].
  intros Hin. apply (H12 _ Hin). left.
Qed.

(** Rebuilding the invariant after the size of one listed block changed. *)
Lemma free_list_resized P s s' L1 x v v' L2 :
  free_list s (L1 ++ (x, v) :: L2) -> frame P s s' ->
  list_head s' = list_head s ->
  (forall a, P a -> ~ links (L1 ++ (x, v) :: L2) a) ->
  (forall b, b ∈ L1 ++ L2 -> ~ P (b.1 - 8) /\ ~ P (b.1 + b.2 - 16)) ->
  block_ok s' (x, v') -> Forall (apart (x, v')) (L1 ++ L2) ->
  free_list s' (L1 ++ (x, v') :: L2).
Proof.
  intros (Hd & Hok & Hs) Hf Hh HP Htags Hb Hap.
  pose proof Hf as (_&_&_&_&_&Hm).
  apply separated_remove in Hs as [Hs _].
  split; [| split].
  - rewrite Hh. rewrite fmap_app, fmap_cons in *. simpl in *.
    eapply dlseg_frame; [| exact Hd].
    intros a Ha. apply Hm. intros HPa. apply (HP a HPa).
    apply touches_links. by rewrite fmap_app, fmap_cons.
  - apply Forall_app in Hok as [Hok1 Hok2].
    apply Forall_cons in Hok2 as [_ Hok2].
    assert (Hoth : Forall (block_ok s') (L1 ++ L2)).
    { apply Forall_forall. intros b Hb'. destruct (Htags b Hb').
      eapply block_ok_frame; eauto.
      apply elem_of_app in Hb' as [Hb' | Hb'];
        [rewrite Forall_forall in Hok1; by apply Hok1
        | rewrite Forall_forall in Hok2; by apply Hok2]. }
    apply Forall_app in Hoth as [? ?]. apply Forall_app. split; [done |].
    by constructor.
  - by apply separated_insert.
Qed.

Lemma coalesce_merged s L bp sz psz pa nsz na :
  free_list s L -> releasable s L bp sz psz pa nsz na ->
  exists s',
    coalesce bp s = Ok (coalesced L bp sz psz pa nsz na).1 s' /\
    free_list s' (coalesced L bp sz psz pa nsz na).2 /\
    frame (fun a => (merged bp sz psz pa nsz na).1 - 8 <= a
                      < (merged bp sz psz pa nsz na).1
                        + (merged bp sz psz pa nsz na).2 - 8 \/
                    links L a) s s'.
Proof.
  intros Hfl (Hal & Hsal & Hmin & Hpal & Hpmin & Hnal & Hnmin & Hpa & Hna &
              Hlo & Hhi & Hc & [Ht1 Ht2] & [Hp1 Hp2] & Hnh & Hap & Hpin & Hnin).
  replace (bp - psz + psz - 16) with (bp - 16) in Hp2 by lia.
  unfold coalesce, coalesced, merged.
  do 5 step.
  assert (Hbk : block_ok s (bp, sz)).
  { repeat split; simpl; try lia; try done.
    eapply covered_mono; [exact Hc | lia | lia]. }
  pose proof Hfl as (_ & Hok & Hsep).
  assert (Hfacts : forall b, b ∈ L ->
            32 <= b.2 /\ apart (bp, sz) b /\
            (pa = 0 -> b = (bp - psz, psz) \/ apart b (bp - psz, psz)) /\
            (na = 0 -> b = (bp + sz, nsz) \/ apart b (bp + sz, nsz))).
  { intros b Hb. rewrite Forall_forall in Hok, Hap.
    destruct (Hok b Hb) as (_&_&_&?&_). repeat split; [done | by apply Hap | |].
    - intros Hz. by apply separated_elem with L; [| | apply Hpin].
    - intros Hz. by apply separated_elem with L; [| | apply Hnin]. }
  assert (Hpmin' : pa = 0 -> 32 <= psz).
  { intros Hz. by destruct (Hfacts _ (Hpin Hz)) as (? & _). }
  assert (Hnmin' : na = 0 -> 32 <= nsz).
  { intros Hz. by destruct (Hfacts _ (Hnin Hz)) as (? & _). }
  (* no link word of the list lies on a tag or inside the released block *)
  assert (Hnl : forall a,
            (pa = 0 /\ (bp - psz - 8 <= a < bp - psz \/ bp - 16 <= a < bp - 8)) \/
            bp - 8 <= a < bp + sz - 8 \/
            (na = 0 /\ (bp + sz - 8 <= a < bp + sz \/
                        bp + sz + 16 <= a < bp + sz + nsz - 8)) ->
            ~ links L a).
  { intros a Ha Hl. apply Exists_exists in Hl as (b & Hb & Hab).
    destruct (Hfacts b Hb) as (Hb32 & Hap1 & Hap2 & Hap3).
    destruct b as [b1 b2]. unfold apart in *. simpl in *.
    destruct Hpa as [-> | ->], Hna as [-> | ->].
    - destruct (Hap2 eq_refl) as [[= ? ?] | ?], (Hap3 eq_refl) as [[= ? ?] | ?]; lia.
    - destruct (Hap2 eq_refl) as [[= ? ?] | ?]; lia.
    - destruct (Hap3 eq_refl) as [[= ? ?] | ?]; lia.
    - lia. }
  destruct Hpa as [-> | ->], Hna as [-> | ->];
    cbn [Z.eqb Pos.eqb negb andb fst snd].
  - (* both neighbours free *)
    specialize (Hpin eq_refl). specialize (Hnin eq_refl).
    specialize (Hpmin' eq_refl). specialize (Hnmin' eq_refl).
    destruct (free_list_split _ _ _ Hfl Hnin) as (L1 & L2 & HL & Hn1 & Hn2).
    simpl in Hn1, Hn2. rewrite HL, remove_block_at by done.
    rewrite HL in Hfl.
    destruct (delete_node_spec _ _ _ _ Hfl) as (s1 & Hdel & Hfl1 & Hf1).
    simpl in Hdel. rewrite <- HL in Hfl.
    assert (Hsub : forall b, b ∈ L1 ++ L2 -> b ∈ L /\ b.1 <> bp + sz).
    { intros b Hb. split.
      - rewrite HL. rewrite elem_of_app in Hb. rewrite elem_of_app, elem_of_cons. tauto.
      - intros Heq. apply elem_of_app in Hb as [Hb | Hb];
          [apply Hn1 | apply Hn2]; rewrite <- Heq; by apply list_elem_of_fmap_2. }
    assert (Hpin' : (bp - psz, psz) ∈ L1 ++ L2).
    { rewrite HL, elem_of_app, elem_of_cons in Hpin. rewrite elem_of_app.
      destruct Hpin as [? | [[=] | ?]]; [by left | lia | by right]. }
    destruct (free_list_split _ _ _ Hfl1 Hpin') as (L3 & L4 & HL' & Hp3 & Hp4).
    simpl in Hp3, Hp4. rewrite HL', resize_block_at by done.
    assert (Hsub' : forall b, b ∈ L3 ++ L4 ->
              b ∈ L /\ b.1 <> bp + sz /\ b.1 <> bp - psz).
    { intros b Hb.
      assert (b ∈ L1 ++ L2).
      { rewrite HL'. rewrite elem_of_app in Hb. rewrite elem_of_app, elem_of_cons. tauto. }
      destruct (Hsub b) as [? ?]; [done |]. repeat split; try done.
      intros Heq. apply elem_of_app in Hb as [Hb | Hb];
          [apply Hp3 | apply Hp4]; rewrite <- Heq; by apply list_elem_of_fmap_2. }
    assert (Hll : forall a, links (L1 ++ L2) a -> links L a).
    { intros a Ha. rewrite HL. apply links_app in Ha. apply links_app.
      destruct Ha; [by left | right; by apply Exists_cons_tl]. }
    pose proof Hf1 as (_&_&_&_&_&Hm1).
    pose proof (frame_covered _ _ _ _ _ Hf1 Hc) as Hc1.
    assert (Hm1' : forall a, ~ links L a -> mem s1 !!! a = mem s !!! a).
    { intros a Ha. apply Hm1. intros Hl. by apply Ha, Hll. }
    assert (Ht1' : mem s1 !!! (bp - 8) = PACK sz 0)
      by (rewrite Hm1' by (apply Hnl; lia); done).
    assert (Hp2' : mem s1 !!! (bp - 16) = PACK psz 0)
      by (rewrite Hm1' by (apply Hnl; lia); done).
    assert (Hnh' : mem s1 !!! (bp + sz - 8) = PACK nsz 0)
      by (rewrite Hm1' by (apply Hnl; lia); done).
    do 5 step. unfold bind at 1. rewrite Hdel.
    do 6 step. unfold ret.
    eexists. split; [reflexivity |].
    replace (sz + (nsz + psz)) with (psz + sz + nsz) by lia.
    match goal with |- free_list ?S _ /\ _ => set (s3 := S) end.
    assert (Hf3 : frame (fun a => a = bp - psz - 8 \/ a = bp + sz + nsz - 16) s1 s3).
    { repeat split; try done. subst s3. st. intros a Ha. by mem_simpl. }
    split.
    + rewrite HL' in Hfl1.
      eapply free_list_resized; [exact Hfl1 | exact Hf3 | done | | | |].
      * intros a Ha Hl. cbv beta in Ha. rewrite <- HL' in Hl. apply Hll in Hl. revert Hl.
        apply Hnl. lia.
      * intros b Hb. destruct (Hsub' b Hb) as (HbL & Hbn & Hbp).
        destruct (Hfacts b HbL) as (Hb32 & Hap1 & Hap2 & Hap3).
        rewrite Forall_forall in Hok. destruct (Hok b HbL) as (_&?&?&_).
        destruct b as [b1 b2]. unfold apart in *. simpl in *.
        destruct (Hap2 eq_refl) as [[= ? ?] | ?], (Hap3 eq_refl) as [[= ? ?] | ?]; lia.
      * repeat split; simpl; try lia.
        -- eapply covered_mono; [exact Hc1 | lia | lia].
        -- subst s3. st. mem_simpl. by rewrite PACK_free.
        -- subst s3. st. replace (bp - psz + (psz + sz + nsz) - 16)
             with (bp + sz + nsz - 16) by lia. mem_simpl. by rewrite PACK_free.
      * apply Forall_forall. intros b Hb.
        destruct (Hsub' b Hb) as (HbL & Hbn & Hbp).
        destruct (Hfacts b HbL) as (Hb32 & Hap1 & Hap2 & Hap3).
        destruct b as [b1 b2]. unfold apart in *. simpl in *.
        destruct (Hap2 eq_refl) as [[= ? ?] | ?], (Hap3 eq_refl) as [[= ? ?] | ?]; lia.
    + eapply (frame_trans _ _ _ _ _ _ Hf1 Hf3).
      * intros a Ha. right. rewrite <- HL. by apply Hll.
      * intros a Ha. cbv beta in Ha. left. lia.
  - (* only the predecessor free *)
    specialize (Hpin eq_refl). specialize (Hpmin' eq_refl). clear Hnin Hnmin'.
    destruct (free_list_split _ _ _ Hfl Hpin) as (L3 & L4 & HL & Hp3 & Hp4).
    simpl in Hp3, Hp4.
    replace (resize_block (bp - psz) (psz + sz) L)
      with (L3 ++ (bp - psz, psz + sz) :: L4)
      by (rewrite HL, resize_block_at; done).
    assert (Hsub' : forall b, b ∈ L3 ++ L4 -> b ∈ L /\ b.1 <> bp - psz).
    { intros b Hb. split.
      - rewrite HL. rewrite elem_of_app in Hb. rewrite elem_of_app, elem_of_cons. tauto.
      - intros Heq. apply elem_of_app in Hb as [Hb | Hb];
          [apply Hp3 | apply Hp4]; rewrite <- Heq; by apply list_elem_of_fmap_2. }
    do 7 step. unfold ret.
    eexists. split; [reflexivity |].
    replace (sz + psz) with (psz + sz) by lia.
    match goal with |- free_list ?S _ /\ _ => set (s3 := S) end.
    assert (Hf3 : frame (fun a => a = bp - psz - 8 \/ a = bp + sz - 16) s s3).
    { repeat split; try done. subst s3. st. intros a Ha. by mem_simpl. }
    split.
    + rewrite HL in Hfl.
      eapply free_list_resized; [exact Hfl | exact Hf3 | done | | | |].
      * intros a Ha Hl. cbv beta in Ha. rewrite <- HL in Hl. revert Hl.
        apply Hnl. lia.
      * intros b Hb. destruct (Hsub' b Hb) as (HbL & Hbp).
        destruct (Hfacts b HbL) as (Hb32 & Hap1 & Hap2 & _).
        rewrite Forall_forall in Hok. destruct (Hok b HbL) as (_&?&?&_).
        destruct b as [b1 b2]. unfold apart in *. simpl in *.
        destruct (Hap2 eq_refl) as [[= ? ?] | ?]; lia.
      * repeat split; simpl; try lia.
        -- eapply covered_mono; [exact Hc | lia | lia].
        -- subst s3. st. mem_simpl. by rewrite PACK_free.
        -- subst s3. st. replace (bp - psz + (psz + sz) - 16)
             with (bp + sz - 16) by lia. mem_simpl. by rewrite PACK_free.
      * apply Forall_forall. intros b Hb.
        destruct (Hsub' b Hb) as (HbL & Hbp).
        destruct (Hfacts b HbL) as (Hb32 & Hap1 & Hap2 & _).
        destruct b as [b1 b2]. unfold apart in *. simpl in *.
        destruct (Hap2 eq_refl) as [[= ? ?] | ?]; lia.
    + eapply (frame_trans _ _ _ _ _ _ (frame_refl (fun _ => False) s) Hf3).
      * intros a [].
      * intros a Ha. cbv beta in Ha. left. lia.
  - (* only the successor free *)
    specialize (Hnin eq_refl). specialize (Hnmin' eq_refl). clear Hpin Hpmin'.
    destruct (free_list_split _ _ _ Hfl Hnin) as (L1 & L2 & HL & Hn1 & Hn2).
    simpl in Hn1, Hn2.
    replace (remove_block (bp + sz) L) with (L1 ++ L2)
      by (rewrite HL, remove_block_at; done).
    rewrite HL in Hfl.
    destruct (delete_node_spec _ _ _ _ Hfl) as (s1 & Hdel & Hfl1 & Hf1).
    simpl in Hdel. rewrite <- HL in Hfl.
    assert (Hsub : forall b, b ∈ L1 ++ L2 -> b ∈ L /\ b.1 <> bp + sz).
    { intros b Hb. split.
      - rewrite HL. rewrite elem_of_app in Hb. rewrite elem_of_app, elem_of_cons. tauto.
      - intros Heq. apply elem_of_app in Hb as [Hb | Hb];
          [apply Hn1 | apply Hn2]; rewrite <- Heq; by apply list_elem_of_fmap_2. }
    assert (Hll : forall a, links (L1 ++ L2) a -> links L a).
    { intros a Ha. rewrite HL. apply links_app in Ha. apply links_app.
      destruct Ha; [by left | right; by apply Exists_cons_tl]. }
    pose proof Hf1 as (_&_&_&_&_&Hm1).
    pose proof (frame_covered _ _ _ _ _ Hf1 Hc) as Hc1.
    assert (Hm1' : forall a, ~ links L a -> mem s1 !!! a = mem s !!! a).
    { intros a Ha. apply Hm1. intros Hl. by apply Ha, Hll. }
    do 3 step. unfold bind at 1. rewrite Hdel.
    do 3 step.
    match goal with |- context [bind (add_node _) _ ?S] => set (s3 := S) end.
    assert (Hf3 : frame (fun a => a = bp - 8 \/ a = bp + sz + nsz - 16) s1 s3).
    { repeat split; try done. subst s3. st. intros a Ha. by mem_simpl. }
    assert (Hapm : Forall (apart (bp, sz + nsz)) (L1 ++ L2)).
    { apply Forall_forall. intros b Hb. destruct (Hsub b Hb) as (HbL & Hbn).
      destruct (Hfacts b HbL) as (Hb32 & Hap1 & _ & Hap3).
      destruct b as [b1 b2]. unfold apart in *. simpl in *.
      destruct (Hap3 eq_refl) as [[= ? ?] | ?]; lia. }
    assert (Hfl3 : free_list s3 (L1 ++ L2)).
    { eapply frame_free_list; [exact Hfl1 | exact Hf3 | done | |].
      - intros a Ha Hl. cbv beta in Ha. apply Hll in Hl. revert Hl. apply Hnl. lia.
      - intros b Hb. destruct (Hsub b Hb) as (HbL & Hbn).
        rewrite Forall_forall in Hok, Hapm. destruct (Hok b HbL) as (_&?&?&?&_).
        specialize (Hapm b Hb).
        destruct b as [b1 b2]. unfold apart in *. simpl in *. lia. }
    assert (Hb3 : block_ok s3 (bp, sz + nsz)).
    { repeat split; simpl; try lia.
      - eapply covered_mono; [exact Hc1 | lia | lia].
      - subst s3. st. mem_simpl. by rewrite PACK_free.
      - subst s3. st. mem_simpl. by rewrite PACK_free. }
    destruct (add_node_spec _ _ _ Hfl3 Hb3 Hapm) as (s4 & Hadd & Hfl4 & Hf4).
    simpl in Hadd. unfold bind at 1. rewrite Hadd. unfold ret.
    exists s4. split; [done |]. split; [done |].
    assert (Hf13 : frame (fun a => bp - 8 <= a < bp + sz + nsz - 8 \/
                                   links L a) s s3).
    { eapply (frame_trans _ _ _ _ _ _ Hf1 Hf3).
      - intros a Ha. right. by apply Hll.
      - intros a Ha. cbv beta in Ha. left. lia. }
    eapply (frame_trans _ _ _ _ _ _ Hf13 Hf4).
    + intros a [Ha | Ha]; [left; lia | by right].
    + intros a Ha. apply Exists_cons in Ha as [Ha | Ha];
        [left; simpl in Ha; lia | right; by apply Hll].
  - (* both neighbours allocated *)
    destruct (add_node_spec _ _ _ Hfl Hbk Hap) as (s1 & Hadd & Hfl1 & Hf1).
    simpl in Hadd. unfold bind at 1. rewrite Hadd. unfold ret.
    exists s1. split; [done |]. split; [done |].
    eapply (frame_trans _ _ _ _ _ _ (frame_refl (fun _ => False) s) Hf1).
    + intros a [].
    + intros a Ha. apply Exists_cons in Ha as [Ha | Ha];
        [left; simpl in Ha; lia | by right].
Qed.

Lemma coalesce_spec s L bp sz psz pa nsz na :
  free_list s L -> releasable s L bp sz psz pa nsz na ->
  exists s',
    coalesce bp s = Ok (coalesced L bp sz psz pa nsz na).1 s' /\
    free_list s' (coalesced L bp sz psz pa nsz na).2 /\
    frame (fun a => bp - psz - 8 <= a < bp + sz + nsz - 8 \/ links L a) s s'.
Proof.
  intros Hfl Hrel.
  destruct (coalesce_merged _ _ _ _ _ _ _ _ Hfl Hrel) as (s' & Hrun & Hfl' & Hf).
  exists s'. split; [done |]. split; [done |].
  destruct Hrel as (_ & _ & _ & _ & Hpmin & _ & Hnmin & Hpa & Hna & _).
  eapply (frame_trans _ _ _ _ _ _ (frame_refl (fun _ => False) s) Hf).
  - intros a [].
  - intros a [Ha | Ha]; [left | by right].
    unfold merged in Ha. cbn [fst snd] in Ha.
    destruct Hpa as [-> | ->], Hna as [-> | ->]; cbn [Z.eqb Pos.eqb] in Ha; lia.
Qed.

Lemma resize_block_elem x v L : x ∈ L.*1 -> (x, v) ∈ resize_block x v L.
Proof.
  intros Hx. apply list_elem_of_fmap in Hx as (b & -> & Hb).
  unfold resize_block. apply list_elem_of_fmap. exists b.
  by rewrite Z.eqb_refl.
Qed.

Lemma remove_block_elem x b L : b ∈ L -> b.1 <> x -> b ∈ remove_block x L.
Proof. intros Hb Hx. unfold remove_block. by apply list_elem_of_filter. Qed.

Lemma free_list_tagged s L b : free_list s L -> b ∈ L -> tagged s b.1 b.2 0.
Proof.
  intros (_ & Hok & _) Hb. rewrite Forall_forall in Hok.
  by destruct (Hok b Hb) as (_&_&_&_&_&_&?).
Qed.

(** ** Release *)

Lemma live_retagged s L bp sz psz pa nsz na :
  free_list s L -> live s L bp sz psz pa nsz na ->
  free_list (retagged s bp sz) L /\
  releasable (retagged s bp sz) L bp sz psz pa nsz na /\
  frame (fun a => bp - 8 <= a < bp + sz - 8) s (retagged s bp sz).
Proof.
  intros Hfl (Hal & Hsal & Hmin & Hpal & Hpmin & Hnal & Hnmin & Hpa & Hna &
              Hlo & Hhi & Hc & [Ht1 Ht2] & [Hp1 Hp2] & Hnh & Hap & Hpin & Hnin).
  assert (Hf : frame (fun a => bp - 8 <= a < bp + sz - 8) s (retagged s bp sz)).
  { repeat split; try done. unfold retagged. st. intros a Ha. by mem_simpl. }
  pose proof Hfl as (_ & Hok & _).
  split; [| split; [| done]].
  - eapply frame_free_list; [exact Hfl | exact Hf | done | |].
    + intros a Ha. eapply (links_apart s _ (bp, sz)); eauto.
    + intros b Hb. rewrite Forall_forall in Hap, Hok.
      specialize (Hap b Hb). destruct (Hok b Hb) as (_&_&_&?&_).
      unfold apart in Hap. simpl in Hap. lia.
  - unfold releasable, tagged, retagged in *. st.
    replace (bp - psz + psz - 16) with (bp - 16) in * by lia.
    repeat split; try done; mem_simpl; try done; by rewrite PACK_free.
Qed.

Lemma coalesced_block L bp sz psz pa nsz na :
  (pa = 0 \/ pa = 1) -> (na = 0 \/ na = 1) ->
  (pa = 0 -> (bp - psz, psz) ∈ L) -> 0 < psz -> 0 < sz ->
  merged bp sz psz pa nsz na ∈ (coalesced L bp sz psz pa nsz na).2 /\
  (coalesced L bp sz psz pa nsz na).1 = (merged bp sz psz pa nsz na).1.
Proof.
  intros Hpa Hna Hpin Hpsz Hsz. unfold coalesced, merged.
  destruct Hpa as [-> | ->], Hna as [-> | ->]; cbn [Z.eqb Pos.eqb fst snd].
  - split; [| done]. replace (sz + psz + nsz) with (psz + sz + nsz) by lia.
    apply resize_block_elem.
    apply (list_elem_of_fmap_2 fst _ (bp - psz, psz)).
    apply remove_block_elem; [by apply Hpin | simpl; lia].
  - split; [| done]. replace (sz + psz + 0) with (psz + sz) by lia.
    apply resize_block_elem.
    apply (list_elem_of_fmap_2 fst _ (bp - psz, psz)). by apply Hpin.
  - split; [| lia]. replace (bp - 0) with bp by lia.
    replace (sz + 0 + nsz) with (sz + nsz) by lia. left.
  - split; [| lia]. replace (bp - 0) with bp by lia.
    replace (sz + 0 + 0) with sz by lia. left.
Qed.

Lemma merged_bounds bp sz psz pa nsz na :
  (pa = 0 \/ pa = 1) -> (na = 0 \/ na = 1) ->
  let r := (merged bp sz psz pa nsz na).1 in
  let total := (merged bp sz psz pa nsz na).2 in
  r = bp - (if pa =? 0 then psz else 0) /\
  r + total = bp + sz + (if na =? 0 then nsz else 0).
Proof. intros Hpa Hna. unfold merged. cbn [fst snd]. lia. Qed.

(** [mm_free] on a live block of at least the minimum size: the block is
    retagged and coalesced into [(r, total)], which joins the free list;
    when the probe fails that is all, and when it passes the block leaves
    the list again and the range 32 bytes around it goes to [mem_unmap]. *)
Lemma mm_free_spec s L bp sz psz pa nsz na :
  let r := (merged bp sz psz pa nsz na).1 in
  let total := (merged bp sz psz pa nsz na).2 in
  let L' := (coalesced L bp sz psz pa nsz na).2 in
  free_list s L -> live s L bp sz psz pa nsz na ->
  32 <= r -> covered s (r - 24) (r - 16) ->
  exists s1,
    free_list s1 L' /\ (r, total) ∈ L' /\
    frame (fun a => r - 8 <= a < r + total - 8 \/ links L a) s s1 /\
    (sole_probe s1 r total = false -> mm_free bp s = Ok tt s1) /\
    (sole_probe s1 r total = true ->
     exists s2,
       free_list s2 (remove_block r L') /\
       frame (links (remove_block r L')) s1 s2 /\
       mm_free bp s = mem_unmap (r - 32) (total + 32) s2).
Proof.
  intros r total L' Hfl Hlive Hr32 Hcr.
  destruct (live_retagged _ _ _ _ _ _ _ _ Hfl Hlive) as (Hfl0 & Hrel & Hf0).
  destruct (coalesce_merged _ _ _ _ _ _ _ _ Hfl0 Hrel) as (s1 & Hco & Hfl1 & Hf1).
  fold r total in Hf1. fold L' in Hfl1.
  destruct Hlive as (Hal & Hsal & Hmin & Hpal & Hpmin & Hnal & Hnmin & Hpa & Hna &
              Hlo & Hhi & Hc & [Ht1 Ht2] & [Hp1 Hp2] & Hnh & Hap & Hpin & Hnin).
  destruct (coalesced_block L bp sz psz pa nsz na Hpa Hna Hpin)
    as (HrL & Hreq); [lia.. |].
  rewrite Hreq in Hco.
  destruct (merged_bounds bp sz psz pa nsz na Hpa Hna) as (Hr1 & Hr2).
  rewrite (surjective_pairing (merged bp sz psz pa nsz na)) in HrL.
  fold r total L' in HrL, Hco, Hr1, Hr2.
  pose proof (free_list_tagged _ _ _ Hfl1 HrL) as Hrt. simpl in Hrt.
  clearbody r L' total.
  assert (Hbr : bp - psz <= r <= bp /\ r mod 16 = 0 /\
                sz <= total /\ bp + sz <= r + total <= bp + sz + nsz /\
                total mod 16 = 0).
  { destruct Hpa as [-> | ->], Hna as [-> | ->];
      cbn [Z.eqb Pos.eqb] in Hr1, Hr2; lia. }
  destruct Hbr as (Hrr & Hral & Htmin & Hrend & Htal).
  assert (Hf01 : frame (fun a => r - 8 <= a < r + total - 8 \/ links L a) s s1).
  { eapply (frame_trans _ _ _ _ _ _ Hf0 Hf1).
    - intros a Ha. cbv beta in Ha. left. lia.
    - done. }
  exists s1. split; [done |]. split; [done |]. split; [done |].
  assert (Hc1 : covered s1 (bp - psz - 8) (bp + sz + nsz)).
  { eapply frame_covered; [exact Hf1 |]. eapply frame_covered; [exact Hf0 | done]. }
  assert (Hcr1 : covered s1 (r - 24) (r - 16)).
  { eapply frame_covered; [exact Hf1 |]. eapply frame_covered; [exact Hf0 | done]. }
  destruct Hrt as [Hrt1 Hrt2]. rewrite PACK_free in Hrt1, Hrt2.
  unfold mm_free. norm. do 4 step.
  match goal with |- context [bind (coalesce bp) ?K ?S] =>
    set (k := K);
    replace S with (retagged s bp sz)
      by (unfold retagged; by rewrite !PACK_free)
  end.
  assert (Hb : bind (coalesce bp) k (retagged s bp sz) = k r s1)
    by (unfold bind; by rewrite Hco).
  rewrite Hb. subst k. cbv beta. clear Hb.
  unfold OVERHEAD, PAGE_OVERHEAD. norm. step.
  destruct (tag_size (mem s1 !!! (r - 24)) =? 16) eqn:E1;
    [| unfold sole_probe, OVERHEAD; rewrite E1; split; [done | intros [=]]].
  step. rewrite ?(tag_size_aligned total) by lia. unwrap. step.
  replace (r + total - 16 + 8) with (r + total - 8) by lia.
  destruct (tag_size (mem s1 !!! (r + total - 8)) =? 0) eqn:E2;
    [| unfold sole_probe, OVERHEAD; rewrite E1, E2; split; [done | intros [=]]].
  step. rewrite ?(tag_size_aligned total) by lia.
  destruct (4096 * 10 <=? total) eqn:E3;
    [| unfold sole_probe, OVERHEAD; rewrite E1, E2, E3; split; [done | intros [=]]].
  split; [unfold sole_probe, OVERHEAD; rewrite E1, E2, E3; intros [=] | intros _].
  destruct (free_list_split _ _ _ Hfl1 HrL) as (L1 & L2 & HL & H1 & H2).
  simpl in H1, H2. rewrite HL in Hfl1.
  destruct (delete_node_spec _ _ _ _ Hfl1) as (s2 & Hdel & Hfl2 & Hf2).
  simpl in Hdel. unfold bind at 1. rewrite Hdel.
  pose proof Hf2 as (Hm2 & _ & _ & _ & Hcl2 & Hmem2).
  assert (Hh2 : mem s2 !!! (r - 8) = total).
  { rewrite Hmem2; [done |]. destruct Hfl1 as (_ & Hok1 & Hs1).
    apply separated_remove in Hs1 as [_ Hap1].
    apply Forall_app in Hok1 as [Hok11 Hok12].
    apply Forall_cons in Hok12 as [Hbr Hok12].
    eapply (links_apart s1 _ (r, total)); [| exact Hap1 | simpl; lia].
    apply Forall_app. by split. }
  pose proof (frame_covered _ _ _ _ _ Hf2 Hc1) as Hc2.
  step.
  exists s2. rewrite HL, remove_block_at by done.
  split; [done |]. split; done.
Qed.

(** ** Growing the pool *)

Lemma extend_size_run n s :
  extend_size n s =
    Ok (extend_request (pagesz s) (initial_mapped s) n)
       (set_initial_mapped s (chunk_choice (pagesz s) (initial_mapped s) n)).
Proof.
  unfold extend_size, extend_request, chunk_choice, page_align.
  unfold PAGE_ALIGN, get_initial_mapped, mem_pagesize, put_initial_mapped,
    ret, bind.
  destruct (_ <? _); [reflexivity |].
  destruct (_ <=? _); [reflexivity |].
  destruct s; reflexivity.
Qed.

Lemma free_list_grow s s' L :
  free_list s L -> list_head s' = list_head s ->
  (forall lo hi, covered s lo hi -> covered s' lo hi) ->
  (forall b x, b ∈ L -> b.1 - 8 <= x < b.1 + b.2 - 8 ->
               mem s' !!! x = mem s !!! x) ->
  free_list s' L.
Proof.
  intros (Hd & Hok & Hs) Hh Hcov Hm. split; [| split; [| done]].
  - rewrite Hh. eapply dlseg_frame; [| exact Hd].
    intros x Hx. apply touches_spec in Hx as (n & Hn & Hx).
    apply list_elem_of_fmap in Hn as (b & -> & Hb).
    rewrite Forall_forall in Hok. destruct (Hok b Hb) as (_&_&_&?&_).
    apply (Hm b); [done | lia].
  - apply Forall_forall. intros b Hb. rewrite Forall_forall in Hok.
    destruct (Hok b Hb) as (?&?&?&?&?&Hc&Ht1&Ht2).
    repeat split; try done; [by apply Hcov | |];
      (rewrite (Hm b); [done | done | lia]).
Qed.

Lemma covered_fresh s a size lo hi :
  fresh s a size -> covered s lo hi -> lo < hi -> hi <= a \/ a + size <= lo.
Proof.
  intros Hf Hc Hlt. apply Exists_exists in Hc as (r & Hr & H1 & H2).
  unfold fresh in Hf. rewrite Forall_forall in Hf. specialize (Hf r Hr). lia.
Qed.

Lemma extend_spec s L n a rest :
  let req := extend_request (pagesz s) (initial_mapped s) n in
  free_list s L -> supply s = a :: rest ->
  0 < a -> a mod 16 = 0 -> req mod 16 = 0 -> 64 <= req -> a + req < W64 ->
  fresh s a req ->
  exists s',
    extend n s = Ok (a + 32) s' /\
    free_list s' ((a + 32, req - 32) :: L) /\
    mapped s' = (a, req) :: mapped s /\ supply s' = rest /\
    initial_mapped s' = chunk_choice (pagesz s) (initial_mapped s) n /\
    pagesz s' = pagesz s /\ calls s' = CallMap req a :: calls s /\
    mem s' !!! a = 0 /\ mem s' !!! (a + 8) = PACK 16 1 /\ mem s' !!! (a + 16) = PACK 16 1 /\
    mem s' !!! (a + req - 8) = PACK 0 1 /\
    (forall x, ~ (a <= x < a + req) -> ~ links L x -> mem s' !!! x = mem s !!! x).
Proof.
  intros req Hfl Hsup Ha Hal Hral Hrmin Hmax Hfresh.
  unfold extend. unfold bind at 1. rewrite extend_size_run. fold req.
  unfold bind at 1, mem_map. st. rewrite Hsup.
  destruct (Z.eqb_spec a 0) as [? | _]; [lia |].
  match goal with |- context [bind (PUT a 0) _ ?S] => set (s2 := S) end.
  assert (Hc2 : covered s2 a (a + req)).
  { apply Exists_cons_hd. simpl. lia. }
  unfold PAGE_OVERHEAD.
  do 4 step.
  replace (a + 8 + 8 + 8 + 8) with (a + 32) by lia.
  replace (a + 8 + 8 + 8) with (a + 24) by lia.
  replace (a + 8 + 8) with (a + 16) by lia.
  step. replace (a + 32 - 8) with (a + 24) by lia. norm.
  step. step. replace (a + 32 - 8) with (a + 24) by lia. norm.
  step.
  replace (a + 32 + (req - 32) - 16 + 8) with (a + req - 8) by lia.
  replace (a + 32 + (req - 32) - 16) with (a + req - 16) by lia.
  match goal with |- context [bind (add_node _) _ ?S] => set (s5 := S) end.
  assert (Hout : forall b x, b ∈ L -> b.1 - 8 <= x < b.1 + b.2 - 8 ->
                   ~ (a <= x < a + req)).
  { intros b x Hb Hx. destruct Hfl as (_ & Hok & _).
    rewrite Forall_forall in Hok. destruct (Hok b Hb) as (_&_&_&?&_&Hc&_).
    pose proof (covered_fresh _ _ _ _ _ Hfresh Hc). lia. }
  assert (Hm5 : forall x, ~ (a <= x < a + req) -> mem s5 !!! x = mem s !!! x).
  { intros x Hx. subst s5 s2. st. by mem_simpl. }
  assert (Hfl5 : free_list s5 L).
  { eapply free_list_grow; [exact Hfl | done | |].
    - intros lo hi Hc. by apply Exists_cons_tl.
    - intros b x Hb Hx. apply Hm5. by eapply Hout. }
  assert (Hb5 : block_ok s5 (a + 32, req - 32)).
  { repeat split; simpl; try lia.
    - eapply covered_mono; [exact Hc2 | lia | lia].
    - subst s5. st. replace (a + 32 - 8) with (a + 24) by lia.
      mem_simpl. by rewrite PACK_free.
    - subst s5. st. replace (a + 32 + (req - 32) - 16) with (a + req - 16) by lia.
      mem_simpl. by rewrite PACK_free. }
  assert (Hap5 : Forall (apart (a + 32, req - 32)) L).
  { apply Forall_forall. intros b Hb.
    pose proof (Hout b (b.1 - 8) Hb). pose proof (Hout b (b.1 + b.2 - 9) Hb).
    destruct Hfl as (_ & Hok & _).
    rewrite Forall_forall in Hok. destruct (Hok b Hb) as (_&_&_&?&_&Hc&_).
    pose proof (covered_fresh _ _ _ _ _ Hfresh Hc).
    unfold apart. simpl. lia. }
  destruct (add_node_spec _ _ _ Hfl5 Hb5 Hap5) as (s6 & Hadd & Hfl6 & Hf6).
  simpl in Hadd. unfold bind at 1. rewrite Hadd. unfold ret.
  exists s6. split; [done |]. split; [done |].
  destruct Hf6 as (Hmp & Him & Hpg & Hsp & Hcl & Hm6).
  assert (Hsent : forall x, a <= x < a + 32 \/ a + req - 8 <= x < a + req ->
                    mem s6 !!! x = mem s5 !!! x).
  { intros x Hx. apply Hm6. intros Hl. apply Exists_cons in Hl as [Hl | Hl].
    - simpl in Hl. lia.
    - apply Exists_exists in Hl as (b & Hb & Hbx).
      destruct Hfl as (_ & Hok & _).
      rewrite Forall_forall in Hok. destruct (Hok b Hb) as (_&_&_&?&_).
      apply (Hout b x Hb); lia. }
  rewrite Hmp, Him, Hpg, Hsp, Hcl. do 5 (split; [done |]).
  rewrite !Hsent by lia. subst s5. st.
  do 4 (split; [by mem_simpl |]).
  intros x Hx Hl. rewrite Hm6, Hm5; [done | done |].
  intros Hl'. apply Exists_cons in Hl' as [Hl' | Hl']; [simpl in Hl'; lia | done].
Qed.

(** ** Allocation *)

Lemma ALIGN_range x : 0 <= ALIGN x < W64 /\ ALIGN x mod 16 = 0.
Proof.
  rewrite ALIGN_eq. pose proof (wrap_range (x + 15)). lia.
Qed.

Lemma set_allocated_alloc s L1 L2 bp bsz n :
  free_list s (L1 ++ (bp, bsz) :: L2) ->
  n mod 16 = 0 -> 16 <= n <= bsz ->
  exists s' bs L',
    set_allocated bp n s = Ok tt s' /\ n <= bs <= bsz /\
    tagged s' bp bs 1 /\ covered s' (bp - 8) (bp + bs - 8) /\
    free_list s' L' /\ Forall (apart (bp, bs)) L' /\
    frame (fun a => bp - 8 <= a < bp + bsz - 8 \/ links (L1 ++ L2) a) s s'.
Proof.
  intros Hfl Hn Hr.
  destruct (set_allocated_spec _ _ _ _ _ _ Hfl Hn Hr) as (s' & Hrun & Hf & Hres).
  assert (Hb : block_ok s (bp, bsz)).
  { destruct Hfl as (_ & Hok & _). apply Forall_app in Hok as [_ Hok].
    by apply Forall_cons in Hok as [? _]. }
  destruct Hb as (_&_&_&_&_&Hc&_). simpl in Hc.
  pose proof (frame_covered _ _ _ _ _ Hf Hc) as Hc'.
  assert (Hap : Forall (apart (bp, bsz)) (L1 ++ L2)).
  { destruct Hfl as (_ & _ & Hs). by apply separated_remove in Hs as [_ ?]. }
  destruct (32 <? bsz - n).
  - destruct Hres as (Ht & Hfl' & Hlt).
    exists s', n, ((bp + n, bsz - n) :: L1 ++ L2).
    split; [done |]. split; [lia |]. split; [done |].
    split; [eapply covered_mono; [exact Hc' | lia | lia] |].
    split; [done |]. split; [| done].
    constructor; [unfold apart; simpl; lia |].
    eapply Forall_impl; [exact Hap |]. unfold apart. simpl. intros b. lia.
  - destruct Hres as (Ht & Hfl').
    exists s', bsz, (L1 ++ L2).
    split; [done |]. split; [lia |]. by repeat (split; [done |]).
Qed.

Lemma mm_malloc_spec s L size fuel :
  let n := ALIGN (wrap (size + OVERHEAD)) in
  free_list s L -> (length L < fuel)%nat -> 16 <= n ->
  (first_fit L n = None -> grantable s n) ->
  exists p s' bs L',
    mm_malloc fuel size s = Ok p s' /\
    0 < p /\ p mod 16 = 0 /\ n <= bs /\ tagged s' p bs 1 /\
    covered s' (p - 8) (p + bs - 8) /\
    free_list s' L' /\ Forall (apart (p, bs)) L'.
Proof.
  intros n Hfl Hfuel Hn Hgr.
  pose proof (ALIGN_range (wrap (size + OVERHEAD))) as [Hnr Hnal]. fold n in Hnr, Hnal.
  unfold mm_malloc. fold n. unfold bind at 1.
  rewrite (find_fit_spec _ _ _ _ Hfl Hfuel).
  destruct (first_fit L n) as [[bp bsz] |] eqn:Hff; cbn [from_option fst].
  - apply first_fit_elem in Hff as (L1 & L2 & -> & Hle & _). simpl in Hle.
    assert (Hb : block_ok s (bp, bsz)).
    { destruct Hfl as (_ & Hok & _). apply Forall_app in Hok as [_ Hok].
      by apply Forall_cons in Hok as [? _]. }
    destruct Hb as (Hb0 & Hbal & _). simpl in Hb0, Hbal.
    destruct (Z.eqb_spec bp 0) as [? | _]; [lia |]. cbn [negb].
    destruct (set_allocated_alloc _ _ _ _ _ _ Hfl Hnal (conj Hn Hle))
      as (s' & bs & L' & Hrun & Hbs & Ht & Hc & Hfl' & Hap & _).
    unfold bind at 1. rewrite Hrun. unfold ret.
    exists bp, s', bs, L'.
    split; [done |]. do 3 (split; [lia |]). by repeat (split; [done |]).
  - specialize (Hgr eq_refl). unfold grantable in Hgr.
    destruct (supply s) as [| a rest] eqn:Hsup; [done |].
    destruct Hgr as (Ha0 & Haal & Hmax & Hfr & Hral & Hrmin & Hfit).
    change (0 =? 0) with true. cbn [negb].
    destruct (extend_spec s L n a rest Hfl Hsup Ha0 Haal Hral Hrmin Hmax Hfr)
      as (s1 & Hext & Hfl1 & _).
    unfold bind at 1. rewrite Hext.
    destruct (Z.eqb_spec (a + 32) 0) as [? | _]; [lia |]. cbn [negb].
    rewrite run_get_list_head.
    assert (Hh : list_head s1 = a + 32).
    { destruct Hfl1 as (Hd & _). simpl in Hd. by destruct Hd as (? & _). }
    rewrite Hh.
    set (req := extend_request (pagesz s) (initial_mapped s) n) in *.
    assert (Hr : 16 <= n <= req - 32) by lia.
    destruct (set_allocated_alloc s1 [] L (a + 32) (req - 32) n Hfl1 Hnal Hr)
      as (s' & bs & L' & Hrun & Hbs & Ht & Hc & Hfl' & Hap & _).
    unfold bind at 1. rewrite Hrun. unfold ret.
    exists (a + 32), s', bs, L'.
    split; [done |]. do 3 (split; [lia |]). by repeat (split; [done |]).
Qed.

(** ** Page rounding *)

Lemma round_up_bounds p x : 0 < p -> x <= round_up p x < x + p.
Proof.
  intros Hp. unfold round_up.
  pose proof (Z.mod_pos_bound (x + p - 1) p Hp).
  pose proof (Z.mod_eq (x + p - 1) p ltac:(lia)). lia.
Qed.

Lemma round_up_mod p x : 0 < p -> round_up p x mod p = 0.
Proof. intros Hp. unfold round_up. apply Z.mod_mul. lia. Qed.



Lemma round_up_mono p x y : 0 < p -> x <= y -> round_up p x <= round_up p y.
Proof.
  intros Hp Hxy. unfold round_up.
  apply Z.mul_le_mono_nonneg_r; [lia |]. apply Z.div_le_mono; lia.
Qed.

Lemma pow2_range k : 0 <= k <= 32 -> 0 < 2 ^ k <= 4294967296.
Proof.
  intros Hk. split; [apply Z.pow_pos_nonneg; lia |].
  change 4294967296 with (2 ^ 32). apply Z.pow_le_mono_r; lia.
Qed.

Lemma page_align_round k x :
  0 <= k <= 32 -> 0 <= x -> x + 2 ^ k <= W64 ->
  page_align (2 ^ k) x = round_up (2 ^ k) x.
Proof.
  intros Hk Hx Hmax. pose proof (pow2_range k Hk).
  rewrite page_align_eq by lia. rewrite wrap_small by lia.
  unfold round_up. replace (x + 2 ^ k - 1) with (x + (2 ^ k - 1)) by lia.
  rewrite (Z.mod_eq (x + (2 ^ k - 1)) (2 ^ k)) by lia. ring.
Qed.

(** The three sizes [extend_size] works with, when nothing overflows. *)
Lemma chunk_choice_cases k im n :
  0 <= k <= 32 -> 0 <= im <= 2 ^ 62 -> 0 <= n <= 2 ^ 62 ->
  let p := 2 ^ k in
  let A := round_up p (im * 2 + 32) in
  let B := round_up p (n + 32) in
  chunk_choice p im n =
    (if A <? B then B else if A <=? THRESHOLD then A else im) /\
  extend_request p im n = round_up p (chunk_choice p im n + 32) /\
  0 <= chunk_choice p im n <= 2 ^ 63 + 2 ^ 33.
Proof.
  intros Hk Him Hn p A B. pose proof (pow2_range k Hk) as Hp. fold p in Hp.
  change (2 ^ 62) with 4611686018427387904 in *.
  change (2 ^ 63 + 2 ^ 33) with 9223372045444710400.
  unfold extend_request, chunk_choice, PAGE_OVERHEAD. fold p.
  rewrite (wrap_small (im * 2)), (wrap_small (im * 2 + 32)),
    (wrap_small (n + 32)) by lia.
  pose proof (round_up_bounds p (im * 2 + 32) ltac:(lia)) as HA. fold A in HA.
  pose proof (round_up_bounds p (n + 32) ltac:(lia)) as HB. fold B in HB.
  assert (EA : page_align p (im * 2 + 32) = A)
    by (apply page_align_round; fold p; lia).
  assert (EB : page_align p (n + 32) = B)
    by (apply page_align_round; fold p; lia).
  rewrite !EA, !EB.
  split; [reflexivity |].
  assert (Hc : 0 <= (if A <? B then B else if A <=? THRESHOLD then A else im)
                 <= 9223372045444710400).
  { destruct (A <? B); [lia |]. destruct (A <=? THRESHOLD); lia. }
  split; [| exact Hc].
  rewrite wrap_small by lia. apply page_align_round; fold p; lia.
Qed.

(** ** Calls to the page provider *)

Lemma quiet_bind {A B} (c : M A) (k : A -> M B) :
  quiet c -> (forall a, quiet (k a)) -> quiet (bind c k).
Proof.
  intros Hc Hk s b s' Hrun. unfold bind in Hrun.
  destruct (c s) as [a s1 | |] eqn:Hcs; [| done | done].
  destruct (Hc _ _ _ Hcs) as [E1 E2]. destruct (Hk _ _ _ _ Hrun) as [E3 E4].
  split; congruence.
Qed.

Lemma quiet_ret {A} (a : A) : quiet (ret a).
Proof. by intros s b s' [= _ <-]. Qed.

Lemma quiet_GET p : quiet (GET p).
Proof. intros s a s'. unfold GET. destruct (valid s p); [| done]. by intros [= _ <-]. Qed.

Lemma quiet_PUT p v : quiet (PUT p v).
Proof. intros s a s'. unfold PUT. destruct (valid s p); [| done]. by intros [= _ <-]. Qed.

Lemma quiet_get_list_head : quiet get_list_head.
Proof. by intros s a s' [= _ <-]. Qed.

Lemma quiet_put_list_head h : quiet (put_list_head h).
Proof. by intros s a s' [= _ <-]. Qed.

Ltac quiet_tac :=
  repeat first
    [ apply quiet_ret | apply quiet_GET | apply quiet_PUT
    | apply quiet_get_list_head | apply quiet_put_list_head
    | apply quiet_bind
    | match goal with |- forall _, quiet _ => intros ? end
    | match goal with |- quiet (if ?b then _ else _) => destruct b end ].

Lemma quiet_FTRP bp : quiet (FTRP bp).
Proof. unfold FTRP, GET_SIZE. quiet_tac. Qed.

Lemma quiet_add_node bp : quiet (add_node bp).
Proof. unfold add_node. quiet_tac. Qed.

(** Whenever [extend] returns, it has made exactly one call to the
    provider, a [map] of the size [extend_size] computed, and has recorded
    the size it settled on. *)
Lemma extend_calls n s bp s' :
  extend n s = Ok bp s' ->
  exists a,
    calls s' = CallMap (extend_request (pagesz s) (initial_mapped s) n) a :: calls s /\
    initial_mapped s' = chunk_choice (pagesz s) (initial_mapped s) n.
Proof.
  unfold extend. unfold bind at 1. rewrite extend_size_run.
  unfold bind at 1.
  match goal with |- context [mem_map ?r ?S] =>
    destruct (mem_map r S) as [a s2 | |] eqn:Hmap; [| done | done] end.
  intros Hrun.
  assert (Hq : calls s' = calls s2 /\ initial_mapped s' = initial_mapped s2).
  { revert Hrun. generalize s2 bp s'.
    change (quiet
      (PUT a 0 ;;
       PUT (wrap (a + 8)) (PACK 16 1) ;;
       PUT (wrap (wrap (a + 8) + 8)) (PACK 16 1) ;;
       PUT (wrap (wrap (wrap (a + 8) + 8) + 8))
         (PACK (wrap (extend_request (pagesz s) (initial_mapped s) n - PAGE_OVERHEAD)) 0) ;;
       do f <- FTRP (wrap (wrap (wrap (wrap (a + 8) + 8) + 8) + 8));
       PUT f (PACK (wrap (extend_request (pagesz s) (initial_mapped s) n - PAGE_OVERHEAD)) 0) ;;
       do f' <- FTRP (wrap (wrap (wrap (wrap (a + 8) + 8) + 8) + 8));
       PUT (wrap (f' + 8)) (PACK 0 1) ;;
       add_node (wrap (wrap (wrap (wrap (a + 8) + 8) + 8) + 8)) ;;
       ret (wrap (wrap (wrap (wrap (a + 8) + 8) + 8) + 8)))).
    repeat first [ apply quiet_PUT | apply quiet_FTRP | apply quiet_add_node
                 | apply quiet_ret | apply quiet_bind
                 | match goal with |- forall _, quiet _ => intros ? end ]. }
  destruct Hq as [-> ->]. exists a.
  unfold mem_map in Hmap. st.
  destruct (supply _) as [| a' rest]; injection Hmap as <- <-; by st.
Qed.

(** * Concrete heaps *)

Ltac concrete :=
  repeat match goal with
         | |- _ /\ _ => split
         | |- Forall _ [] => apply Forall_nil
         | |- Forall _ (_ :: _) => apply Forall_cons
         | |- Forall _ ?l => let l' := eval vm_compute in l in change l with l'
         | |- Exists _ (_ :: _) => apply Exists_cons_hd
         | |- Exists _ ?l => let l' := eval vm_compute in l in change l with l'
         | |- ?x ∈ ?l =>
             let x' := eval vm_compute in x in
             let l' := eval vm_compute in l in
             change (x' ∈ l'); apply elem_of_cons; left; reflexivity
         | |- ?a = ?b -> _ =>
             let H := fresh in
             intros H; first [ discriminate H | clear H ]
         | |- NoDup [] => apply NoDup_nil_2
         | |- NoDup (_ :: _) => apply NoDup_cons
         | |- True => exact I
         | |- _ ∉ [] => apply not_elem_of_nil
         | |- _ ∉ _ :: _ => apply not_elem_of_cons
         | |- _ <> _ => vm_compute; discriminate
         | |- _ = _ => vm_compute; reflexivity
         | |- (_ < _)%nat => vm_compute; lia
         | |- _ < _ => vm_compute; reflexivity
         | |- _ <= _ => vm_compute; discriminate
         | |- _ \/ _ => first [left; solve [concrete] | right; solve [concrete]]
         | |- _ => progress cbn [dlseg separated fmap list_fmap fst snd]
         | |- _ => progress unfold free_list, dlist, block_ok, node_ok, tagged,
                     covered, apart, releasable, live, fresh
         end.

Lemma heap1_free_list : free_list heap1 [(base0 + 32, 8160)].
Proof. concrete. Qed.

Lemma heap2_free_list : free_list heap2 [(base0 + 160, 8032)].
Proof. concrete. Qed.

Lemma boot_free_list sup : free_list (boot sup) [].
Proof. by repeat split. Qed.

Lemma heap3_free_list : free_list heap3 [(base0 + 160, 8032)].
Proof. concrete. Qed.

Lemma heap3_live :
  live heap3 [(base0 + 160, 8032)] (base0 + 32) 128 16 1 8032 0.
Proof. concrete. Qed.

(** Releasing the live block of [heap3] gives back the one free block of
    [heap1], and the chunk, being a single page pair, stays mapped. *)
Lemma release_heap3 :
  exists s1,
    free_list s1 [(base0 + 32, 8160)] /\ mapped s1 = mapped heap3 /\
    mm_free (base0 + 32) heap3 = Ok tt s1.
Proof.
  destruct (mm_free_spec heap3 _ _ _ _ _ _ _ heap3_free_list heap3_live)
    as (s1 & Hfl & _ & (Hm & _) & Hno & _).
  - vm_compute. discriminate.
  - concrete.
  - exists s1. split; [exact Hfl |]. split; [exact Hm |].
    apply Hno. unfold sole_probe. by apply andb_false_intro2.
Qed.

(** * The claims *)

(** C1.  An allocation whose block does not fit the chunk mapped for it.
    After two allocations of 100000 bytes the growth tracker stands at
    208896; a third, of 300000 bytes, finds no free block, and [extend]
    falls back on the tracker and maps 212992 bytes.  [mm_malloc] hands out
    the block at the start of that chunk all the same, tagged with the full
    300016 bytes: the block runs 87048 bytes past the end of its chunk, and
    with the first chunk mapped right behind it the footer of the new block
    is written into the payload of the first, live block.  Fewer than
    300000 bytes of the chunk follow the returned address. *)
Theorem allocate_overruns_chunk :
  exists a b c s,
    three_allocations (boot adjacent_supply) = Ok (a, b, c) s /\
    a = base0 + 32 /\ c = base0 - 212992 + 32 /\
    mapped s = [(base0 - 212992, 212992); (base0 + 106496, 212992);
                (base0, 106496)] /\
    calls s = [CallMap 212992 (base0 - 212992);
               CallMap 212992 (base0 + 106496); CallMap 106496 base0] /\
    tagged s a 100016 1 /\ tagged s c 300016 1 /\
    base0 - c < 300000 /\
    a <= c + 300016 - 16 /\ c + 300016 - 8 <= a + 100016 - 16.
Proof.
  eexists _, _, _, _. split; [vm_compute; reflexivity |].
  split; [reflexivity |]. split; [reflexivity |].
  split; [vm_compute; reflexivity |]. split; [vm_compute; reflexivity |].
  split; [split; vm_compute; reflexivity |].
  split; [split; vm_compute; reflexivity |].
  repeat split; vm_compute; first [reflexivity | discriminate].
Qed.

(** A second way the capacity is lost.  Asked for [2^64 - 1] bytes on a
    fresh heap, [mm_malloc] succeeds: the size computation wraps to 16, and
    the block handed out is 16 bytes in all, its footer lying on the very
    word the returned address names. *)
Lemma allocate_capacity_counterexample :
  exists p s',
    mm_malloc 1 (W64 - 1) (boot [base0]) = Ok p s' /\
    p = base0 + 32 /\ tagged s' p 16 1 /\
    tag_size (mem s' !!! HDRP p) - OVERHEAD < W64 - 1.
Proof.
  eexists _, _. split; [vm_compute; reflexivity |].
  split; [reflexivity |]. split; [split; vm_compute; reflexivity |].
  vm_compute. reflexivity.
Qed.

(** Where the allocation does deliver.  On a well-formed free list, for a
    request of [size] bytes with [size + 31 < 2^64], when some free block
    fits, or the page provider grants a fresh aligned chunk and the size
    [extend] asks for holds the block: [mm_malloc] returns a
    non-null address that is a multiple of 16; the block at that address
    carries matching allocated tags of a total size [bs] with
    [size + 16 <= align16(size + 16) <= bs]; it lies in mapped memory and
    overlaps no block of the free list, which stays well formed. *)
Theorem allocate_aligned_capacity s L size fuel :
  free_list s L -> (length L < fuel)%nat ->
  0 <= size -> size + 31 < W64 ->
  (first_fit L (ALIGN (size + OVERHEAD)) = None ->
   grantable s (ALIGN (size + OVERHEAD))) ->
  exists p s' bs L',
    mm_malloc fuel size s = Ok p s' /\ p <> 0 /\ p mod 16 = 0 /\
    tagged s' p bs 1 /\
    size + OVERHEAD <= ALIGN (size + OVERHEAD) <= bs /\
    covered s' (p - 8) (p + bs - 8) /\
    free_list s' L' /\ Forall (apart (p, bs)) L'.
Proof.
  intros Hfl Hfuel Hs0 Hs1 Hgr. unfold OVERHEAD in *.
  assert (Hw : wrap (size + 16) = size + 16) by (apply wrap_small; lia).
  assert (Hn : size + 16 <= ALIGN (size + 16)).
  { rewrite ALIGN_eq, wrap_small by lia. lia. }
  pose proof (mm_malloc_spec s L size fuel) as Hspec.
  cbv zeta in Hspec. unfold OVERHEAD in Hspec. rewrite Hw in Hspec.
  destruct (Hspec Hfl Hfuel ltac:(lia) Hgr)
    as (p & s' & bs & L' & Hrun & Hp0 & Hpal & Hbs & Ht & Hc & Hfl' & Hap).
  exists p, s', bs, L'. split; [done |]. split; [lia |].
  split; [done |]. split; [done |]. split; [lia |].
  split; [done |]. split; done.
Qed.

Lemma allocate_aligned_capacity_witness :
  exists p s' bs L',
    mm_malloc 1 100 (boot [base0]) = Ok p s' /\ p <> 0 /\ p mod 16 = 0 /\
    tagged s' p bs 1 /\
    100 + OVERHEAD <= ALIGN (100 + OVERHEAD) <= bs /\
    covered s' (p - 8) (p + bs - 8) /\
    free_list s' L' /\ Forall (apart (p, bs)) L'.
Proof.
  apply (allocate_aligned_capacity (boot [base0]) [] 100 1).
  - apply boot_free_list.
  - simpl. lia.
  - lia.
  - lia.
  - intros _. unfold grantable. simpl supply. cbv zeta. concrete.
Defined.

(** C2.  Called on a block just tagged free, [coalesce] merges by the
    allocation state [(pa, na)] of the two physical neighbours: both
    allocated, the block alone is pushed on the free list; only the
    successor free, the successor leaves the list and the block, now of the
    summed size, is pushed; only the predecessor free, the predecessor keeps
    its place in the list with the summed size and is the result; both
    free, the successor leaves the list and the predecessor keeps its place
    with the size of all three and is the result.  In every case the
    resulting block carries matching free tags of the combined size at its
    own position. *)
Theorem coalesce_four_cases s L bp sz psz pa nsz na :
  free_list s L -> releasable s L bp sz psz pa nsz na ->
  exists r s' L',
    coalesce bp s = Ok r s' /\ free_list s' L' /\
    tagged s' r (sz + (if pa =? 0 then psz else 0)
                    + (if na =? 0 then nsz else 0)) 0 /\
    (pa = 1 -> na = 1 -> r = bp /\ L' = (bp, sz) :: L) /\
    (pa = 1 -> na = 0 ->
       r = bp /\ L' = (bp, sz + nsz) :: remove_block (bp + sz) L) /\
    (pa = 0 -> na = 1 ->
       r = bp - psz /\ L' = resize_block (bp - psz) (psz + sz) L) /\
    (pa = 0 -> na = 0 ->
       r = bp - psz /\
       L' = resize_block (bp - psz) (psz + sz + nsz)
              (remove_block (bp + sz) L)).
Proof.
  intros Hfl Hrel.
  destruct (coalesce_spec _ _ _ _ _ _ _ _ Hfl Hrel) as (s' & Hrun & Hfl' & _).
  destruct Hrel as (_&_&Hsz&_&Hpsz&_&_&Hpa&Hna&_&_&_&_&_&_&_&Hpin&Hnin).
  exists (coalesced L bp sz psz pa nsz na).1, s',
         (coalesced L bp sz psz pa nsz na).2.
  split; [done |]. split; [done |].
  unfold coalesced in *.
  destruct Hpa as [-> | ->], Hna as [-> | ->]; cbn [Z.eqb Pos.eqb fst snd] in *.
  - split; [| by repeat split].
    replace (sz + psz + nsz) with (psz + sz + nsz) by lia.
    apply (free_list_tagged _ _ (bp - psz, psz + sz + nsz) Hfl').
    apply resize_block_elem.
    apply (list_elem_of_fmap_2 fst _ (bp - psz, psz)).
    apply remove_block_elem; [by apply Hpin | simpl; lia].
  - split; [| by repeat split].
    replace (sz + psz + 0) with (psz + sz) by lia.
    apply (free_list_tagged _ _ (bp - psz, psz + sz) Hfl').
    apply resize_block_elem.
    apply (list_elem_of_fmap_2 fst _ (bp - psz, psz)). by apply Hpin.
  - split; [| by repeat split].
    replace (sz + 0 + nsz) with (sz + nsz) by lia.
    apply (free_list_tagged _ _ (bp, sz + nsz) Hfl'). left.
  - split; [| by repeat split].
    replace (sz + 0 + 0) with sz by lia.
    apply (free_list_tagged _ _ (bp, sz) Hfl'). left.
Qed.

Lemma coalesce_four_cases_witness :
  exists r s' L',
    coalesce (base0 + 32) heap2 = Ok r s' /\ free_list s' L' /\
    tagged s' r (128 + (if 1 =? 0 then 16 else 0)
                     + (if 0 =? 0 then 8032 else 0)) 0 /\
    (1 = 1 -> 0 = 1 -> r = base0 + 32 /\
       L' = (base0 + 32, 128) :: [(base0 + 160, 8032)]) /\
    (1 = 1 -> 0 = 0 ->
       r = base0 + 32 /\
       L' = (base0 + 32, 128 + 8032)
              :: remove_block (base0 + 32 + 128) [(base0 + 160, 8032)]) /\
    (1 = 0 -> 0 = 1 ->
       r = base0 + 32 - 16 /\
       L' = resize_block (base0 + 32 - 16) (16 + 128) [(base0 + 160, 8032)]) /\
    (1 = 0 -> 0 = 0 ->
       r = base0 + 32 - 16 /\
       L' = resize_block (base0 + 32 - 16) (16 + 128 + 8032)
              (remove_block (base0 + 32 + 128) [(base0 + 160, 8032)])).
Proof.
  apply (coalesce_four_cases heap2 [(base0 + 160, 8032)]
           (base0 + 32) 128 16 1 8032 0).
  - exact heap2_free_list.
  - concrete.
Defined.

(** C3.  When no free block fits and the page provider refuses the
    mapping, [mm_malloc] does not return null: [extend] stores through the
    null address [mem_map] gave back, and the call faults. *)
Theorem allocate_refused_faults s L size fuel :
  free_list s L -> (length L < fuel)%nat ->
  first_fit L (ALIGN (wrap (size + OVERHEAD))) = None ->
  hd 0 (supply s) = 0 -> valid s 0 = false ->
  mm_malloc fuel size s = Fault.
Proof.
  intros Hfl Hfuel Hff Hsup Hv. unfold mm_malloc. unfold bind at 1.
  rewrite (find_fit_spec _ _ _ _ Hfl Hfuel), Hff. cbn [from_option negb Z.eqb].
  unfold bind at 1. unfold extend. unfold bind at 1. rewrite extend_size_run.
  unfold bind at 1, mem_map. st.
  destruct (supply s) as [| a rest]; simpl in Hsup.
  - unfold bind at 1, PUT, valid. st. unfold valid in Hv. by rewrite Hv.
  - subst a. unfold bind at 1, PUT, valid. st. cbn [Z.eqb].
    unfold valid in Hv. by rewrite Hv.
Qed.

Lemma allocate_refused_faults_witness : mm_malloc 1 100 (boot []) = Fault.
Proof.
  apply (allocate_refused_faults (boot []) [] 100 1).
  - apply boot_free_list.
  - simpl. lia.
  - reflexivity.
  - reflexivity.
  - reflexivity.
Defined.

(** C4.  [set_allocated] on a block [(bp, bsz)] of the free list chosen for
    a need of [n] bytes: the block leaves the free list; when the remainder
    [bsz - n] exceeds 32 bytes, [bp] becomes an allocated block of exactly
    [n] bytes with matching tags and the remainder is pushed on the list as
    a free block; otherwise [bp] is allocated whole with its original size.
    Every block then on the list is a well-formed free block, of at least
    the minimum size. *)
Theorem set_allocated_split s L1 L2 bp bsz n :
  free_list s (L1 ++ (bp, bsz) :: L2) ->
  n mod 16 = 0 -> 16 <= n <= bsz ->
  exists s' L',
    set_allocated bp n s = Ok tt s' /\ free_list s' L' /\
    Forall (fun b => 32 <= b.2) L' /\ (bp ∉ L'.*1) /\
    (32 < bsz - n ->
       tagged s' bp n 1 /\ L' = (bp + n, bsz - n) :: L1 ++ L2) /\
    (bsz - n <= 32 -> tagged s' bp bsz 1 /\ L' = L1 ++ L2).
Proof.
  intros Hfl Hn Hr.
  destruct (set_allocated_spec _ _ _ _ _ _ Hfl Hn Hr) as (s' & Hrun & _ & Hres).
  destruct (free_list_split _ _ (bp, bsz) Hfl) as (L1' & L2' & HL & H1 & H2).
  { apply elem_of_app. right. left. }
  assert (Hnot : bp ∉ (L1 ++ L2).*1).
  { destruct Hfl as (_ & Hok & Hs).
    pose proof (separated_NoDup _ _ Hok Hs) as Hnd.
    rewrite fmap_app, fmap_cons in Hnd. simpl in Hnd.
    apply NoDup_app in Hnd as (_ & H12 & Hnd).
    apply NoDup_cons in Hnd as [H2' _].
    rewrite fmap_app, elem_of_app. intros [Hin | Hin]; [| done].
    apply (H12 _ Hin). left. }
  assert (Hmin : forall L', free_list s' L' -> Forall (fun b => 32 <= b.2) L').
  { intros L' (_ & Hok & _). eapply Forall_impl; [exact Hok |].
    by intros b (_&_&_&?&_). }
  destruct (Z.ltb_spec 32 (bsz - n)) as [Hlt | Hge].
  - destruct Hres as (Ht & Hfl' & _).
    exists s', ((bp + n, bsz - n) :: L1 ++ L2).
    split; [done |]. split; [done |]. split; [by apply Hmin |].
    split; [| split; [done | lia]].
    rewrite fmap_cons, not_elem_of_cons. simpl. split; [lia | done].
  - destruct Hres as (Ht & Hfl').
    exists s', (L1 ++ L2).
    split; [done |]. split; [done |]. split; [by apply Hmin |].
    split; [done |]. split; [lia | done].
Qed.

Lemma set_allocated_split_witness :
  exists s' L',
    set_allocated (base0 + 32) 32 heap1 = Ok tt s' /\ free_list s' L' /\
    Forall (fun b => 32 <= b.2) L' /\ (base0 + 32 ∉ L'.*1) /\
    (32 < 8160 - 32 ->
       tagged s' (base0 + 32) 32 1 /\
       L' = (base0 + 32 + 32, 8160 - 32) :: [] ++ []) /\
    (8160 - 32 <= 32 -> tagged s' (base0 + 32) 8160 1 /\ L' = [] ++ []).
Proof.
  apply (set_allocated_split heap1 [] [] (base0 + 32) 8160 32).
  - exact heap1_free_list.
  - reflexivity.
  - lia.
Defined.

(** C5.  A chunk request below the needed size.  After one allocation of
    126900 bytes the growth tracker stands at 126976 (31 pages).  For a
    need of 200016 bytes the doubled tracker, page-rounded, is 258048, above
    the threshold of 60 pages, and the needed size alone, page-rounded, is
    200704: above the tracker, so the policy of the specification settles
    on 200704.  [extend] compares 200704 only with the doubled tracker,
    falls through to its last branch and keeps the tracker: it asks the
    provider for 131072 bytes and leaves the tracker at 126976.  The block
    of 200016 bytes does not fit that chunk, and the allocation of 200000
    bytes faults on the store of its footer. *)
Theorem extend_reuses_stale_tracker :
  exists a s p s2,
    (mm_init ;; mm_malloc 4 126900) (boot [base0; 2 * base0]) = Ok a s /\
    pagesz s = 4096 /\ initial_mapped s = 126976 /\
    ALIGN (200000 + OVERHEAD) = 200016 /\
    spec_chunk_size 4096 126976 200016 = 200704 /\
    extend 200016 s = Ok p s2 /\
    calls s2 = CallMap 131072 (2 * base0) :: calls s /\
    initial_mapped s2 = 126976 /\
    mm_malloc 4 200000 s = Fault.
Proof.
  eexists _, _, _, _. split; [vm_compute; reflexivity |].
  split; [reflexivity |]. split; [vm_compute; reflexivity |].
  split; [vm_compute; reflexivity |]. split; [vm_compute; reflexivity |].
  split; [vm_compute; reflexivity |].
  repeat split; vm_compute; reflexivity.
Qed.

(** Besides, every request carries the chunk overhead twice.  The very
    first extension of a fresh heap, for a need of 32 bytes with 4096-byte
    pages, asks the provider for 8192 bytes:
    the size the policy settles on is 4096, as the specification computes,
    and [extend] adds the chunk overhead and rounds up a second time. *)
Lemma extend_request_counterexample :
  exists bp s',
    extend 32 (boot [base0]) = Ok bp s' /\
    calls s' = [CallMap 8192 base0] /\
    spec_chunk_size 4096 0 32 = 4096.
Proof.
  eexists _, _. split; [vm_compute; reflexivity |].
  split; vm_compute; reflexivity.
Qed.

Lemma round_up_max p x y :
  0 < p ->
  round_up p (Z.max x y + PAGE_OVERHEAD) =
    Z.max (round_up p (x + PAGE_OVERHEAD)) (round_up p (y + PAGE_OVERHEAD)).
Proof.
  intros Hp. destruct (Z.le_ge_cases x y) as [Hxy | Hxy].
  - pose proof (round_up_mono p (x + PAGE_OVERHEAD) (y + PAGE_OVERHEAD) Hp ltac:(lia)).
    rewrite !Z.max_r by lia. reflexivity.
  - pose proof (round_up_mono p (y + PAGE_OVERHEAD) (x + PAGE_OVERHEAD) Hp ltac:(lia)).
    rewrite !Z.max_l by lia. reflexivity.
Qed.

(** The branches of [extend] that follow the policy.  With pages of [2^k]
    bytes and sizes that do not overflow,
    [extend] settles on a size [chosen] and asks the provider for
    [chosen + overhead] rounded up to a page, one overhead-and-rounding step
    beyond the policy's own.  With [candidate] the page-rounded
    [max(2 * tracker, needed) + overhead]: when the candidate is at most the
    threshold, [chosen] is the candidate and becomes the tracker; when it is
    above and the needed size alone (with overhead, page-rounded) exceeds the
    page-rounded doubled tracker, [chosen] is that size and becomes the
    tracker; when it is above and the needed size alone is at most the
    tracker, [chosen] is the tracker, left unchanged. *)
Theorem extend_size_policy s n k :
  pagesz s = 2 ^ k -> 0 <= k <= 32 ->
  0 <= initial_mapped s <= 2 ^ 62 -> 0 <= n <= 2 ^ 62 ->
  let p := pagesz s in
  let im := initial_mapped s in
  let candidate := round_up p (Z.max (2 * im) n + PAGE_OVERHEAD) in
  let alone := round_up p (n + PAGE_OVERHEAD) in
  exists chosen,
    extend_size n s =
      Ok (round_up p (chosen + PAGE_OVERHEAD)) (set_initial_mapped s chosen) /\
    (forall bp s', extend n s = Ok bp s' ->
       exists a, calls s' = CallMap (round_up p (chosen + PAGE_OVERHEAD)) a :: calls s /\
                 initial_mapped s' = chosen) /\
    (candidate <= THRESHOLD -> chosen = candidate) /\
    (THRESHOLD < candidate ->
       round_up p (2 * im + PAGE_OVERHEAD) < alone -> chosen = alone) /\
    (THRESHOLD < candidate -> alone <= im -> chosen = im).
Proof.
  intros Hpg Hk Him Hn p im candidate alone.
  destruct (chunk_choice_cases k (initial_mapped s) n Hk Him Hn) as (Hch & Hreq & Hb).
  cbv zeta in Hch, Hreq. rewrite <- Hpg in Hch, Hreq. fold p im in Hch, Hreq, Hb.
  pose proof (pow2_range k Hk) as Hp. rewrite <- Hpg in Hp. fold p in Hp.
  exists (chunk_choice p im n). unfold PAGE_OVERHEAD at 1 2.
  split; [rewrite extend_size_run; fold p im; by rewrite Hreq |].
  split.
  { intros bp s' Hrun. destruct (extend_calls _ _ _ _ Hrun) as (a & Hc & Hi).
    fold p im in Hc, Hi. exists a. by rewrite <- Hreq. }
  assert (Hcand : candidate =
            Z.max (round_up p (im * 2 + 32)) (round_up p (n + 32))).
  { unfold candidate. rewrite round_up_max by lia. unfold PAGE_OVERHEAD.
    by replace (2 * im) with (im * 2) by lia. }
  unfold alone, PAGE_OVERHEAD. replace (2 * im) with (im * 2) by lia.
  rewrite Hch, Hcand.
  pose proof (round_up_bounds p (im * 2 + 32) ltac:(lia)).
  pose proof (round_up_bounds p (n + 32) ltac:(lia)).
  destruct (Z.ltb_spec (round_up p (im * 2 + 32)) (round_up p (n + 32)));
    [| destruct (Z.leb_spec (round_up p (im * 2 + 32)) THRESHOLD)];
    repeat split; intros; lia.
Qed.

Lemma extend_size_policy_witness :
  let p := pagesz (boot [base0]) in
  let im := initial_mapped (boot [base0]) in
  let candidate := round_up p (Z.max (2 * im) 32 + PAGE_OVERHEAD) in
  let alone := round_up p (32 + PAGE_OVERHEAD) in
  exists chosen,
    extend_size 32 (boot [base0]) =
      Ok (round_up p (chosen + PAGE_OVERHEAD))
         (set_initial_mapped (boot [base0]) chosen) /\
    (forall bp s', extend 32 (boot [base0]) = Ok bp s' ->
       exists a, calls s' = CallMap (round_up p (chosen + PAGE_OVERHEAD)) a
                              :: calls (boot [base0]) /\
                 initial_mapped s' = chosen) /\
    (candidate <= THRESHOLD -> chosen = candidate) /\
    (THRESHOLD < candidate ->
       round_up p (2 * im + PAGE_OVERHEAD) < alone -> chosen = alone) /\
    (THRESHOLD < candidate -> alone <= im -> chosen = im).
Proof.
  apply (extend_size_policy (boot [base0]) 32 12).
  - reflexivity.
  - lia.
  - simpl. lia.
  - lia.
Defined.

(** C6.  A release after which the coalesced block is not bounded by the
    prologue: a live 16-byte block [a] sits between the prologue and the
    block being merged.  Retagging and coalescing go through and yield the
    block at [a + 16], of 106448 bytes.  The probe 24 bytes before that
    payload reads the header of [a] and takes its size 16 for the
    prologue's; the range [mm_free] then means to unmap starts 16 bytes into
    the chunk and is no mapped region, and the call faults instead of
    leaving the block on the free list. *)
Theorem release_probe_misfires :
  exists y z a s s1,
    zero_at_chunk_start (boot [base0]) = Ok (y, z, a) s /\
    a = base0 + 32 /\ tagged s a 16 1 /\
    mapped s = [(base0, 106496)] /\
    (do size <- GET_SIZE (HDRP z);
     PUT (HDRP z) (PACK size 0) ;;
     do f <- FTRP z;
     PUT f (PACK size 0) ;;
     coalesce z) s = Ok (a + 16) s1 /\
    tag_size (mem s1 !!! (a + 16 - 24)) = OVERHEAD /\
    tag_size (mem s1 !!! HDRP (a + 16)) = 106448 /\
    existsb (region_eqb (a + 16 - PAGE_OVERHEAD, 106448 + PAGE_OVERHEAD))
      (mapped s1) = false /\
    mm_free z s = Fault.
Proof.
  eexists _, _, _, _, _. split; [vm_compute; reflexivity |].
  split; [reflexivity |].
  split; [split; vm_compute; reflexivity |].
  split; [vm_compute; reflexivity |].
  split; [vm_compute; reflexivity |].
  repeat split; vm_compute; reflexivity.
Qed.

(** C7.  [mm_init] empties the free list and leaves the growth tracker as
    it found it: after a first allocation has set the tracker to 4096, a
    second [mm_init] still finds it at 4096, not at its starting value 0. *)
Theorem init_keeps_tracker :
  (forall s, exists s',
      mm_init s = Ok 0 s' /\ list_head s' = 0 /\
      initial_mapped s' = initial_mapped s) /\
  exists p s s',
    (mm_init ;; mm_malloc 1 1) (boot [base0]) = Ok p s /\
    initial_mapped (boot [base0]) = 0 /\ initial_mapped s = 4096 /\
    mm_init s = Ok 0 s' /\ initial_mapped s' = 4096.
Proof.
  split.
  - intros s. exists (set_list_head s 0). by repeat split.
  - eexists _, _, _. split; [vm_compute; reflexivity |].
    split; [reflexivity |]. split; [reflexivity |].
    split; reflexivity.
Qed.

(** C8.  After [init], a zero-byte allocation [a], a one-byte allocation
    [b] and the release of [a], header and footer disagree on two blocks:
    the 16-byte block [a] has a header reading (16, free) and a footer word
    of 0, overwritten by its own [prev] link, and the live block [b] has the
    list's former head pointer stored over its header while its footer still
    reads (32, allocated). *)
Theorem release_of_zero_block_breaks_tags :
  exists a b s,
    zero_then_one (boot [base0]) = Ok (a, b) s /\
    b = a + 16 /\
    mem s !!! HDRP a = PACK 16 0 /\ mem s !!! (a + 16 - OVERHEAD) = 0 /\
    mem s !!! HDRP b = a + 48 /\ mem s !!! (b + 32 - OVERHEAD) = PACK 32 1.
Proof.
  eexists _, _, _. split; [vm_compute; reflexivity |].
  split; [reflexivity |].
  repeat split; vm_compute; reflexivity.
Qed.



(** C10.  The free list stays a well-formed doubly-linked list across
    [add_node] and [delete_node].  From any well-formed list, the empty one
    included: pushing any fresh node [bp] returns and makes [bp] the head,
    and removing any listed node [n] returns; either way what is left is a
    null-terminated list of distinct nodes in which the head's [prev] is
    null, every non-null [next] points to a node whose [prev] points back,
    and every non-null [prev] points to a node whose [next] points back. *)
Theorem free_list_stays_linked s l :
  dlist s l ->
  (forall bp, node_ok s bp -> bp ∉ l ->
     exists s',
       add_node bp s = Ok tt s' /\ list_head s' = bp /\
       dlist s' (bp :: l) /\ links_ok s' (bp :: l)) /\
  (forall l1 n l2, l = l1 ++ n :: l2 ->
     exists s',
       delete_node n s = Ok tt s' /\
       dlist s' (l1 ++ l2) /\ links_ok s' (l1 ++ l2)).
Proof.
  intros Hdl. split.
  - intros bp Hbp Hfresh.
    destruct (add_node_links _ _ _ Hdl Hbp Hfresh) as (s' & Hrun & Hdl' & Hh & _).
    exists s'. split; [done |]. split; [done |]. split; [done |].
    by apply dlist_links_ok.
  - intros l1 n l2 ->.
    destruct (delete_node_links _ _ _ _ Hdl) as (s' & Hrun & Hdl' & _).
    exists s'. split; [done |]. split; [done |]. by apply dlist_links_ok.
Qed.

Lemma free_list_stays_linked_witness :
  ((exists s',
      add_node (base0 + 32) heap2 = Ok tt s' /\ list_head s' = base0 + 32 /\
      dlist s' ((base0 + 32) :: [base0 + 160]) /\
      links_ok s' ((base0 + 32) :: [base0 + 160])) /\
   (exists s',
      delete_node (base0 + 160) heap2 = Ok tt s' /\
      dlist s' ([] ++ []) /\ links_ok s' ([] ++ []))) /\
  (exists s',
     add_node (base0 + 32) heap0 = Ok tt s' /\ list_head s' = base0 + 32 /\
     dlist s' ((base0 + 32) :: []) /\ links_ok s' ((base0 + 32) :: [])).
Proof.
  split.
  - destruct (free_list_stays_linked heap2 [base0 + 160]) as [Hadd Hdel];
      [concrete |].
    split; [apply Hadd; concrete | by apply (Hdel [] (base0 + 160) [])].
  - destruct (free_list_stays_linked heap0 []) as [Hadd _]; [concrete |].
    apply Hadd; concrete.
Defined.

(** * Further properties of the code *)

(** ** Auxiliary lemmas *)

Lemma region_eqb_eq r r' : region_eqb r r' = true <-> r = r'.
Proof.
  unfold region_eqb. destruct r, r'. simpl.
  rewrite andb_true_iff, !Z.eqb_eq. split; [intros [-> ->]; done | by intros [= -> ->]].
Qed.

Lemma remove_region_elem r r' l : r' ∈ l -> r' <> r -> r' ∈ remove_region r l.
Proof.
  induction l as [| x l IH]; [by intros ?%elem_of_nil |].
  intros Hin Hne. simpl. destruct (region_eqb r x) eqn:E.
  - apply region_eqb_eq in E as <-.
    apply elem_of_cons in Hin as [? | ?]; [done | done].
  - apply elem_of_cons in Hin as [-> | ?]; [left | right; by apply IH].
Qed.

Lemma existsb_region r l : existsb (region_eqb r) l = true <-> r ∈ l.
Proof.
  rewrite existsb_exists. split.
  - intros (x & Hx & E). apply region_eqb_eq in E as <-. by apply list_elem_of_In.
  - intros Hin. exists r. split; [by apply list_elem_of_In | by apply region_eqb_eq].
Qed.

Lemma free_list_remapped s s' L :
  free_list s L -> list_head s' = list_head s -> mem s' = mem s ->
  (forall b, b ∈ L -> covered s' (b.1 - 8) (b.1 + b.2 - 8)) ->
  free_list s' L.
Proof.
  intros (Hd & Hok & Hs) Hh Hm Hcov. split; [| split; [| done]].
  - by rewrite Hh, Hm.
  - apply Forall_forall. intros b Hb. rewrite Forall_forall in Hok.
    destruct (Hok b Hb) as (?&?&?&?&?&Hc&Ht1&Ht2).
    unfold block_ok, tagged. rewrite Hm. repeat split; try done. by apply Hcov.
Qed.

(** No free block keeps its links on the word 24 bytes before the merged
    block when a prologue footer sits 16 bytes before it, nor on the last
    word of the merged block's span. *)
Lemma probes_off_links s L bp sz psz pa nsz na :
  let r := (merged bp sz psz pa nsz na).1 in
  let total := (merged bp sz psz pa nsz na).2 in
  free_list s L -> live s L bp sz psz pa nsz na ->
  mem s !!! (r - 16) = PACK 16 1 ->
  ~ links L (r - 24) /\ ~ links L (r + total - 8).
Proof.
  intros r total Hfl Hlive Hpro.
  destruct Hlive as (Hal & Hsal & Hmin & Hpal & Hpmin & Hnal & Hnmin & Hpa & Hna &
              Hlo & Hhi & Hc & [Ht1 Ht2] & [Hp1 Hp2] & Hnh & Hap & Hpin & Hnin).
  destruct (merged_bounds bp sz psz pa nsz na Hpa Hna) as (Hr1 & Hr2).
  fold r total in Hr1, Hr2. clearbody r total.
  pose proof Hfl as (_ & Hok & Hsep).
  rewrite Forall_forall in Hok, Hap.
  assert (H17 : PACK 16 1 = 17) by reflexivity.
  split; intros Hl; apply Exists_exists in Hl as (b & Hb & Hab).
  - destruct (Hok b Hb) as (_ & Hbal & Hbsal & Hb32 & _ & _ & _ & Hbf).
    specialize (Hap b Hb). rewrite PACK_free in Hbf.
    destruct Hpa as [-> | ->]; cbn [Z.eqb Pos.eqb] in Hr1.
    + pose proof (separated_elem L b (bp - psz, psz) Hsep Hb (Hpin eq_refl)) as [-> | Hbp];
        [simpl in Hab; lia |].
      unfold apart in Hbp, Hap. simpl in Hbp, Hap.
      assert (b.1 + b.2 - 16 = r - 16) by lia.
      rewrite H in Hbf. rewrite Hbf in Hpro. lia.
    + unfold apart in Hap. simpl in Hap.
      assert (b.1 + b.2 - 16 = r - 16) by lia.
      rewrite H in Hbf. rewrite Hbf in Hpro. lia.
  - destruct (Hok b Hb) as (_ & Hbal & Hbsal & Hb32 & _).
    specialize (Hap b Hb). unfold apart in Hap. simpl in Hap.
    destruct Hna as [-> | ->]; cbn [Z.eqb Pos.eqb] in Hr2.
    + destruct (Hok _ (Hnin eq_refl)) as (_ & _ & _ & Hn32 & _). simpl in Hn32.
      pose proof (separated_elem L b (bp + sz, nsz) Hsep Hb (Hnin eq_refl)) as [-> | Hbp];
        [simpl in Hab; lia |].
      unfold apart in Hbp. simpl in Hbp. lia.
    + lia.
Qed.

(** Every block [coalesce] leaves on the list is the merged block or was
    on the list before. *)
Lemma coalesced_elem L bp sz psz pa nsz na b :
  b ∈ (coalesced L bp sz psz pa nsz na).2 ->
  b = merged bp sz psz pa nsz na \/ b ∈ L.
Proof.
  unfold coalesced, merged.
  destruct (pa =? 0), (na =? 0); cbn [fst snd]; intros Hb.
  - unfold resize_block in Hb. apply list_elem_of_fmap in Hb as (c & -> & Hc).
    apply list_elem_of_filter in Hc as [_ Hc].
    destruct (c.1 =? bp - psz); [left; f_equal; lia | by right].
  - unfold resize_block in Hb. apply list_elem_of_fmap in Hb as (c & -> & Hc).
    destruct (c.1 =? bp - psz); [left; f_equal; lia | by right].
  - apply elem_of_cons in Hb as [-> | Hb]; [left; f_equal; lia |].
    apply list_elem_of_filter in Hb as [_ Hb]. by right.
  - apply elem_of_cons in Hb as [-> | Hb]; [left; f_equal; lia | by right].
Qed.

Lemma remove_block_length x L : (length (remove_block x L) <= length L)%nat.
Proof. unfold remove_block. apply length_filter. Qed.

(** The size [mm_malloc] computes for a request that does not overflow. *)
Lemma full_size_eq size :
  0 <= size -> size + 31 < W64 ->
  ALIGN (wrap (size + OVERHEAD)) = ALIGN (size + OVERHEAD) /\
  size + 16 <= ALIGN (size + OVERHEAD) < size + 32 /\
  ALIGN (size + OVERHEAD) mod 16 = 0.
Proof.
  intros H0 H1. unfold OVERHEAD. rewrite (wrap_small (size + 16)) by lia.
  split; [done |]. rewrite ALIGN_eq, wrap_small by lia. lia.
Qed.

Lemma links_sublist L1 b L2 a : links (L1 ++ L2) a -> links (L1 ++ b :: L2) a.
Proof.
  rewrite !links_app. intros [? | ?]; [by left | right; by apply Exists_cons_tl].
Qed.

(** [mm_malloc] when a free block fits: the first such block is taken
    through [set_allocated], and nothing else happens. *)
Lemma mm_malloc_fit s L bp bsz size fuel :
  let n := ALIGN (wrap (size + OVERHEAD)) in
  free_list s L -> (length L < fuel)%nat -> 16 <= n ->
  first_fit L n = Some (bp, bsz) ->
  exists s' L1 L2,
    L = L1 ++ (bp, bsz) :: L2 /\ Forall (fun b => b.2 < n) L1 /\ n <= bsz /\
    mm_malloc fuel size s = Ok bp s' /\
    frame (fun a => bp - 8 <= a < bp + bsz - 8 \/ links (L1 ++ L2) a) s s' /\
    if 32 <? bsz - n
    then tagged s' bp n 1 /\ free_list s' ((bp + n, bsz - n) :: L1 ++ L2)
    else tagged s' bp bsz 1 /\ free_list s' (L1 ++ L2).
Proof.
  intros n Hfl Hfuel Hn Hff.
  pose proof (ALIGN_range (wrap (size + OVERHEAD))) as [Hnr Hnal]. fold n in Hnr, Hnal.
  unfold mm_malloc. fold n. unfold bind at 1.
  rewrite (find_fit_spec _ _ _ _ Hfl Hfuel), Hff. cbn [from_option fst].
  apply first_fit_elem in Hff as (L1 & L2 & -> & Hle & Hsm). simpl in Hle.
  assert (Hb : block_ok s (bp, bsz)).
  { destruct Hfl as (_ & Hok & _). apply Forall_app in Hok as [_ Hok].
    by apply Forall_cons in Hok as [? _]. }
  destruct Hb as (Hb0 & Hbal & _). simpl in Hb0, Hbal.
  destruct (Z.eqb_spec bp 0) as [? | _]; [lia |]. cbn [negb].
  destruct (set_allocated_spec _ _ _ _ _ _ Hfl Hnal (conj Hn Hle))
    as (s' & Hrun & Hf & Hres).
  unfold bind at 1. rewrite Hrun. unfold ret.
  exists s', L1, L2. do 5 (split; [done |]).
  destruct (32 <? bsz - n); [by destruct Hres as (? & ? & _) | done].
Qed.

(** [mm_malloc] when no free block fits and the provider grants the chunk:
    one chunk is mapped, formatted and put at the head of the free list,
    and its block is taken through [set_allocated]. *)
Lemma mm_malloc_grow s L size fuel a rest :
  let n := ALIGN (wrap (size + OVERHEAD)) in
  let req := extend_request (pagesz s) (initial_mapped s) n in
  free_list s L -> (length L < fuel)%nat -> 16 <= n ->
  first_fit L n = None -> supply s = a :: rest -> grantable s n ->
  exists s',
    mm_malloc fuel size s = Ok (a + 32) s' /\
    mapped s' = (a, req) :: mapped s /\ calls s' = CallMap req a :: calls s /\
    supply s' = rest /\
    initial_mapped s' = chunk_choice (pagesz s) (initial_mapped s) n /\
    (forall x, ~ (a <= x < a + req) -> ~ links L x -> mem s' !!! x = mem s !!! x) /\
    mem s' !!! a = 0 /\
    mem s' !!! (a + 8) = PACK 16 1 /\ mem s' !!! (a + 16) = PACK 16 1 /\
    mem s' !!! (a + req - 8) = PACK 0 1 /\
    if 32 <? req - 32 - n
    then tagged s' (a + 32) n 1 /\
         free_list s' ((a + 32 + n, req - 32 - n) :: L)
    else tagged s' (a + 32) (req - 32) 1 /\ free_list s' L.
Proof.
  intros n req Hfl Hfuel Hn Hff Hsup Hgr.
  pose proof (ALIGN_range (wrap (size + OVERHEAD))) as [Hnr Hnal]. fold n in Hnr, Hnal.
  unfold mm_malloc. fold n. unfold bind at 1.
  rewrite (find_fit_spec _ _ _ _ Hfl Hfuel), Hff. cbn [from_option].
  unfold grantable in Hgr. rewrite Hsup in Hgr. fold req in Hgr.
  destruct Hgr as (Ha0 & Haal & Hmax & Hfr & Hral & Hrmin & Hfit).
  change (0 =? 0) with true. cbn [negb].
  destruct (extend_spec s L n a rest Hfl Hsup Ha0 Haal Hral Hrmin Hmax Hfr)
    as (s1 & Hext & Hfl1 & Hm1 & Hs1 & Hi1 & Hp1 & Hc1 & Hpad & Hpro1 & Hpro2 &
        Hterm & Hmem1).
  fold req in Hfl1, Hm1, Hc1, Hterm, Hmem1.
  unfold bind at 1. rewrite Hext.
  destruct (Z.eqb_spec (a + 32) 0) as [? | _]; [lia |]. cbn [negb].
  rewrite run_get_list_head.
  assert (Hh : list_head s1 = a + 32).
  { destruct Hfl1 as (Hd & _). simpl in Hd. by destruct Hd as (? & _). }
  rewrite Hh.
  assert (Hr : 16 <= n <= req - 32) by lia.
  destruct (set_allocated_spec s1 [] L (a + 32) (req - 32) n Hfl1 Hnal Hr)
    as (s' & Hrun & Hf & Hres).
  unfold bind at 1. rewrite Hrun. unfold ret.
  destruct Hf as (Hm & Him & Hpg & Hsp & Hcl & Hmem).
  assert (Hkeep : forall x, ~ (a + 24 <= x < a + req - 8) -> ~ links L x ->
                            mem s' !!! x = mem s1 !!! x).
  { intros x H1 H2. apply Hmem. simpl. intros [? | ?]; [lia | done]. }
  assert (Hnl : forall x, a <= x < a + req -> ~ (a + 24 <= x < a + req - 8) ->
                          ~ links L x).
  { intros x Hx _ Hl. apply Exists_exists in Hl as (b & Hb & Hxb).
    destruct Hfl as (_ & Hok & _). rewrite Forall_forall in Hok.
    destruct (Hok b Hb) as (?&?&?&?&?&Hcb&_).
    destruct (covered_fresh _ _ _ _ _ Hfr Hcb); lia. }
  exists s'. split; [done |].
  split; [by rewrite Hm |]. split; [by rewrite Hcl |]. split; [by rewrite Hsp |].
  split; [by rewrite Him |].
  split; [intros x H1 H2; rewrite Hkeep by (try done; lia); by apply Hmem1 |].
  do 4 (split; [rewrite Hkeep by (try lia; apply Hnl; lia); done |]).
  replace (a + 32 + (req - 32) - 8) with (a + req - 8) in * by lia.
  destruct (32 <? req - 32 - n); [by destruct Hres as (? & ? & _) | done].
Qed.

Lemma bind_assoc {A B C} (c : M A) (k1 : A -> M B) (k2 : B -> M C) s :
  bind (bind c k1) k2 s = bind c (fun x => bind (k1 x) k2) s.
Proof. unfold bind. by destruct (c s). Qed.

Lemma bind_ret {A B} (a : A) (k : A -> M B) s : bind (ret a) k s = k a s.
Proof. reflexivity. Qed.

Lemma quiet_GET_SIZE p : quiet (GET_SIZE p).
Proof. unfold GET_SIZE. quiet_tac. Qed.

Lemma quiet_GET_ALLOC p : quiet (GET_ALLOC p).
Proof. unfold GET_ALLOC. quiet_tac. Qed.

Lemma quiet_NEXT_BLKP bp : quiet (NEXT_BLKP bp).
Proof. unfold NEXT_BLKP, GET_SIZE. quiet_tac. Qed.

Lemma quiet_PREV_BLKP bp : quiet (PREV_BLKP bp).
Proof. unfold PREV_BLKP, GET_SIZE. quiet_tac. Qed.

Lemma quiet_delete_node bp : quiet (delete_node bp).
Proof. unfold delete_node. quiet_tac. Qed.

Ltac quiet_more :=
  repeat first
    [ apply quiet_ret | apply quiet_GET | apply quiet_PUT
    | apply quiet_GET_SIZE | apply quiet_GET_ALLOC
    | apply quiet_FTRP | apply quiet_NEXT_BLKP | apply quiet_PREV_BLKP
    | apply quiet_add_node | apply quiet_delete_node
    | apply quiet_get_list_head | apply quiet_put_list_head
    | apply quiet_bind
    | match goal with |- forall _, quiet _ => intros ? end
    | match goal with |- quiet (if ?b then _ else _) => destruct b end ].

Lemma quiet_set_allocated bp n : quiet (set_allocated bp n).
Proof. unfold set_allocated. quiet_more. Qed.

(** The search reads and never writes: whatever the list looks like, a
    search that returns leaves the state as it found it. *)
Lemma find_fit_from_pure fuel : forall h asize s r s',
  find_fit_from fuel h asize s = Ok r s' -> s' = s.
Proof.
  induction fuel as [| fuel IH]; intros h asize s r s'; simpl; [done |].
  destruct (h =? 0); [by intros [= _ <-] |].
  unfold bind at 1, GET_SIZE, bind at 1, GET, ret.
  destruct (valid s (HDRP h)); [| done].
  destruct (asize <=? _); [by intros [= _ <-] |].
  unfold bind at 1, GET. destruct (valid s (next_field h)); [| done].
  apply IH.
Qed.

Lemma steady_bind {A B} (c : M A) (k : A -> M B) :
  steady c -> (forall a, steady (k a)) -> steady (bind c k).
Proof.
  intros Hc Hk s b s' Hrun. unfold bind in Hrun.
  destruct (c s) as [a s1 | |] eqn:Hcs; [| done | done].
  by eapply (frame_trans _ _ _ _ _ _ (Hc _ _ _ Hcs) (Hk _ _ _ _ Hrun)).
Qed.

Lemma steady_ret {A} (a : A) : steady (ret a).
Proof. intros s b s' [= _ <-]. apply frame_refl. Qed.

Lemma steady_GET p : steady (GET p).
Proof.
  intros s a s'. unfold GET. destruct (valid s p); [| done].
  intros [= _ <-]. apply frame_refl.
Qed.

Lemma steady_PUT p v : steady (PUT p v).
Proof.
  intros s a s'. unfold PUT. destruct (valid s p); [| done].
  intros [= _ <-]. repeat split. intros x Hx. by destruct Hx.
Qed.

Lemma steady_get_list_head : steady get_list_head.
Proof. intros s a s' [= _ <-]. apply frame_refl. Qed.

Lemma steady_put_list_head h : steady (put_list_head h).
Proof. intros s a s' [= _ <-]. repeat split. Qed.

Ltac steady_tac :=
  repeat first
    [ apply steady_ret | apply steady_GET | apply steady_PUT
    | apply steady_get_list_head | apply steady_put_list_head
    | apply steady_bind
    | match goal with |- forall _, steady _ => intros ? end
    | match goal with |- steady (if ?b then _ else _) => destruct b end ].

Lemma steady_GET_SIZE p : steady (GET_SIZE p).
Proof. unfold GET_SIZE. steady_tac. Qed.

Lemma steady_FTRP bp : steady (FTRP bp).
Proof. unfold FTRP, GET_SIZE. steady_tac. Qed.

Lemma steady_delete_node bp : steady (delete_node bp).
Proof. unfold delete_node. steady_tac. Qed.

Lemma steady_coalesce bp : steady (coalesce bp).
Proof.
  unfold coalesce, add_node, delete_node, NEXT_BLKP, PREV_BLKP, FTRP,
    GET_SIZE, GET_ALLOC.
  steady_tac.
Qed.

(** Running a steady computation ahead of [k] moves the state along a
    frame and hands over to [k]. *)
Lemma steady_step {A B} (c : M A) (k : A -> M B) s0 s r s' :
  steady c -> frame (fun _ => True) s0 s -> bind c k s = Ok r s' ->
  exists a s1, frame (fun _ => True) s0 s1 /\ k a s1 = Ok r s'.
Proof.
  intros Hc Hf Hrun. unfold bind in Hrun.
  destruct (c s) as [a s1 | |] eqn:Hcs; [| done | done].
  exists a, s1. split; [| done].
  by eapply (frame_trans _ _ _ _ _ _ Hf (Hc _ _ _ Hcs)).
Qed.


(** ** More concrete heaps *)

Lemma heap4_free_list : free_list heap4 [(base0 + 100048, 6448)].
Proof. concrete. Qed.

Lemma heap4_live :
  live heap4 [(base0 + 100048, 6448)] (base0 + 32) 100016 16 1 6448 0.
Proof. concrete. Qed.

Lemma heap5_free_list : free_list heap5 [(base0 + 240, 7952)].
Proof. concrete. Qed.

Lemma heap5_live :
  live heap5 [(base0 + 240, 7952)] (base0 + 160) 80 128 1 7952 0.
Proof. concrete. Qed.

Lemma heap7_free_list :
  free_list heap7 [(base0 + 32, 128); (base0 + 240, 7952)].
Proof. concrete. Qed.



(** ** Properties *)

(** X1.  [ALIGN] rounds a size up to the next multiple of 16 as long as
    the addition of 15 stays below [2^64]: the result is a multiple of 16,
    at least the size and less than 16 above it.  For the fifteen largest
    sizes the addition wraps and [ALIGN] gives 0. *)
Theorem ALIGN_rounds_up x :
  0 <= x < W64 ->
  (x + 15 < W64 -> x <= ALIGN x < x + 16 /\ ALIGN x mod 16 = 0) /\
  (W64 <= x + 15 -> ALIGN x = 0).
Proof.
  intros Hx. rewrite ALIGN_eq. split; intros Hb.
  - rewrite wrap_small by lia. lia.
  - unfold wrap. lia.
Qed.

Lemma ALIGN_rounds_up_witness :
  (100 + 15 < W64 -> 100 <= ALIGN 100 < 100 + 16 /\ ALIGN 100 mod 16 = 0) /\
  (W64 <= 100 + 15 -> ALIGN 100 = 0).
Proof. apply (ALIGN_rounds_up 100). lia. Defined.

(** X2.  With a page size that is a power of two (at most [2^32]) and a
    size that does not overflow, [PAGE_ALIGN] returns a multiple of the page
    size, at least the size and less than one page above it, and leaves the
    state alone. *)
Theorem PAGE_ALIGN_rounds_up s k x :
  pagesz s = 2 ^ k -> 0 <= k <= 32 -> 0 <= x -> x + 2 ^ k <= W64 ->
  exists r,
    PAGE_ALIGN x s = Ok r s /\ x <= r < x + 2 ^ k /\ r mod 2 ^ k = 0.
Proof.
  intros Hp Hk Hx Hb. exists (page_align (2 ^ k) x).
  split; [unfold PAGE_ALIGN, bind, mem_pagesize, ret, page_align; by rewrite Hp |].
  rewrite page_align_round by done.
  pose proof (pow2_range k Hk).
  split; [apply round_up_bounds | apply round_up_mod]; lia.
Qed.

Lemma PAGE_ALIGN_rounds_up_witness :
  exists r,
    PAGE_ALIGN 100 (boot []) = Ok r (boot []) /\
    100 <= r < 100 + 2 ^ 12 /\ r mod 2 ^ 12 = 0.
Proof.
  apply (PAGE_ALIGN_rounds_up (boot []) 12 100);
    [reflexivity | lia | lia | vm_compute; discriminate].
Defined.

(** X3.  Boundary tags round-trip: after [PUT(p, PACK(size, alloc))] on
    an accessible word, with an even size and [alloc] 0 or 1, [GET_SIZE(p)]
    reads the size rounded down to a multiple of 16 and [GET_ALLOC(p)] reads
    [alloc].  So a size that is a multiple of 16 comes back unchanged, and
    the low four bits of any other size are lost. *)
Theorem tag_round_trip s p sz a :
  valid s p = true -> 0 <= sz < W64 -> sz mod 2 = 0 -> a = 0 \/ a = 1 ->
  exists s',
    (PUT p (PACK sz a) ;;
     do x <- GET_SIZE p; do y <- GET_ALLOC p; ret (x, y)) s
    = Ok (sz - sz mod 16, a) s'.
Proof.
  intros Hv Hsz Hev Ha.
  rewrite run_PUT by done.
  rewrite run_GET_SIZE, run_GET_ALLOC by done. st.
  rewrite lookup_total_insert_eq. unfold ret. eexists. f_equal. f_equal.
  - destruct Ha as [-> | ->].
    + rewrite PACK_free, tag_size_eq by lia. done.
    + rewrite PACK_used, tag_size_eq by lia. lia.
  - destruct Ha as [-> | ->].
    + rewrite PACK_free, tag_alloc_eq. lia.
    + rewrite PACK_used, tag_alloc_eq by lia. lia.
Qed.

Lemma tag_round_trip_witness :
  exists s',
    (PUT (base0 + 24) (PACK 48 1) ;;
     do x <- GET_SIZE (base0 + 24); do y <- GET_ALLOC (base0 + 24);
     ret (x, y)) heap1
    = Ok (48 - 48 mod 16, 1) s'.
Proof.
  apply (tag_round_trip heap1 (base0 + 24) 48 1);
    [vm_compute; reflexivity | lia | reflexivity | right; reflexivity].
Defined.

(** X4.  Navigation over a block with matching header and footer
    [(sz, a)], [sz] a multiple of 16 and at least 16: [FTRP] names the
    footer, 16 bytes before the end of the block, [NEXT_BLKP] the payload
    [sz] bytes further, and [PREV_BLKP] from there leads back, so
    [PREV_BLKP(NEXT_BLKP(bp)) = bp].  None of them changes the state. *)
Theorem block_navigation s bp sz a :
  tagged s bp sz a -> 16 <= sz -> sz mod 16 = 0 -> a = 0 \/ a = 1 ->
  8 <= bp -> bp + sz < W64 -> bp mod 8 = 0 ->
  covered s (bp - 8) (bp + sz - 8) ->
  FTRP bp s = Ok (bp + sz - 16) s /\
  NEXT_BLKP bp s = Ok (bp + sz) s /\
  PREV_BLKP (bp + sz) s = Ok bp s /\
  (do n <- NEXT_BLKP bp; PREV_BLKP n) s = Ok bp s.
Proof.
  intros [Hh Hf] Hsz Hal Ha Hbp Hhi Hb8 Hc.
  assert (Hv1 : valid s (bp - 8) = true) by (apply (covered_valid _ _ _ _ Hc); lia).
  assert (Hv2 : valid s (bp + sz - 16) = true) by (apply (covered_valid _ _ _ _ Hc); lia).
  assert (Hp : PREV_BLKP (bp + sz) s = Ok bp s).
  { unfold PREV_BLKP, OVERHEAD. rewrite (wrap_small (bp + sz - 16)) by lia.
    rewrite run_GET_SIZE by done. rewrite Hf, tag_size_PACK by (try done; lia).
    unfold ret. f_equal. rewrite wrap_small by lia. lia. }
  assert (Hn : NEXT_BLKP bp s = Ok (bp + sz) s).
  { unfold NEXT_BLKP. rewrite HDRP_eq by lia.
    rewrite run_GET_SIZE by done. rewrite Hh, tag_size_PACK by (try done; lia).
    unfold ret. f_equal. rewrite wrap_small by lia. lia. }
  split; [| split; [done | split; [done |]]].
  - unfold FTRP, OVERHEAD. rewrite HDRP_eq by lia.
    rewrite run_GET_SIZE by done. rewrite Hh, tag_size_PACK by (try done; lia).
    unfold ret. f_equal. rewrite (wrap_small (bp + sz)) by lia.
    rewrite wrap_small by lia. lia.
  - unfold bind at 1. by rewrite Hn.
Qed.

Lemma block_navigation_witness :
  FTRP (base0 + 32) heap3 = Ok (base0 + 32 + 128 - 16) heap3 /\
  NEXT_BLKP (base0 + 32) heap3 = Ok (base0 + 32 + 128) heap3 /\
  PREV_BLKP (base0 + 32 + 128) heap3 = Ok (base0 + 32) heap3 /\
  (do n <- NEXT_BLKP (base0 + 32); PREV_BLKP n) heap3 = Ok (base0 + 32) heap3.
Proof. apply (block_navigation heap3 (base0 + 32) 128 1); concrete. Defined.

(** X5.  [find_fit] is a first-fit search: on a well-formed free list it
    returns the first block, in list order from [list_head], whose size is
    at least [asize] (every block before it is smaller), and null when
    every block is smaller; the state is left as it was. *)
Theorem find_fit_first_fit s L asize fuel :
  free_list s L -> (length L < fuel)%nat ->
  (Forall (fun b => b.2 < asize) L /\ find_fit fuel asize s = Ok 0 s) \/
  (exists L1 b L2,
     L = L1 ++ b :: L2 /\ Forall (fun b' => b'.2 < asize) L1 /\
     asize <= b.2 /\ find_fit fuel asize s = Ok b.1 s).
Proof.
  intros Hfl Hfuel. rewrite (find_fit_spec _ _ _ _ Hfl Hfuel).
  destruct (first_fit L asize) as [b |] eqn:Hff.
  - right. apply first_fit_elem in Hff as (L1 & L2 & HL & Hle & Hsm).
    by exists L1, b, L2.
  - left. split; [by apply first_fit_none | done].
Qed.

Lemma find_fit_first_fit_witness :
  let L := [(base0 + 32, 128); (base0 + 240, 7952)] in
  (Forall (fun b => b.2 < 200) L /\ find_fit 3 200 heap7 = Ok 0 heap7) \/
  (exists L1 b L2,
     L = L1 ++ b :: L2 /\ Forall (fun b' => b'.2 < 200) L1 /\
     200 <= b.2 /\ find_fit 3 200 heap7 = Ok b.1 heap7).
Proof.
  apply (find_fit_first_fit heap7 [(base0 + 32, 128); (base0 + 240, 7952)] 200 3);
    [exact heap7_free_list | simpl; lia].
Defined.

(** X6.  [add_node] followed by [delete_node] of the same block undoes
    itself: pushing a well-formed free block that overlaps no listed block
    and removing it again leaves the free list with the same blocks in the
    same order and the same head, and changes no word of memory other than
    the two link words of that block. *)
Theorem add_then_delete_restores s L b :
  free_list s L -> block_ok s b -> Forall (apart b) L ->
  exists s',
    (add_node b.1 ;; delete_node b.1) s = Ok tt s' /\
    free_list s' L /\ list_head s' = list_head s /\
    forall a, ~ (b.1 <= a < b.1 + 16) -> mem s' !!! a = mem s !!! a.
Proof.
  intros Hfl Hb Hap. destruct b as [bp bsz].
  destruct Hb as (Hb0 & Hbal & Hbsal & Hb32 & Hbhi & Hcb & _). simpl in *.
  assert (Hrun : exists s',
            (add_node bp ;; delete_node bp) s = Ok tt s' /\
            list_head s' = list_head s /\ mapped s' = mapped s /\
            forall a, ~ (bp <= a < bp + 16) -> mem s' !!! a = mem s !!! a).
  { destruct Hfl as (Hd & Hok & Hsep).
    unfold add_node, delete_node, prev_field, next_field.
    rewrite (wrap_small (bp + 8)) by lia.
    rewrite bind_assoc, run_get_list_head, bind_assoc. step.
    rewrite bind_assoc, run_get_list_head, bind_assoc. st.
    destruct L as [| [h hs] L]; simpl in Hd.
    - rewrite Hd. cbn [Z.eqb]. rewrite bind_ret, bind_assoc. step.
      rewrite run_put_list_head. st.
      step. cbn [Z.eqb]. step. cbn [Z.eqb]. unfold put_list_head.
      eexists. split; [reflexivity |]. st.
      split; [done |]. split; [done |]. intros a Ha. by mem_simpl.
    - destruct Hd as (Hh & Hpv & _).
      apply Forall_cons in Hok as [Hhk _].
      destruct Hhk as (Hh0 & Hhal & _ & Hh32 & Hhhi & Hch & _). simpl in *.
      apply Forall_cons in Hap as [Haph _]. unfold apart in Haph. simpl in Haph.
      rewrite Hh in *.
      destruct (Z.eqb_spec h 0) as [? | _]; [lia |].
      step. rewrite bind_assoc. step. rewrite run_put_list_head. st.
      step. cbn [Z.eqb]. step.
      destruct (Z.eqb_spec h 0) as [? | _]; [lia |].
      step. rewrite run_put_list_head. st. step. step.
      eexists. split; [reflexivity |]. st.
      split; [done |]. split; [done |]. intros a Ha.
      destruct (Z.eq_dec a h) as [-> | ?]; [by mem_simpl |]. by mem_simpl. }
  destruct Hrun as (s' & Hrun & Hh & Hm & Hmem).
  exists s'. split; [done |]. split; [| by split].
  eapply free_list_grow; [exact Hfl | done | |].
  - intros lo hi Hc. unfold covered. by rewrite Hm.
  - intros c x Hc Hx. apply Hmem.
    pose proof Hfl as (_ & Hok & _). rewrite Forall_forall in Hok, Hap.
    specialize (Hap c Hc). unfold apart in Hap. simpl in Hap.
    destruct (Hok c Hc) as (_&_&_&?&_). lia.
Qed.

Lemma add_then_delete_restores_witness :
  exists s',
    (add_node (base0 + 32) ;; delete_node (base0 + 32)) heap2 = Ok tt s' /\
    free_list s' [(base0 + 160, 8032)] /\ list_head s' = list_head heap2 /\
    forall a, ~ (base0 + 32 <= a < base0 + 32 + 16) ->
              mem s' !!! a = mem heap2 !!! a.
Proof.
  apply (add_then_delete_restores heap2 [(base0 + 160, 8032)] (base0 + 32, 128));
    [exact heap2_free_list | concrete | concrete].
Defined.

(** X7.  [extend] lays out the chunk the provider grants at [a]: the
    padding word 0 at [a], the prologue with header and footer [(16, 1)] at
    [a + 8] and [a + 16], one free block spanning the rest with payload at
    [a + 32], which is returned and becomes the head of the free list, and
    the terminator [(0, 1)] in the last word.  The region is recorded as
    mapped by exactly one [mem_map] call, and outside the chunk only link
    words of blocks already on the free list are written. *)
Theorem extend_formats_chunk s L n a rest :
  let req := extend_request (pagesz s) (initial_mapped s) n in
  free_list s L -> supply s = a :: rest ->
  0 < a -> a mod 16 = 0 -> req mod 16 = 0 -> 64 <= req -> a + req < W64 ->
  fresh s a req ->
  exists s',
    extend n s = Ok (a + 32) s' /\
    mapped s' = (a, req) :: mapped s /\ calls s' = CallMap req a :: calls s /\
    mem s' !!! a = 0 /\ tagged s' (a + 16) 16 1 /\
    mem s' !!! (a + req - 8) = PACK 0 1 /\
    free_list s' ((a + 32, req - 32) :: L) /\
    (forall x, ~ (a <= x < a + req) -> ~ links L x ->
               mem s' !!! x = mem s !!! x).
Proof.
  intros req Hfl Hsup Ha Hal Hral Hrmin Hhi Hfr.
  destruct (extend_spec s L n a rest Hfl Hsup Ha Hal Hral Hrmin Hhi Hfr)
    as (s' & Hrun & Hfl' & Hm & _ & _ & _ & Hcl & Hpad & Hp1 & Hp2 & Hterm & Hmem).
  exists s'. do 4 (split; [done |]).
  split.
  { split; [replace (a + 16 - 8) with (a + 8) by lia
           | replace (a + 16 + 16 - 16) with (a + 16) by lia]; done. }
  by repeat (split; [done |]).
Qed.

Lemma extend_formats_chunk_witness :
  let s := boot [base0] in
  let req := extend_request (pagesz s) (initial_mapped s) 32 in
  exists s',
    extend 32 s = Ok (base0 + 32) s' /\
    mapped s' = (base0, req) :: mapped s /\
    calls s' = CallMap req base0 :: calls s /\
    mem s' !!! base0 = 0 /\ tagged s' (base0 + 16) 16 1 /\
    mem s' !!! (base0 + req - 8) = PACK 0 1 /\
    free_list s' ((base0 + 32, req - 32) :: []) /\
    (forall x, ~ (base0 <= x < base0 + req) -> ~ links [] x ->
               mem s' !!! x = mem s !!! x).
Proof.
  apply (extend_formats_chunk (boot [base0]) [] 32 base0 []);
    [apply boot_free_list | concrete..].
Defined.

(** X8.  When some free block is large enough, [mm_malloc] returns the
    first such block in list order and asks the provider for nothing: the
    mapping, the call log and the growth tracker are unchanged.  The block
    is cut to the needed size when more than 32 bytes would remain, the
    remainder going to the head of the free list, and is handed out whole
    otherwise; it leaves the list, and no word outside that block and the
    link words of free blocks is written. *)
Theorem allocate_takes_first_fit s L bp bsz size fuel :
  let n := ALIGN (size + OVERHEAD) in
  free_list s L -> (length L < fuel)%nat ->
  0 <= size -> size + 31 < W64 ->
  first_fit L n = Some (bp, bsz) ->
  exists s' L1 L2,
    mm_malloc fuel size s = Ok bp s' /\
    L = L1 ++ (bp, bsz) :: L2 /\ Forall (fun b => b.2 < n) L1 /\ n <= bsz /\
    mapped s' = mapped s /\ calls s' = calls s /\
    initial_mapped s' = initial_mapped s /\
    (forall a, ~ (bp - 8 <= a < bp + bsz - 8) -> ~ links L a ->
               mem s' !!! a = mem s !!! a) /\
    tagged s' bp (if 32 <? bsz - n then n else bsz) 1 /\
    free_list s' (if 32 <? bsz - n
                  then (bp + n, bsz - n) :: L1 ++ L2 else L1 ++ L2).
Proof.
  intros n Hfl Hfuel Hs0 Hs1 Hff.
  destruct (full_size_eq size Hs0 Hs1) as (Heq & Hn & _). fold n in Heq, Hn.
  pose proof (mm_malloc_fit s L bp bsz size fuel) as Hfit.
  cbv zeta in Hfit. rewrite Heq in Hfit.
  destruct (Hfit Hfl Hfuel ltac:(lia) Hff)
    as (s' & L1 & L2 & HL & Hsm & Hle & Hrun & Hf & Hres).
  destruct Hf as (Hm & Him & _ & _ & Hcl & Hmem).
  exists s', L1, L2. do 7 (split; [done |]).
  split.
  { intros a H1 H2. apply Hmem. intros [? | Hl]; [done |].
    apply H2. rewrite HL. by apply links_sublist. }
  fold n in Hres. destruct (32 <? bsz - n); by destruct Hres.
Qed.

Lemma allocate_takes_first_fit_witness :
  let L := [(base0 + 32, 8160)] in
  let n := ALIGN (100 + OVERHEAD) in
  exists s' L1 L2,
    mm_malloc 2 100 heap1 = Ok (base0 + 32) s' /\
    L = L1 ++ (base0 + 32, 8160) :: L2 /\
    Forall (fun b => b.2 < n) L1 /\ n <= 8160 /\
    mapped s' = mapped heap1 /\ calls s' = calls heap1 /\
    initial_mapped s' = initial_mapped heap1 /\
    (forall a, ~ (base0 + 32 - 8 <= a < base0 + 32 + 8160 - 8) ->
               ~ links L a -> mem s' !!! a = mem heap1 !!! a) /\
    tagged s' (base0 + 32) (if 32 <? 8160 - n then n else 8160) 1 /\
    free_list s' (if 32 <? 8160 - n
                  then (base0 + 32 + n, 8160 - n) :: L1 ++ L2 else L1 ++ L2).
Proof.
  apply (allocate_takes_first_fit heap1 [(base0 + 32, 8160)] (base0 + 32) 8160 100 2);
    [exact heap1_free_list | simpl; lia | lia | lia | vm_compute; reflexivity].
Defined.

(** X9.  When no free block is large enough, the provider grants a fresh
    aligned region, and the size [extend] asks for is at least the needed
    size plus the 32 bytes of chunk overhead (which [extend] does not
    ensure when it falls back on its tracker), [mm_malloc] makes exactly
    one [mem_map] call, of that size, formats the chunk (padding, prologue,
    terminator) and returns the payload 32 bytes into it, tagged allocated;
    what is left of the chunk, if more than 32 bytes, becomes the head of
    the free list, ahead of the blocks that were there.  Outside the chunk
    only link words of free blocks are written. *)
Theorem allocate_maps_one_chunk s L size fuel a rest :
  let n := ALIGN (size + OVERHEAD) in
  let req := extend_request (pagesz s) (initial_mapped s) n in
  free_list s L -> (length L < fuel)%nat ->
  0 <= size -> size + 31 < W64 ->
  first_fit L n = None -> supply s = a :: rest -> grantable s n ->
  exists s',
    mm_malloc fuel size s = Ok (a + 32) s' /\
    mapped s' = (a, req) :: mapped s /\ calls s' = CallMap req a :: calls s /\
    (forall x, ~ (a <= x < a + req) -> ~ links L x ->
               mem s' !!! x = mem s !!! x) /\
    mem s' !!! a = 0 /\ tagged s' (a + 16) 16 1 /\
    mem s' !!! (a + req - 8) = PACK 0 1 /\
    tagged s' (a + 32) (if 32 <? req - 32 - n then n else req - 32) 1 /\
    free_list s' (if 32 <? req - 32 - n
                  then (a + 32 + n, req - 32 - n) :: L else L).
Proof.
  intros n req Hfl Hfuel Hs0 Hs1 Hff Hsup Hgr.
  destruct (full_size_eq size Hs0 Hs1) as (Heq & Hn & _). fold n in Heq, Hn.
  pose proof (mm_malloc_grow s L size fuel a rest) as Hgrow.
  cbv zeta in Hgrow. rewrite Heq in Hgrow. fold n req in Hgrow.
  destruct (Hgrow Hfl Hfuel ltac:(lia) Hff Hsup Hgr)
    as (s' & Hrun & Hm & Hcl & _ & _ & Hmem & Hpad & Hp1 & Hp2 & Hterm & Hres).
  exists s'. do 5 (split; [done |]).
  split.
  { split; [replace (a + 16 - 8) with (a + 8) by lia
           | replace (a + 16 + 16 - 16) with (a + 16) by lia]; done. }
  split; [done |].
  destruct (32 <? req - 32 - n); by destruct Hres.
Qed.

Lemma allocate_maps_one_chunk_witness :
  let s := boot [base0] in
  let n := ALIGN (100 + OVERHEAD) in
  let req := extend_request (pagesz s) (initial_mapped s) n in
  exists s',
    mm_malloc 1 100 s = Ok (base0 + 32) s' /\
    mapped s' = (base0, req) :: mapped s /\
    calls s' = CallMap req base0 :: calls s /\
    (forall x, ~ (base0 <= x < base0 + req) -> ~ links [] x ->
               mem s' !!! x = mem s !!! x) /\
    mem s' !!! base0 = 0 /\ tagged s' (base0 + 16) 16 1 /\
    mem s' !!! (base0 + req - 8) = PACK 0 1 /\
    tagged s' (base0 + 32) (if 32 <? req - 32 - n then n else req - 32) 1 /\
    free_list s' (if 32 <? req - 32 - n
                  then (base0 + 32 + n, req - 32 - n) :: [] else []).
Proof.
  apply (allocate_maps_one_chunk (boot [base0]) [] 100 1 base0 []);
    [apply boot_free_list | simpl; lia | lia | lia | reflexivity | reflexivity |].
  unfold grantable. simpl supply. cbv zeta. concrete.
Defined.

(** X10.  Allocation leaves live blocks alone, as long as the chunk it
    maps, when it maps one, is large enough for the block (the size
    [extend] asks for is at least the needed size plus 32, which [extend]
    does not ensure when it falls back on its tracker): a block [(q, qs)]
    lying in mapped memory and overlapping no free block does not overlap
    the block [mm_malloc] hands out, none of its words (tags and payload)
    is changed by the call, and afterwards it still lies in mapped memory
    and overlaps no block of the new free list. *)
Theorem allocate_keeps_live_block s L q qs size fuel :
  let n := ALIGN (size + OVERHEAD) in
  free_list s L -> (length L < fuel)%nat ->
  0 <= size -> size + 31 < W64 ->
  (first_fit L n = None -> grantable s n) ->
  0 < qs -> covered s (q - 8) (q + qs - 8) -> Forall (apart (q, qs)) L ->
  exists p s' bs L',
    mm_malloc fuel size s = Ok p s' /\ tagged s' p bs 1 /\
    apart (q, qs) (p, bs) /\
    (forall a, q - 8 <= a < q + qs - 8 -> mem s' !!! a = mem s !!! a) /\
    free_list s' L' /\ Forall (apart (q, qs)) L' /\
    covered s' (q - 8) (q + qs - 8).
Proof.
  intros n Hfl Hfuel Hs0 Hs1 Hgr Hqs Hcq Hap.
  destruct (full_size_eq size Hs0 Hs1) as (Heq & Hn & _). fold n in Heq, Hn.
  pose proof Hfl as (_ & Hok & _).
  assert (Hnl : forall a, q - 8 <= a < q + qs - 8 -> ~ links L a).
  { intros a Ha. by apply (links_apart s L (q, qs)). }
  destruct (first_fit L n) as [[bp bsz] |] eqn:Hff.
  - pose proof (mm_malloc_fit s L bp bsz size fuel) as Hfit.
    cbv zeta in Hfit. rewrite Heq in Hfit. fold n in Hfit.
    destruct (Hfit Hfl Hfuel ltac:(lia) Hff)
      as (s' & L1 & L2 & HL & Hsm & Hle & Hrun & Hf & Hres).
    assert (Hapb : apart (q, qs) (bp, bsz)).
    { rewrite Forall_forall in Hap. apply Hap. rewrite HL, elem_of_app, elem_of_cons.
      right. by left. }
    assert (Hap12 : Forall (apart (q, qs)) (L1 ++ L2)).
    { rewrite HL in Hap. rewrite Forall_app in Hap. rewrite Forall_app.
      destruct Hap as (? & (_ & ?)%Forall_cons). by split. }
    unfold apart in Hapb. simpl in Hapb.
    assert (Hmem : forall a, q - 8 <= a < q + qs - 8 -> mem s' !!! a = mem s !!! a).
    { intros a Ha. destruct Hf as (_&_&_&_&_&Hmem). apply Hmem.
      intros [? | Hl]; [lia |]. apply (Hnl a Ha). rewrite HL. by apply links_sublist. }
    pose proof (frame_covered _ _ _ _ _ Hf Hcq) as Hcq'.
    destruct (32 <? bsz - n) eqn:E.
    + destruct Hres as (Ht & Hfl'). apply Z.ltb_lt in E.
      exists bp, s', n, ((bp + n, bsz - n) :: L1 ++ L2).
      split; [done |]. split; [done |].
      split; [unfold apart; simpl; lia |]. split; [done |]. split; [done |].
      split; [| done]. apply Forall_cons. split; [unfold apart; simpl; lia | done].
    + destruct Hres as (Ht & Hfl').
      exists bp, s', bsz, (L1 ++ L2).
      split; [done |]. split; [done |].
      split; [unfold apart; simpl; lia |]. by repeat (split; [done |]).
  - specialize (Hgr eq_refl). pose proof Hgr as Hgr'. unfold grantable in Hgr'.
    destruct (supply s) as [| a rest] eqn:Hsup; [done |].
    destruct Hgr' as (Ha0 & Haal & Hmax & Hfr & Hral & Hrmin & Hfit).
    set (req := extend_request (pagesz s) (initial_mapped s) n) in *.
    pose proof (mm_malloc_grow s L size fuel a rest) as Hgrow.
    cbv zeta in Hgrow. rewrite Heq in Hgrow. fold n req in Hgrow.
    destruct (Hgrow Hfl Hfuel ltac:(lia) Hff Hsup)
      as (s' & Hrun & Hm & Hcl & _ & _ & Hmem & Hpad & Hp1 & Hp2 & Hterm & Hres).
    { unfold grantable. by rewrite Hsup. }
    pose proof (covered_fresh _ _ _ _ _ Hfr Hcq ltac:(lia)) as Hout.
    assert (Hcq' : covered s' (q - 8) (q + qs - 8)).
    { unfold covered. rewrite Hm. by apply Exists_cons_tl. }
    assert (Hmem' : forall x, q - 8 <= x < q + qs - 8 -> mem s' !!! x = mem s !!! x).
    { intros x Hx. apply Hmem; [lia | by apply Hnl]. }
    destruct (32 <? req - 32 - n) eqn:E.
    + destruct Hres as (Ht & Hfl'). apply Z.ltb_lt in E.
      exists (a + 32), s', n, ((a + 32 + n, req - 32 - n) :: L).
      split; [done |]. split; [done |].
      split; [unfold apart; simpl; lia |]. split; [done |]. split; [done |].
      split; [| done]. apply Forall_cons. split; [unfold apart; simpl; lia | done].
    + destruct Hres as (Ht & Hfl').
      exists (a + 32), s', (req - 32), L.
      split; [done |]. split; [done |].
      split; [unfold apart; simpl; lia |]. by repeat (split; [done |]).
Qed.

Lemma allocate_keeps_live_block_witness :
  exists p s' bs L',
    mm_malloc 2 50 heap3 = Ok p s' /\ tagged s' p bs 1 /\
    apart (base0 + 32, 128) (p, bs) /\
    (forall a, base0 + 32 - 8 <= a < base0 + 32 + 128 - 8 ->
               mem s' !!! a = mem heap3 !!! a) /\
    free_list s' L' /\ Forall (apart (base0 + 32, 128)) L' /\
    covered s' (base0 + 32 - 8) (base0 + 32 + 128 - 8).
Proof.
  apply (allocate_keeps_live_block heap3 [(base0 + 160, 8032)] (base0 + 32) 128 50 2);
    [exact heap3_free_list | simpl; lia | lia | lia
    | intros H; vm_compute in H; discriminate H | lia | concrete | concrete].
Defined.

(** X11.  Releasing a live block of at least 32 bytes whose merged size
    stays below 40960 bytes: [mm_free] returns, the block merged with each
    free neighbour is on the free list, which is the list [coalesce] is
    specified to leave, nothing is unmapped and the provider is not called;
    no word outside the merged block and the link words of free blocks is
    written. *)
Theorem release_small_block s L bp sz psz pa nsz na :
  let r := (merged bp sz psz pa nsz na).1 in
  let total := (merged bp sz psz pa nsz na).2 in
  let L' := (coalesced L bp sz psz pa nsz na).2 in
  free_list s L -> live s L bp sz psz pa nsz na ->
  32 <= r -> covered s (r - 24) (r - 16) -> total < 4096 * 10 ->
  exists s',
    mm_free bp s = Ok tt s' /\ free_list s' L' /\ (r, total) ∈ L' /\
    mapped s' = mapped s /\ calls s' = calls s /\
    forall a, ~ (r - 8 <= a < r + total - 8) -> ~ links L a ->
              mem s' !!! a = mem s !!! a.
Proof.
  intros r total L' Hfl Hlive Hr Hc Hsmall.
  destruct (mm_free_spec s L bp sz psz pa nsz na Hfl Hlive Hr Hc)
    as (s1 & Hfl1 & Hin & Hf & Hno & _).
  fold r total L' in Hfl1, Hin, Hf, Hno.
  destruct Hf as (Hm & _ & _ & _ & Hcl & Hmem).
  exists s1. split.
  { apply Hno. unfold sole_probe. apply andb_false_intro2. lia. }
  do 4 (split; [done |]).
  intros a H1 H2. apply Hmem. tauto.
Qed.

Lemma release_small_block_witness :
  let L := [(base0 + 160, 8032)] in
  let r := (merged (base0 + 32) 128 16 1 8032 0).1 in
  let total := (merged (base0 + 32) 128 16 1 8032 0).2 in
  let L' := (coalesced L (base0 + 32) 128 16 1 8032 0).2 in
  exists s',
    mm_free (base0 + 32) heap3 = Ok tt s' /\ free_list s' L' /\
    (r, total) ∈ L' /\
    mapped s' = mapped heap3 /\ calls s' = calls heap3 /\
    forall a, ~ (r - 8 <= a < r + total - 8) -> ~ links L a ->
              mem s' !!! a = mem heap3 !!! a.
Proof.
  apply (release_small_block heap3 [(base0 + 160, 8032)] (base0 + 32) 128 16 1 8032 0);
    [exact heap3_free_list | exact heap3_live | concrete..].
Defined.

(** X12.  Releasing the last live block of a chunk: when the merged block
    reaches from the chunk's prologue to its terminator, the chunk is a
    mapped region of the merged size plus 32, and the merged size is at
    least 40960 bytes, [mm_free] takes the block off the free list and
    hands exactly that region to [mem_unmap], in one call; the remaining
    free list is well formed in what stays mapped. *)
Theorem release_whole_chunk s L bp sz psz pa nsz na :
  let r := (merged bp sz psz pa nsz na).1 in
  let total := (merged bp sz psz pa nsz na).2 in
  let L' := (coalesced L bp sz psz pa nsz na).2 in
  free_list s L -> live s L bp sz psz pa nsz na ->
  32 <= r -> (r - 32, total + 32) ∈ mapped s ->
  tagged s (r - 16) 16 1 -> mem s !!! (r + total - 8) = PACK 0 1 ->
  4096 * 10 <= total ->
  exists s',
    mm_free bp s = Ok tt s' /\ free_list s' (remove_block r L') /\
    mapped s' = remove_region (r - 32, total + 32) (mapped s) /\
    calls s' = CallUnmap (r - 32) (total + 32) :: calls s.
Proof.
  intros r total L' Hfl Hlive Hr Hreg [Hpro1 Hpro2] Hterm Hbig.
  replace (r - 16 - 8) with (r - 24) in Hpro1 by lia.
  replace (r - 16 + 16 - 16) with (r - 16) in Hpro2 by lia.
  assert (Hc : covered s (r - 24) (r - 16)).
  { apply Exists_exists. exists (r - 32, total + 32). split; [done |]. simpl. lia. }
  destruct (probes_off_links s L bp sz psz pa nsz na Hfl Hlive Hpro2) as [Hl1 Hl2].
  destruct (mm_free_spec s L bp sz psz pa nsz na Hfl Hlive Hr Hc)
    as (s1 & Hfl1 & Hin & Hf & _ & Hyes).
  fold r total L' in Hfl1, Hin, Hf, Hyes, Hl1, Hl2.
  destruct Hf as (Hm & _ & _ & _ & Hcl & Hmem).
  destruct Hyes as (s2 & Hfl2 & Hf2 & Hrun).
  { unfold sole_probe, OVERHEAD.
    rewrite (Hmem (r - 24)), (Hmem (r + total - 8)), Hpro1, Hterm by (intros [? | ?]; [lia | done]).
    rewrite !tag_size_PACK by (try lia; by right).
    apply andb_true_intro. split; [reflexivity | lia]. }
  destruct Hf2 as (Hm2 & _ & _ & _ & Hcl2 & _).
  assert (Hreg2 : (r - 32, total + 32) ∈ mapped s2) by (rewrite Hm2, Hm; done).
  rewrite Hrun. unfold mem_unmap.
  rewrite (proj2 (existsb_region _ _) Hreg2).
  eexists. split; [reflexivity |]. st.
  split; [| split; [by rewrite Hm2, Hm | by rewrite Hcl2, Hcl]].
  eapply free_list_remapped; [exact Hfl2 | done | done |]. st.
  intros b Hb. pose proof Hfl2 as (_ & Hok2 & _).
  rewrite Forall_forall in Hok2. destruct (Hok2 b Hb) as (_&_&_&Hb32&_&Hcb&_).
  apply Exists_exists in Hcb as (R & HR & HR1 & HR2).
  apply Exists_exists. exists R. split; [| done].
  apply remove_region_elem; [done |]. intros ->. simpl in HR1, HR2.
  apply list_elem_of_filter in Hb as [Hne HbL].
  pose proof Hfl1 as (_ & _ & Hsep1).
  destruct (separated_elem L' b (r, total) Hsep1 HbL Hin) as [-> | Hap]; [done |].
  unfold apart in Hap. simpl in Hap. lia.
Qed.

Lemma release_whole_chunk_witness :
  let L := [(base0 + 100048, 6448)] in
  let r := (merged (base0 + 32) 100016 16 1 6448 0).1 in
  let total := (merged (base0 + 32) 100016 16 1 6448 0).2 in
  let L' := (coalesced L (base0 + 32) 100016 16 1 6448 0).2 in
  exists s',
    mm_free (base0 + 32) heap4 = Ok tt s' /\
    free_list s' (remove_block r L') /\
    mapped s' = remove_region (r - 32, total + 32) (mapped heap4) /\
    calls s' = CallUnmap (r - 32) (total + 32) :: calls heap4.
Proof.
  apply (release_whole_chunk heap4 [(base0 + 100048, 6448)]
           (base0 + 32) 100016 16 1 6448 0);
    [exact heap4_free_list | exact heap4_live | concrete..].
Defined.

(** X13.  Release of a block of at least 32 bytes leaves other live
    blocks alone: when a live block of at least 32 bytes is released
    (merged size below 40960 bytes), a block [(q, qs)] that overlaps
    neither the released block nor any free block keeps every one of its
    words, and overlaps no block of the resulting free list.  (A 16-byte
    block, as [mm_malloc(0)] hands out, is outside this: its release
    writes over the header of the next block.) *)
Theorem release_keeps_live_block s L bp sz psz pa nsz na q qs :
  let r := (merged bp sz psz pa nsz na).1 in
  let total := (merged bp sz psz pa nsz na).2 in
  let L' := (coalesced L bp sz psz pa nsz na).2 in
  free_list s L -> live s L bp sz psz pa nsz na ->
  32 <= r -> covered s (r - 24) (r - 16) -> total < 4096 * 10 ->
  0 < qs -> apart (q, qs) (bp, sz) -> Forall (apart (q, qs)) L ->
  exists s',
    mm_free bp s = Ok tt s' /\
    (forall a, q - 8 <= a < q + qs - 8 -> mem s' !!! a = mem s !!! a) /\
    free_list s' L' /\ Forall (apart (q, qs)) L'.
Proof.
  intros r total L' Hfl Hlive Hr Hc Hsmall Hqs Hqb Hap.
  destruct (mm_free_spec s L bp sz psz pa nsz na Hfl Hlive Hr Hc)
    as (s1 & Hfl1 & Hin & Hf & Hno & _).
  fold r total L' in Hfl1, Hin, Hf, Hno.
  destruct Hlive as (Hal & Hsal & Hmin & Hpal & Hpmin & Hnal & Hnmin & Hpa & Hna &
              Hlo & Hhi & _ & _ & _ & _ & _ & Hpin & Hnin).
  destruct (merged_bounds bp sz psz pa nsz na Hpa Hna) as (Hr1 & Hr2).
  fold r total in Hr1, Hr2.
  assert (Hqm : apart (q, qs) (r, total)).
  { rewrite Forall_forall in Hap. unfold apart in *. simpl in *.
    destruct Hpa as [-> | ->], Hna as [-> | ->]; cbn [Z.eqb Pos.eqb] in Hr1, Hr2.
    - pose proof (Hap _ (Hpin eq_refl)). pose proof (Hap _ (Hnin eq_refl)).
      simpl in *. lia.
    - pose proof (Hap _ (Hpin eq_refl)). simpl in *. lia.
    - pose proof (Hap _ (Hnin eq_refl)). simpl in *. lia.
    - lia. }
  pose proof Hfl as (_ & Hok & _).
  exists s1. split.
  { apply Hno. unfold sole_probe. apply andb_false_intro2. lia. }
  split; [| split; [done |]].
  - intros a Ha. destruct Hf as (_&_&_&_&_&Hmem). apply Hmem.
    unfold apart in Hqm. simpl in Hqm. intros [? | Hl]; [lia |]. revert Hl.
    by apply (links_apart s L (q, qs)).
  - apply Forall_forall. intros b Hb.
    apply coalesced_elem in Hb as [-> | Hb].
    + by rewrite (surjective_pairing (merged bp sz psz pa nsz na)).
    + rewrite Forall_forall in Hap. by apply Hap.
Qed.

Lemma release_keeps_live_block_witness :
  let L := [(base0 + 240, 7952)] in
  let L' := (coalesced L (base0 + 160) 80 128 1 7952 0).2 in
  exists s',
    mm_free (base0 + 160) heap5 = Ok tt s' /\
    (forall a, base0 + 32 - 8 <= a < base0 + 32 + 128 - 8 ->
               mem s' !!! a = mem heap5 !!! a) /\
    free_list s' L' /\ Forall (apart (base0 + 32, 128)) L'.
Proof.
  apply (release_keeps_live_block heap5 [(base0 + 240, 7952)]
           (base0 + 160) 80 128 1 7952 0 (base0 + 32) 128);
    [exact heap5_free_list | exact heap5_live | concrete..].
Defined.

(** X14.  The block released last is reused first: after [mm_free] of a
    live block whose predecessor is allocated (merged size below 40960
    bytes), an [mm_malloc] whose needed size the merged block can hold
    returns the very address that was released, without any call to the
    provider. *)
Theorem release_then_allocate_reuses s L bp sz psz nsz na size fuel :
  let n := ALIGN (size + OVERHEAD) in
  let total := (merged bp sz psz 1 nsz na).2 in
  free_list s L -> live s L bp sz psz 1 nsz na ->
  (S (length L) < fuel)%nat -> 0 <= size -> size + 31 < W64 ->
  n <= total -> total < 4096 * 10 ->
  exists s',
    (mm_free bp ;; mm_malloc fuel size) s = Ok bp s' /\
    mapped s' = mapped s /\ calls s' = calls s.
Proof.
  intros n total Hfl Hlive Hfuel Hs0 Hs1 Hfit Hsmall.
  destruct (full_size_eq size Hs0 Hs1) as (Heq & Hn & _). fold n in Heq, Hn.
  pose proof Hlive as (Hal & Hsal & Hmin & Hpal & Hpmin & Hnal & Hnmin & _ & Hna &
              Hlo & Hhi & Hc & _).
  pose proof (mm_free_spec s L bp sz psz 1 nsz na) as Hfree. cbv zeta in Hfree.
  assert (Hr : (merged bp sz psz 1 nsz na).1 = bp) by (unfold merged; simpl; lia).
  rewrite Hr in Hfree. fold total in Hfree.
  destruct (Hfree Hfl Hlive) as (s1 & Hfl1 & Hin & Hf & Hno & _); [lia | |].
  { eapply covered_mono; [exact Hc | lia | lia]. }
  assert (Hrun1 : mm_free bp s = Ok tt s1).
  { apply Hno. unfold sole_probe. apply andb_false_intro2. lia. }
  set (L' := (coalesced L bp sz psz 1 nsz na).2) in *.
  assert (Hhead : exists T, L' = (bp, total) :: T /\ (length T <= length L)%nat).
  { subst L' total. unfold coalesced, merged.
    destruct Hna as [-> | ->]; cbn [Z.eqb Pos.eqb fst snd].
    - eexists. split; [f_equal; f_equal; lia | apply remove_block_length].
    - eexists. split; [f_equal; f_equal; lia | done]. }
  destruct Hhead as (T & HL' & Hlen).
  assert (Hff : first_fit L' n = Some (bp, total)).
  { rewrite HL'. simpl. destruct (Z.leb_spec n total); [done | lia]. }
  pose proof (mm_malloc_fit s1 L' bp total size fuel) as Hfit'.
  cbv zeta in Hfit'. rewrite Heq in Hfit'. fold n in Hfit'.
  destruct (Hfit' Hfl1) as (s' & L1 & L2 & _ & _ & _ & Hrun & Hf' & _);
    [rewrite HL'; simpl; lia | lia | done |].
  exists s'. unfold bind at 1. rewrite Hrun1. split; [done |].
  destruct Hf as (Hm & _ & _ & _ & Hcl & _).
  destruct Hf' as (Hm' & _ & _ & _ & Hcl' & _).
  split; congruence.
Qed.

Lemma release_then_allocate_reuses_witness :
  exists s',
    (mm_free (base0 + 32) ;; mm_malloc 3 50) heap3 = Ok (base0 + 32) s' /\
    mapped s' = mapped heap3 /\ calls s' = calls heap3.
Proof.
  apply (release_then_allocate_reuses heap3 [(base0 + 160, 8032)]
           (base0 + 32) 128 16 8032 0 50 3);
    [exact heap3_free_list | exact heap3_live | simpl; lia | lia | lia
    | concrete | concrete].
Defined.

(** X15.  Allocation and release round-trip on the free list: when the
    head block of the free list fits the request, lies between an allocated
    predecessor and an allocated successor header, and is smaller than
    40960 bytes, [mm_malloc] followed by [mm_free] of its result leaves
    exactly the free list it started from, split or not, with the mapping
    and the provider's call log unchanged. *)
Theorem allocate_then_release_restores s L bp bsz psz nsz size fuel :
  let n := ALIGN (size + OVERHEAD) in
  free_list s ((bp, bsz) :: L) -> (S (length L) < fuel)%nat ->
  0 < size -> size + 31 < W64 -> n <= bsz -> bsz < 4096 * 10 ->
  psz mod 16 = 0 -> 16 <= psz -> 8 < bp - psz ->
  tagged s (bp - psz) psz 1 -> Forall (apart (bp - psz, psz)) L ->
  nsz mod 16 = 0 -> 0 <= nsz -> bp + bsz + nsz < W64 ->
  mem s !!! (bp + bsz - 8) = PACK nsz 1 ->
  covered s (bp - psz - 8) (bp + bsz + nsz) ->
  exists s',
    (do p <- mm_malloc fuel size; mm_free p) s = Ok tt s' /\
    free_list s' ((bp, bsz) :: L) /\
    mapped s' = mapped s /\ calls s' = calls s.
Proof.
  intros n Hfl Hfuel Hs0 Hs1 Hfit Hsmall Hpal Hpmin Hlo [Hp1 Hp2] Happ
         Hnal Hnmin Hhi Hnh Hc.
  destruct (full_size_eq size ltac:(lia) Hs1) as (Heq & Hn & Hnal'). fold n in Heq, Hn, Hnal'.
  assert (Hff : first_fit ((bp, bsz) :: L) n = Some (bp, bsz)).
  { simpl. destruct (Z.leb_spec n bsz); [done | lia]. }
  pose proof (mm_malloc_fit s ((bp, bsz) :: L) bp bsz size fuel) as Hmal.
  cbv zeta in Hmal. rewrite Heq in Hmal. fold n in Hmal.
  destruct (Hmal Hfl ltac:(simpl; lia) ltac:(lia) Hff)
    as (s1 & L1 & L2 & HL & Hsm & _ & Hrun & Hf & Hres).
  destruct L1 as [| x L1]; simpl in HL.
  2: { injection HL as <- _. apply Forall_cons in Hsm as [Hx _]. simpl in Hx. lia. }
  injection HL as <-. cbn [app] in Hf, Hres.
  pose proof Hfl as (_ & Hok & Hsep).
  apply Forall_cons in Hok as [Hbk Hok]. simpl in Hsep. destruct Hsep as [Hapb Hsep].
  destruct Hbk as (Hb0 & Hbal & Hbsal & Hb32 & Hbhi & Hcb & Htb). simpl in *.
  pose proof Hf as (Hm & _ & _ & _ & Hcl & Hmem).
  assert (Hp1' : mem s1 !!! (bp - psz - 8) = PACK psz 1).
  { rewrite Hmem; [done |]. intros [? | Hl]; [lia |]. revert Hl.
    apply (links_apart s L (bp - psz, psz)); [done | done | simpl; lia]. }
  assert (Hp2' : mem s1 !!! (bp - psz + psz - 16) = PACK psz 1).
  { rewrite Hmem; [done |]. intros [? | Hl]; [lia |]. revert Hl.
    apply (links_apart s L (bp - psz, psz)); [done | done | simpl; lia]. }
  assert (Hnh' : mem s1 !!! (bp + bsz - 8) = PACK nsz 1).
  { rewrite Hmem; [done |]. intros [? | Hl]; [lia |].
    apply Exists_exists in Hl as (b & Hb & Hab).
    rewrite Forall_forall in Hok, Hapb.
    destruct (Hok b Hb) as (_ & ? & _ & ? & _). specialize (Hapb b Hb).
    unfold apart in Hapb. simpl in Hapb. lia. }
  pose proof (frame_covered _ _ _ _ _ Hf Hc) as Hc1.
  unfold bind at 1. rewrite Hrun.
  destruct (32 <? bsz - n) eqn:E.
  - apply Z.ltb_lt in E. destruct Hres as (Ht & Hfl1).
    assert (Hlive : live s1 ((bp + n, bsz - n) :: L) bp n psz 1 (bsz - n) 0).
    { unfold live. split; [done |]. split; [done |]. split; [lia |].
      split; [done |]. split; [done |]. split; [lia |]. split; [lia |].
      split; [by right |]. split; [by left |]. split; [done |]. split; [lia |].
      split; [eapply covered_mono; [exact Hc1 | lia | lia] |].
      split; [done |]. split; [by split |].
      split; [exact (proj1 (free_list_tagged _ _ (bp + n, bsz - n) Hfl1 ltac:(left))) |].
      split.
      { apply Forall_cons. split; [unfold apart; simpl; lia |].
        eapply Forall_impl; [exact Hapb |]. unfold apart. simpl. intros b. lia. }
      split; [intros [=] | intros _; left]. }
    pose proof (mm_free_spec s1 _ bp n psz 1 (bsz - n) 0 Hfl1 Hlive) as Hfree.
    cbv zeta in Hfree.
    assert (Hmg : merged bp n psz 1 (bsz - n) 0 = (bp, bsz)).
    { unfold merged. simpl. f_equal; lia. }
    rewrite Hmg in Hfree. cbn [fst snd] in Hfree.
    destruct Hfree as (s2 & Hfl2 & _ & Hf2 & Hno & _); [lia | |].
    { eapply covered_mono; [exact Hc1 | lia | lia]. }
    exists s2. split.
    { apply Hno. unfold sole_probe. apply andb_false_intro2. lia. }
    destruct Hf2 as (Hm2 & _ & _ & _ & Hcl2 & _).
    split; [| split; congruence].
    unfold coalesced in Hfl2. cbn [Z.eqb Pos.eqb fst snd] in Hfl2.
    replace (n + (bsz - n)) with bsz in Hfl2 by lia.
    assert (Hnd : bp + n ∉ L.*1).
    { destruct Hfl1 as (_ & Hok1 & Hsep1).
      pose proof (separated_NoDup _ _ Hok1 Hsep1) as Hnd. simpl in Hnd.
      by apply NoDup_cons in Hnd as [? _]. }
    assert (Hrm : remove_block (bp + n) ((bp + n, bsz - n) :: L) = L).
    { apply (remove_block_at (bp + n) (bsz - n) [] L); [apply not_elem_of_nil | done]. }
    by rewrite Hrm in Hfl2.
  - destruct Hres as (Ht & Hfl1).
    assert (Hlive : live s1 L bp bsz psz 1 nsz 1).
    { unfold live. split; [done |]. split; [done |]. split; [lia |].
      split; [done |]. split; [done |]. split; [done |]. split; [done |].
      split; [by right |]. split; [by right |]. split; [done |]. split; [done |].
      split; [done |]. split; [done |]. split; [by split |]. split; [done |].
      split; [done |]. split; intros [=]. }
    pose proof (mm_free_spec s1 _ bp bsz psz 1 nsz 1 Hfl1 Hlive) as Hfree.
    cbv zeta in Hfree.
    assert (Hmg : merged bp bsz psz 1 nsz 1 = (bp, bsz)).
    { unfold merged. simpl. f_equal; lia. }
    rewrite Hmg in Hfree. cbn [fst snd] in Hfree.
    destruct Hfree as (s2 & Hfl2 & _ & Hf2 & Hno & _); [lia | |].
    { eapply covered_mono; [exact Hc1 | lia | lia]. }
    exists s2. split.
    { apply Hno. unfold sole_probe. apply andb_false_intro2. lia. }
    destruct Hf2 as (Hm2 & _ & _ & _ & Hcl2 & _).
    split; [exact Hfl2 | split; congruence].
Qed.

Lemma allocate_then_release_restores_witness :
  exists s',
    (do p <- mm_malloc 2 100; mm_free p) heap1 = Ok tt s' /\
    free_list s' ((base0 + 32, 8160) :: []) /\
    mapped s' = mapped heap1 /\ calls s' = calls heap1.
Proof.
  apply (allocate_then_release_restores heap1 [] (base0 + 32) 8160 16 0 100 2);
    [exact heap1_free_list | simpl; lia | lia | lia | concrete..].
Defined.



(** X17.  In any state, an [mm_malloc] that returns has either made no
    call to the provider and left the growth tracker alone, or made exactly
    one call, a [mem_map] of the size [extend] computes from the page size,
    the tracker and the aligned request. *)
Theorem allocate_maps_at_most_once fuel size s p s' :
  mm_malloc fuel size s = Ok p s' ->
  (calls s' = calls s /\ initial_mapped s' = initial_mapped s) \/
  (exists a,
     calls s' =
       CallMap (extend_request (pagesz s) (initial_mapped s)
                               (ALIGN (wrap (size + OVERHEAD)))) a :: calls s).
Proof.
  unfold mm_malloc. set (n := ALIGN (wrap (size + OVERHEAD))).
  unfold bind at 1, find_fit, bind at 1, get_list_head.
  destruct (find_fit_from fuel (list_head s) n s) as [fb s1 | |] eqn:Hff;
    [| done | done].
  apply find_fit_from_pure in Hff as ->.
  destruct (negb (fb =? 0)).
  - intros Hrun. left.
    apply (quiet_bind (set_allocated fb n) (fun _ => ret fb)
             (quiet_set_allocated _ _) (fun _ => quiet_ret _) _ _ _ Hrun).
  - unfold bind at 1.
    destruct (extend n s) as [fb' s2 | |] eqn:Hext; [| done | done].
    destruct (extend_calls _ _ _ _ Hext) as (a & Hcl & _).
    intros Hrun. right. exists a. rewrite <- Hcl.
    destruct (negb (fb' =? 0)).
    + assert (Hq : quiet (do free_block <- get_list_head;
                          set_allocated free_block n ;; ret free_block)).
      { quiet_more; apply quiet_set_allocated. }
      by destruct (Hq _ _ _ Hrun).
    + by injection Hrun as _ <-.
Qed.

Lemma allocate_maps_at_most_once_witness :
  (calls heap3 = calls heap1 /\ initial_mapped heap3 = initial_mapped heap1) \/
  (exists a,
     calls heap3 =
       CallMap (extend_request (pagesz heap1) (initial_mapped heap1)
                               (ALIGN (wrap (100 + OVERHEAD)))) a :: calls heap1).
Proof.
  apply (allocate_maps_at_most_once 2 100 heap1 (base0 + 32) heap3).
  vm_compute. reflexivity.
Defined.

(** X18.  In any state, an [mm_free] that returns has never mapped
    memory and has left the growth tracker alone: either the provider was
    not called and the mapping is unchanged, or exactly one region, mapped
    before the call, was handed to [mem_unmap] and is gone from the
    mapping. *)
Theorem release_unmaps_at_most_once bp s s' :
  mm_free bp s = Ok tt s' ->
  initial_mapped s' = initial_mapped s /\
  ((calls s' = calls s /\ mapped s' = mapped s) \/
   exists addr n,
     (addr, n) ∈ mapped s /\
     calls s' = CallUnmap addr n :: calls s /\
     mapped s' = remove_region (addr, n) (mapped s)).
Proof.
  intros Hrun. unfold mm_free in Hrun.
  pose proof (frame_refl (fun _ => True) s) as F.
  repeat match goal with
  | H : bind ?c _ ?s1 = Ok _ _, F : frame _ s ?s1 |- _ =>
      let a := fresh "a" in let t := fresh "t" in
      let F' := fresh "F" in let Hc := fresh "Hc" in
      assert (Hc : steady c)
        by first [ apply steady_GET_SIZE | apply steady_PUT
                 | apply steady_FTRP | apply steady_coalesce
                 | apply steady_delete_node ];
      destruct (steady_step _ _ _ _ _ _ Hc F H) as (a & t & F' & H');
      clear Hc H F; rename H' into H; cbv beta in H
  | H : (if ?b then _ else _) _ = Ok _ _ |- _ => destruct b
  end.
  all: match goal with F : frame _ _ _ |- _ =>
         destruct F as (Hm & Him & _ & _ & Hcl & _) end.
  2-4: unfold ret in Hrun; injection Hrun as <-; split; [done | by left].
  unfold mem_unmap in Hrun.
  match type of Hrun with context [existsb ?f ?l] =>
    destruct (existsb f l) eqn:Hex; [| done] end.
  injection Hrun as <-. st. split; [done |]. right.
  apply existsb_region in Hex. rewrite Hm in Hex.
  eexists _, _. split; [exact Hex |]. by rewrite Hm, Hcl.
Qed.

Lemma release_unmaps_at_most_once_witness :
  let s' := state_of (mm_free (base0 + 32) heap4) heap4 in
  initial_mapped s' = initial_mapped heap4 /\
  ((calls s' = calls heap4 /\ mapped s' = mapped heap4) \/
   exists addr n,
     (addr, n) ∈ mapped heap4 /\
     calls s' = CallUnmap addr n :: calls heap4 /\
     mapped s' = remove_region (addr, n) (mapped heap4)).
Proof.
  apply (release_unmaps_at_most_once (base0 + 32) heap4).
  vm_compute. reflexivity.
Defined.



(** X20.  [mm_free] does not check its argument: when the header word, 8
    bytes before the pointer, is word aligned and lies in no mapped region,
    the call faults on its first read instead of returning.  A null
    pointer is such an argument on any heap that does not map the last
    word of the address space: its header address wraps to [2^64 - 8]. *)
Theorem release_of_bad_pointer_faults s ptr :
  HDRP ptr mod 8 = 0 ->
  existsb (in_region (HDRP ptr)) (mapped s) = false ->
  mm_free ptr s = Fault.
Proof.
  intros Hal Hout. unfold mm_free, bind at 1, GET_SIZE, bind at 1, GET, valid.
  by rewrite Hout, andb_false_r.
Qed.

Lemma release_of_bad_pointer_faults_witness :
  HDRP 0 = W64 - 8 /\ mm_free 0 heap3 = Fault.
Proof.
  split; [reflexivity |].
  apply (release_of_bad_pointer_faults heap3 0); vm_compute; reflexivity.
Defined.
